(** * DNP3 object code generator (scripts/dnp3-gen/dnp3-gen.py)

    A shallow embedding of the generator and of the C code it emits.

    The generator reads a schema (already parsed YAML), validates it with
    [preprocess_object], and stamps four Jinja2 templates.  The embedding
    has three layers:

    - the schema as nested mappings and sequences ([yaml]) and the Python
      functions of the script as functions in a small output/exception monad
      ([py]);
    - each template as a function from the schema to the syntax tree of the C
      text it renders (the branches of a template are the branches of
      the function, in the same order);
    - the meaning of the rendered C: decoders running over a byte cursor, a
      heap and a point list, the Lua and JSON exporters reading a decoded
      point.

    C helpers that the rendered code calls but that live in the hand-written
    part of the target files (DNP3ReadPrefix, DNP3PrefixIsSize, the byte
    order of the wide integer reads, DNP3_OBJECT_CODE) are parameters.  So
    are the two things the script leaves to its libraries: the scoping of
    [{% set %}] inside a loop, which differs between releases of Jinja2
    ([jinja2]), and what [re.sub] makes of the text of a file
    ([file_text]). *)

From Stdlib Require Import ZArith Lia.
From Stdlib.Strings Require Import Ascii Byte.
From stdpp Require Import gmap strings list fin_maps pretty.

Open Scope string_scope.
Open Scope list_scope.
Open Scope Z_scope.

Set Warnings "-register-all".

(** ** Parsed schema data *)

(** What [yaml.load] hands to the script.  Mapping keys are strings, in the
    order in which the mapping is iterated. *)
Inductive yaml : Type :=
| YNull
| YBool (b : bool)
| YInt (n : Z)
| YStr (s : string)
| YSeq (items : list yaml)
| YMap (entries : list (string * yaml)).

Definition dict := list (string * yaml).

(** [k in d] and [d[k]] *)
Fixpoint dict_get (k : string) (d : dict) : option yaml :=
  match d with
  | [] => None
  | (k', v) :: d' => if String.eqb k k' then Some v else dict_get k d'
  end.

Definition dict_has (k : string) (d : dict) : bool :=
  match dict_get k d with Some _ => true | None => false end.

(** [d[k] = v] *)
Fixpoint dict_set (k : string) (v : yaml) (d : dict) : dict :=
  match d with
  | [] => [(k, v)]
  | (k', v') :: d' =>
      if String.eqb k k' then (k, v) :: d' else (k', v') :: dict_set k v d'
  end.

(** [x in l] for a list of strings *)
Definition str_in (x : string) (l : list string) : bool :=
  existsb (String.eqb x) l.

(** Python truth value *)
Definition truthy (v : yaml) : bool :=
  match v with
  | YNull => false
  | YBool b => b
  | YInt n => negb (n =? 0)
  | YStr s => negb (String.eqb s "")
  | YSeq l => match l with [] => false | _ => true end
  | YMap d => match d with [] => false | _ => true end
  end.

(** The number a value is when Python compares or adds it to an int
    ([True == 1]). *)
Definition py_num (v : yaml) : option Z :=
  match v with
  | YInt n => Some n
  | YBool b => Some (if b then 1 else 0)
  | _ => None
  end.

(** [v == n] for an int literal [n] *)
Definition eq_int (v : option yaml) (n : Z) : bool :=
  match v with
  | Some y => match py_num y with Some m => m =? n | None => false end
  | None => false
  end.

(** [v == s] for a string literal [s] *)
Definition eq_str (v : option yaml) (s : string) : bool :=
  match v with
  | Some (YStr t) => String.eqb t s
  | _ => false
  end.

(** ** Output and exceptions of the script *)

Inductive exception : Type :=
| KeyError (key : string)
| TypeError
| AttributeError
| ValueError
| AssertionError
| UndefinedError
| IOError (filename : string)
| re_error                        (* raised by re.sub, e.g. "invalid group reference" *)
(* raise_helper, with the message of each call site *)
| Unknown_datatype_for_object (ty group variation : option yaml)   (* struct template *)
| Unknown_datatype (ty : option yaml)                               (* extra fields *)
| Unhandled_constraint (key : string)
| Unhandled_width (w : option yaml)
| Unhandled_datatype_for_object (ty group variation : option yaml) (* decoder template *)
| Unhandled_datatype (ty : option yaml).                            (* Lua and JSON templates *)

Inductive stream := Stdout | Stderr.

(** One [print] call: the format string it uses and its arguments. *)
Inductive message : Type :=
| Object_not_implemented (group variation : yaml) (why : yaml)  (* "Object not implemented: %s:%s: %s" *)
| Invalid_key (key : string) (group variation : Z)               (* "Invalid key '%s' in object %d:%d" *)
| Loaded_objects (n : nat)                                       (* "Loaded %s objects." *)
| Generating (filename : string)                                 (* "Generating %s." *)
| Updated (filename : string)                                    (* "Updated %s." *)
| Failed_to_generate (filename : string) (err : exception)       (* "Failed to generate %s: %s" *)
| Failed_to_update (filename : string) (err : exception).        (* "Failed to update %s: %s" *)

Inductive pyres (A : Type) : Type :=
| Ret (a : A)
| SysExit (status : Z)
| Exc (e : exception).
Arguments Ret {A} a.
Arguments SysExit {A} status.
Arguments Exc {A} e.

(** A computation prints lines and then returns, exits or raises. *)
Record py (A : Type) : Type := Py { py_out : list (stream * message); py_res : pyres A }.
Arguments Py {A} py_out py_res.
Arguments py_out {A} p.
Arguments py_res {A} p.

Definition py_ret {A} (a : A) : py A := Py [] (Ret a).
Definition py_raise {A} (e : exception) : py A := Py [] (Exc e).
Definition py_exit {A} (status : Z) : py A := Py [] (SysExit status).
Definition py_print (s : stream) (m : message) : py unit := Py [(s, m)] (Ret tt).

Definition py_bind {A B} (m : py A) (k : A -> py B) : py B :=
  match py_res m with
  | Ret a => let r := k a in Py (py_out m ++ py_out r) (py_res r)
  | SysExit c => Py (py_out m) (SysExit c)
  | Exc e => Py (py_out m) (Exc e)
  end.

Notation "'do' x <- m ; k" := (py_bind m (fun x => k))
  (at level 10, x name, m at level 100, k at level 200).
Notation "m ;; k" := (py_bind m (fun _ => k))
  (at level 100, k at level 200, right associativity).

(** [d[k]], raising KeyError *)
Definition py_item (d : dict) (k : string) : py yaml :=
  match dict_get k d with Some v => py_ret v | None => py_raise (KeyError k) end.

(** [x["k"]] on an arbitrary value *)
Definition py_subscript (v : yaml) (k : string) : py yaml :=
  match v with YMap d => py_item d k | _ => py_raise TypeError end.

(** the argument of a [%d] conversion *)
Definition py_fmt_d (v : yaml) : py Z :=
  match py_num v with Some n => py_ret n | None => py_raise TypeError end.

(** iterating a value with [for x in v] *)
Definition py_iter (v : yaml) : py (list yaml) :=
  match v with
  | YSeq l => py_ret l
  | YMap d => py_ret (map (fun kv => YStr (fst kv)) d)
  | YStr s => py_ret (map (fun c => YStr (String c EmptyString)) (String.list_ascii_of_string s))
  | _ => py_raise TypeError
  end.

(** [for x in l: body], stopping at [break] *)
Inductive flow := Continue | Break.

Fixpoint py_for {A S} (l : list A) (s : S) (body : A -> S -> py (flow * S)) : py S :=
  match l with
  | [] => py_ret s
  | x :: l' =>
      do r <- body x s;
      match fst r with
      | Break => py_ret (snd r)
      | Continue => py_for l' (snd r) body
      end
  end.

(** ** The helper functions of the script *)

Definition freeable_types : list string := ["bytearray"].

Fixpoint has_freeable_types (fields : list yaml) : py bool :=
  match fields with
  | [] => py_ret false
  | field :: fields' =>
      do ty <- py_subscript field "type";
      if match ty with YStr t => str_in t freeable_types | _ => false end
      then py_ret true
      else has_freeable_types fields'
  end.

Definition integer_types : list string :=
  ["uint64"; "uint32"; "uint24"; "uint16"; "uint8";
   "int64"; "int32"; "int16"; "int8"; "dnp3time"].

Definition is_integer_type (datatype : option yaml) : bool :=
  match datatype with
  | Some (YStr t) => str_in t integer_types
  | _ => false
  end.

Definition to_type (datatype : string) : option string :=
  if String.eqb datatype "uint8" then Some "uint8_t" else None.

(** ** preprocess_object *)

Definition valid_keys : list string :=
  ["group"; "variation"; "constraints"; "extra_fields"; "fields"; "packed"].

Definition valid_field_keys : list string :=
  ["type"; "name"; "width"; "len_from_prefix"; "len_field"; "fields"; "size"].

(** [int(x)] on a parsed scalar.  Strings are read as an optional sign and
    decimal digits, with white space around them dropped. *)
Definition digit_of (c : ascii) : option Z :=
  let n := Z.of_nat (nat_of_ascii c) in
  if (48 <=? n) && (n <=? 57) then Some (n - 48) else None.

Fixpoint digits_value (acc : Z) (cs : list ascii) : option Z :=
  match cs with
  | [] => Some acc
  | c :: cs' => match digit_of c with
                | Some d => digits_value (10 * acc + d) cs'
                | None => None
                end
  end.

(** [str.isspace] on one character: space, tab, line feed, vertical tab, form
    feed and carriage return *)
Definition is_space (c : ascii) : bool :=
  let n := nat_of_ascii c in
  (n =? 32)%nat || ((9 <=? n)%nat && (n <=? 13)%nat).

Fixpoint lstrip (cs : list ascii) : list ascii :=
  match cs with
  | c :: cs' => if is_space c then lstrip cs' else cs
  | [] => []
  end.

(** [s.strip()] *)
Definition strip (cs : list ascii) : list ascii :=
  rev (lstrip (rev (lstrip cs))).

Definition py_int (v : yaml) : py Z :=
  match v with
  | YInt n => py_ret n
  | YBool b => py_ret (if b then 1 else 0)
  | YStr s =>
      let parse cs := match cs with
                      | [] => None
                      | _ => digits_value 0 cs
                      end in
      let r := match strip (String.list_ascii_of_string s) with
               | "-"%char :: cs => option_map Z.opp (parse cs)
               | "+"%char :: cs => parse cs
               | cs => parse cs
               end in
      match r with Some n => py_ret n | None => py_raise ValueError end
  | _ => py_raise TypeError
  end.

(** the [print ... sys.exit(1)] of both key checks *)
Definition invalid_key {A} (key : string) (obj : dict) : py A :=
  do g <- py_item obj "group";
  do v <- py_item obj "variation";
  do g <- py_fmt_d g;
  do v <- py_fmt_d v;
  py_print Stderr (Invalid_key key g v);;
  py_exit 1.

(** [field.keys()]: only a mapping has the method *)
Definition as_dict (v : yaml) : py dict :=
  match v with YMap d => py_ret d | _ => py_raise AttributeError end.

(** The body of [for field in obj["fields"]].  The loop state is [obj]. *)
Definition preprocess_field (field : yaml) (obj : dict) : py (flow * dict) :=
  do fd <- as_dict field;
  py_for (map fst fd) tt (fun key _ =>
    if negb (str_in key valid_field_keys) then invalid_key key obj
    else py_ret (Continue, tt));;
  if dict_has "len_from_prefix" fd
     && match dict_get "len_from_prefix" fd with Some v => truthy v | None => false end
  then
    (* obj["_track_offset"] = True; break *)
    py_ret (Break, dict_set "_track_offset" (YBool true) obj)
  else
    do ty <- py_item fd "type";
    if eq_str (Some ty) "bstr8" then
      do subs <- py_item fd "fields";
      do subs <- py_iter subs;
      do width <- py_for subs 0 (fun subfield width =>
                    do w <- py_subscript subfield "width";
                    do w <- py_int w;
                    py_ret (Continue, width + w));
      if width =? 8 then py_ret (Continue, obj) else py_raise AssertionError
    else py_ret (Continue, obj).

Definition preprocess_object (obj : dict) : py (option dict) :=
  if dict_has "unimplemented" obj then
    do g <- py_item obj "group";
    do v <- py_item obj "variation";
    do why <- py_item obj "unimplemented";
    py_print Stdout (Object_not_implemented g v why);;
    py_ret None
  else
    py_for (map fst obj) tt (fun key _ =>
      if negb (str_in key valid_keys) then invalid_key key obj
      else py_ret (Continue, tt));;
    do fields <- py_item obj "fields";
    do fields <- py_iter fields;
    do obj' <- py_for fields obj preprocess_field;
    py_ret (Some obj').

(** ** Jinja2 expressions over the schema *)

(** What becomes of [{% set x = ... %}] in the body of a [{% for %}] loop
    when the next iteration begins.  Jinja2 up to 2.8 keeps the assigned
    value; in later releases (2.10 for one) the assignment is local to the
    iteration, and the next iteration sees the value the variable had before
    the loop.  The script imports jinja2 without naming a release. *)
Inductive loop_assignment : Type :=
| Kept_for_next_iteration      (* Jinja2 up to 2.8 *)
| Local_to_iteration.          (* later releases *)

Class jinja2 : Type := Jinja2 { set_in_loop : loop_assignment }.

(** The value of a template expression; [None] is Jinja2's Undefined. *)
Definition jval := option yaml.

(** [x.k] and [x["k"]]: the item of a mapping, Undefined otherwise (none of
    the keys the templates use is a method of a Python value). *)
Definition jattr (x : yaml) (k : string) : jval :=
  match x with YMap d => dict_get k d | _ => None end.

(** [u.k] where [u] may itself be Undefined, which raises *)
Definition jattr_of (u : jval) (k : string) : py jval :=
  match u with Some x => py_ret (jattr x k) | None => py_raise UndefinedError end.

(** [u[0]] *)
Definition jindex0 (u : jval) : py jval :=
  match u with
  | None => py_raise UndefinedError
  | Some (YSeq (x :: _)) => py_ret (Some x)
  | Some (YStr (String c _)) => py_ret (Some (YStr (String c EmptyString)))
  | Some _ => py_ret None
  end.

Definition jtruthy (u : jval) : bool :=
  match u with Some x => truthy x | None => false end.

(** [{% for x in u %}]: Undefined iterates as empty *)
Definition jiter (u : jval) : py (list yaml) :=
  match u with Some x => py_iter x | None => py_ret [] end.

(** [{{ u }}]: the text Python's [str] gives.  Containers are written in
    bracket syntax, their strings quoted without escapes. *)
Fixpoint py_repr (v : yaml) : string :=
  match v with
  | YNull => "None"
  | YBool b => if b then "True" else "False"
  | YInt n => pretty n
  | YStr s => "'" +:+ s +:+ "'"
  | YSeq l =>
      "[" +:+ (fix items (l : list yaml) : string :=
                 match l with
                 | [] => ""
                 | [x] => py_repr x
                 | x :: l' => py_repr x +:+ ", " +:+ items l'
                 end) l +:+ "]"
  | YMap d =>
      "{" +:+ (fix items (d : list (string * yaml)) : string :=
                 match d with
                 | [] => ""
                 | [(k, x)] => "'" +:+ k +:+ "': " +:+ py_repr x
                 | (k, x) :: d' => "'" +:+ k +:+ "': " +:+ py_repr x +:+ ", " +:+ items d'
                 end) d +:+ "}"
  end.

Definition render (u : jval) : string :=
  match u with
  | None => ""
  | Some (YStr s) => s
  | Some x => py_repr x
  end.

(** the argument of [%d] inside a template *)
Definition jfmt_d (u : jval) : py Z :=
  match u with Some x => py_fmt_d x | None => py_raise UndefinedError end.

(** The integer a rendered value denotes where the C text needs an integer
    literal; only an int renders as one. *)
Definition c_literal (u : jval) : option Z :=
  match u with Some (YInt n) => Some n | _ => None end.

(** ** Rendered C: struct declarations (gen_object_structs) *)

Inductive ctype : Type :=
| int16_t | int32_t | uint8_t | uint16_t | uint32_t | uint64_t
| c_float | c_double
| uint8_ptr                      (* uint8_t *name;           *)
| char_array (size : jval)       (* char name[size];         *)
| uint8_bits (width : jval).     (* uint8_t name:width;      *)

Record member : Type := Member { m_type : ctype; m_name : string }.

(** [typedef struct DNP3ObjectG<g>V<v>_ { ... } DNP3ObjectG<g>V<v>;] *)
Record struct_decl : Type :=
  Struct { s_name : string; s_members : list member }.

Definition object_suffix (object : yaml) : string :=
  "G" +:+ render (jattr object "group") +:+ "V" +:+ render (jattr object "variation").

Definition struct_name (object : yaml) : string := "DNP3Object" +:+ object_suffix object.

(** Collect what a loop body renders for each element. *)
Fixpoint render_each {A B} (l : list A) (body : A -> py (list B)) : py (list B) :=
  match l with
  | [] => py_ret []
  | x :: l' =>
      do here <- body x;
      do rest <- render_each l' body;
      py_ret (here ++ rest)
  end.

Definition struct_field (object field : yaml) : py (list member) :=
  let ty := jattr field "type" in
  let name := render (jattr field "name") in
  if eq_str ty "bstr8" then
    do subs <- jiter (jattr field "fields");
    render_each subs (fun field =>
      py_ret [Member (uint8_bits (jattr field "width")) (render (jattr field "name"))])
  else if eq_str ty "int16" then py_ret [Member int16_t name]
  else if eq_str ty "int32" then py_ret [Member int32_t name]
  else if eq_str ty "uint8" then py_ret [Member uint8_t name]
  else if eq_str ty "uint16" then py_ret [Member uint16_t name]
  else if eq_str ty "uint24" then py_ret [Member uint32_t name]
  else if eq_str ty "uint32" then py_ret [Member uint32_t name]
  else if eq_str ty "uint64" then py_ret [Member uint64_t name]
  else if eq_str ty "flt32" then py_ret [Member c_float name]
  else if eq_str ty "flt64" then py_ret [Member c_double name]
  else if eq_str ty "dnp3time" then py_ret [Member uint64_t name]
  else if eq_str ty "bytearray" then py_ret [Member uint8_ptr name]
  else if eq_str ty "vstr4" then py_ret [Member (char_array (Some (YInt 5))) name]
  else if eq_str ty "chararray" then py_ret [Member (char_array (jattr field "size")) name]
  else
    do g <- jfmt_d (jattr object "group");
    do v <- jfmt_d (jattr object "variation");
    py_raise (Unknown_datatype_for_object ty (jattr object "group") (jattr object "variation")).

Definition struct_extra_field (field : yaml) : py (list member) :=
  let ty := jattr field "type" in
  let name := render (jattr field "name") in
  if eq_str ty "uint8" then py_ret [Member uint8_t name]
  else if eq_str ty "uint16" then py_ret [Member uint16_t name]
  else if eq_str ty "uint32" then py_ret [Member uint32_t name]
  else py_raise (Unknown_datatype ty).

Definition struct_object (object : yaml) : py (list struct_decl) :=
  do fields <- jiter (jattr object "fields");
  do members <- render_each fields (struct_field object);
  do extra <-
    (if jtruthy (jattr object "extra_fields") then
       do fields <- jiter (jattr object "extra_fields");
       render_each fields struct_extra_field
     else py_ret []);
  py_ret [Struct (struct_name object) (members ++ extra)].

(** the template of gen_object_structs *)
Definition structs_template (objects : list yaml) : py (list struct_decl) :=
  render_each objects struct_object.

(** ** Rendered C: decoders, release routine and dispatch (gen_object_decoders) *)

(** The fixed-width branches of the field switch: which reader is called and
    through which pointer type the member is written. *)
Inductive scalar : Type :=
| S_int16     (* DNP3ReadUint16(buf, len, (uint16_t * )&object->f) *)
| S_int32     (* DNP3ReadUint32(buf, len, (uint32_t * )&object->f) *)
| S_uint8     (* DNP3ReadUint8 *)
| S_uint16    (* DNP3ReadUint16 *)
| S_uint24    (* DNP3ReadUint24 *)
| S_uint32    (* DNP3ReadUint32 *)
| S_uint64    (* DNP3ReadUint64 *)
| S_flt32     (* DNP3ReadUint32(buf, len, (uint32_t * )&object->f) *)
| S_flt64     (* DNP3ReadUint64(buf, len, (uint64_t * )&object->f) *)
| S_dnp3time. (* DNP3ReadUint48 *)

(** One subfield line of a bstr8 block:
    [object->name = (octet >> shift) & mask;] *)
Record extract : Type := Extract { x_name : string; x_shift : Z; x_mask : Z }.

(** What one field renders in the record decoder. *)
Inductive stmt : Type :=
| Read (s : scalar) (dst : string)
| Read_vstr4 (dst : string)
| Len_from_prefix (len_field : string)   (* object->len_field = prefix - (offset - *len); *)
| Read_bytearray (dst len_field : string)
| Read_chararray (dst len_field : string)
| Read_bstr8 (subfields : list extract).

Inductive constraint : Type :=
| Require_size_prefix                    (* if (!DNP3PrefixIsSize(prefix_code)) goto error; *)
| Require_prefix_code (val : jval).      (* if (prefix_code != val) goto error; *)

Record packed_decoder : Type := Packed_decoder {
  pd_step : jval;          (* j = j + <width> *)
  pd_name : string;        (* object-><name> = ... *)
  pd_mask : option Z       (* & 0x1, & 0x3, or the #error line *)
}.

Record record_decoder : Type := Record_decoder {
  rd_track_offset : bool;  (* uint32_t offset; ... offset = *len; *)
  rd_constraints : list constraint;
  rd_body : list stmt
}.

Inductive decoder_body : Type :=
| Packed (d : packed_decoder)
| Records (d : record_decoder).

(** [static int DNP3DecodeObjectG<g>V<v>(...)], working on a
    [DNP3ObjectG<g>V<v> *object] *)
Record decoder_fn : Type := Decoder_fn {
  fn_name : string;
  fn_struct : string;
  fn_body : decoder_body
}.

(** a case of DNP3FreeObjectPoint *)
Record free_case : Type := Free_case {
  fc_group : jval; fc_variation : jval;
  fc_members : list string        (* if (object->m != NULL) SCFree(object->m); *)
}.

(** a case of DNP3DecodeObject *)
Record decode_case : Type := Decode_case {
  dc_group : jval; dc_variation : jval;
  dc_callee : string              (* rc = DNP3DecodeObjectG<g>V<v>(...); break; *)
}.

Record decoders_c : Type := Decoders_c {
  decoders : list decoder_fn;
  free_cases : list free_case;
  decode_cases : list decode_case
}.

Definition decoder_name (object : yaml) : string :=
  "DNP3DecodeObject" +:+ object_suffix object.

(** the bstr8 block: [{% set shift = 0 %}], then per subfield the line for
    its width and [{% set shift = shift + field.width %}].  Whether the next
    iteration sees the sum or again the value from before the loop is up to
    the release of Jinja2. *)
Fixpoint bstr8_subfields {J : jinja2} (shift : Z) (subs : list yaml)
    : py (list extract) :=
  match subs with
  | [] => py_ret []
  | field :: subs' =>
      let width := jattr field "width" in
      let name := render (jattr field "name") in
      do line <-
        (if eq_int width 1 then py_ret (Extract name shift 0x1)
         else if eq_int width 2 then py_ret (Extract name shift 0x3)
         else if eq_int width 4 then py_ret (Extract name shift 0xf)
         else if eq_int width 7 then py_ret (Extract name shift 0x7f)
         else (jfmt_d width;; py_raise (Unhandled_width width)));
      do shift' <-
        match width with
        | Some w => match py_num w with
                    | Some n => py_ret (shift + n)
                    | None => py_raise TypeError
                    end
        | None => py_raise UndefinedError
        end;
      do rest <- bstr8_subfields
                   (match set_in_loop with
                    | Kept_for_next_iteration => shift'
                    | Local_to_iteration => shift
                    end) subs';
      py_ret (line :: rest)
  end.

Definition decoder_field {J : jinja2} (object field : yaml) : py (list stmt) :=
  let ty := jattr field "type" in
  let name := render (jattr field "name") in
  let len_field := render (jattr field "len_field") in
  let len_from_prefix :=
    if jtruthy (jattr field "len_from_prefix") then [Len_from_prefix len_field] else [] in
  if eq_str ty "int16" then py_ret [Read S_int16 name]
  else if eq_str ty "int32" then py_ret [Read S_int32 name]
  else if eq_str ty "uint8" then py_ret [Read S_uint8 name]
  else if eq_str ty "uint16" then py_ret [Read S_uint16 name]
  else if eq_str ty "uint24" then py_ret [Read S_uint24 name]
  else if eq_str ty "uint32" then py_ret [Read S_uint32 name]
  else if eq_str ty "uint64" then py_ret [Read S_uint64 name]
  else if eq_str ty "flt32" then py_ret [Read S_flt32 name]
  else if eq_str ty "flt64" then py_ret [Read S_flt64 name]
  else if eq_str ty "dnp3time" then py_ret [Read S_dnp3time name]
  else if eq_str ty "vstr4" then py_ret [Read_vstr4 name]
  else if eq_str ty "bytearray" then
    py_ret (len_from_prefix ++ [Read_bytearray name len_field])
  else if eq_str ty "chararray" then
    py_ret (len_from_prefix ++ [Read_chararray name len_field])
  else if eq_str ty "bstr8" then
    do subs <- jiter (jattr field "fields");
    do lines <- bstr8_subfields 0 subs;
    py_ret [Read_bstr8 lines]
  else
    jfmt_d (jattr object "group");;
    jfmt_d (jattr object "variation");;
    py_raise (Unhandled_datatype_for_object ty (jattr object "group") (jattr object "variation")).

(** [{% for (key, val) in object.constraints.items() %}] *)
Definition decoder_constraints (object : yaml) : py (list constraint) :=
  if jtruthy (jattr object "constraints") then
    match jattr object "constraints" with
    | Some (YMap d) =>
        render_each d (fun kv =>
          if String.eqb (fst kv) "require_size_prefix" then py_ret [Require_size_prefix]
          else if String.eqb (fst kv) "require_prefix_code" then
            py_ret [Require_prefix_code (Some (snd kv))]
          else py_raise (Unhandled_constraint (fst kv)))
    | _ => py_raise UndefinedError
    end
  else py_ret [].

Definition decoder_object {J : jinja2} (object : yaml) : py (list decoder_fn) :=
  if jtruthy (jattr object "packed") then
    do first <- jindex0 (jattr object "fields");
    do width <- jattr_of first "width";
    do name <- jattr_of first "name";
    let mask := if eq_int width 1 then Some 0x1
                else if eq_int width 2 then Some 0x3
                else None in
    py_ret [Decoder_fn (decoder_name object) (struct_name object)
              (Packed (Packed_decoder width (render name) mask))]
  else
    do constraints <- decoder_constraints object;
    do fields <- jiter (jattr object "fields");
    do body <- render_each fields (decoder_field object);
    py_ret [Decoder_fn (decoder_name object) (struct_name object)
              (Records (Record_decoder (jtruthy (jattr object "_track_offset"))
                          constraints body))].

(** [{% if f_has_freeable_types(object.fields) %}]; the function iterates an
    Undefined argument as empty. *)
Definition free_object (object : yaml) : py (list free_case) :=
  do fields <- jiter (jattr object "fields");
  do freeable <- has_freeable_types fields;
  if freeable then
    do members <- render_each fields (fun field =>
      if eq_str (jattr field "type") "bytearray"
      then py_ret [render (jattr field "name")] else py_ret []);
    py_ret [Free_case (jattr object "group") (jattr object "variation") members]
  else py_ret [].

Definition dispatch_object (object : yaml) : py (list decode_case) :=
  py_ret [Decode_case (jattr object "group") (jattr object "variation")
            (decoder_name object)].

(** the template of gen_object_decoders *)
Definition decoders_template {J : jinja2} (objects : list yaml) : py decoders_c :=
  do fns <- render_each objects decoder_object;
  do frees <- render_each objects free_object;
  do cases <- render_each objects dispatch_object;
  py_ret (Decoders_c fns frees cases).

(** ** Meaning of the rendered decoders *)

(** The value a member of a decoded object holds. *)
Inductive cval : Type :=
| VInt (z : Z)                            (* integer members and bit-fields *)
| VFloat (bits : Z)                       (* float, as its 32-bit pattern *)
| VDouble (bits : Z)                      (* double, as its 64-bit pattern *)
| VChars (cs : list byte)                 (* char name[N]: all N bytes *)
| VBytes (addr : nat) (data : list byte). (* uint8_t *name: an owned block and its bytes *)

(** An object is allocated with SCCalloc: a member that was never written is
    zero, which the map represents by absence. *)
Abbreviation object_store := (gmap string cval).

Record point : Type := Point {
  pt_addr : nat;                 (* the block holding the object *)
  pt_data : object_store;
  pt_index : Z;
  pt_prefix_code : Z;
  pt_prefix : Z
}.

(** The allocator: the blocks that are live, the next address, and how many
    more requests succeed before SCCalloc returns NULL. *)
Record heap : Type := Heap { live : gset nat; next : nat; avail : nat }.

Definition SCCalloc (h : heap) : option (nat * heap) :=
  match avail h with
  | O => None
  | S a => Some (next h, Heap ({[next h]} ∪ live h) (S (next h)) a)
  end.

Definition SCFree (p : nat) (h : heap) : heap :=
  Heap (live h ∖ {[p]}) (next h) (avail h).

(** What a decoder works on: [*buf] with its [*len] remaining bytes, the
    heap and the caller's point list. *)
Record machine : Type := Machine {
  buf : list byte;
  mem : heap;
  points : list point
}.

Inductive ub : Type :=
| Read_past_buffer       (* memcpy from *buf of more than *len bytes *)
| Write_past_member.     (* a write beyond the end of a char array member *)

Inductive outcome (A : Type) : Type :=
| Done (a : A)
| Ill_formed                       (* the rendered text is not C that compiles *)
| Undefined_behaviour (why : ub).
Arguments Done {A} a.
Arguments Ill_formed {A}.
Arguments Undefined_behaviour {A} why.

Definition to_unsigned (bits z : Z) : Z := z mod 2 ^ bits.
Definition to_signed (bits z : Z) : Z :=
  (z + 2 ^ (bits - 1)) mod 2 ^ bits - 2 ^ (bits - 1).
Definition wrap32 (z : Z) : Z := to_unsigned 32 z.

(** [object->m = v;] for a member of type [t]: the value the member holds
    afterwards, if [t] is an integer type. *)
Definition assign_int (t : ctype) (v : Z) : option Z :=
  match t with
  | int16_t => Some (to_signed 16 v)
  | int32_t => Some (to_signed 32 v)
  | uint8_t => Some (to_unsigned 8 v)
  | uint16_t => Some (to_unsigned 16 v)
  | uint32_t => Some (to_unsigned 32 v)
  | uint64_t => Some (to_unsigned 64 v)
  | uint8_bits w =>
      match c_literal w with
      | Some w => if (0 <? w) && (w <=? 8) then Some (to_unsigned w v) else None
      | None => None
      end
  | _ => None
  end.

Definition member_type (layout : list member) (name : string) : option ctype :=
  m_type <$> find (fun m => String.eqb (m_name m) name) layout.

Definition is_int_member (layout : list member) (name : string) : bool :=
  match member_type layout name with
  | Some t => match assign_int t 0 with Some _ => true | None => false end
  | None => false
  end.

(** the N of [char name[N]] *)
Definition char_capacity (layout : list member) (name : string) : option Z :=
  match member_type layout name with
  | Some (char_array size) => c_literal size
  | _ => None
  end.

Definition load_int (obj : object_store) (name : string) : Z :=
  match obj !! name with Some (VInt z) => z | _ => 0 end.

Definition octet_value (b : byte) : Z := Z.of_N (Byte.to_N b).

(** Modelled from the spec: DNP3ReadUint8, the fixed-width read of one byte
    ("read the exact byte width from the cursor; fail immediately (no further
    reads) if insufficient bytes remain"). *)
Definition DNP3ReadUint8 (b : list byte) : option (Z * list byte) :=
  match b with
  | [] => None
  | o :: b' => Some (octet_value o, b')
  end.

(** Modelled from the spec: DNP3AddPoint ("append it to the output point list
    together with its index, prefix code, and decoded prefix value"). *)
Definition DNP3AddPoint (pts : list point) (addr : nat) (data : object_store)
    (index prefix_code prefix : Z) : option (list point) :=
  Some (pts ++ [Point addr data index prefix_code prefix]).

Definition scalar_width (s : scalar) : nat :=
  match s with
  | S_uint8 => 1
  | S_int16 | S_uint16 => 2
  | S_uint24 => 3
  | S_int32 | S_uint32 | S_flt32 => 4
  | S_dnp3time => 6
  | S_uint64 | S_flt64 => 8
  end%nat.

Section Decoders.

(** The hand-written C the rendered code calls. *)
Variable DNP3ReadPrefix : Z -> list byte -> option (Z * list byte).
  (* prefix code, cursor: the prefix and the cursor behind it, or failure *)
Variable DNP3PrefixIsSize : Z -> bool.
Variable uint_of_bytes : list byte -> Z.
  (* the unsigned integer a run of two or more wire bytes stands for *)

(** Modelled from the spec: DNP3ReadUint16, 24, 32, 48 and 64, the wider
    fixed-width reads (same sentence as DNP3ReadUint8). *)
Definition DNP3ReadUint (n : nat) (b : list byte) : option (Z * list byte) :=
  if (length b <? n)%nat then None
  else Some (to_unsigned (8 * Z.of_nat n) (uint_of_bytes (take n b)), drop n b).

Definition read_scalar (s : scalar) (b : list byte) : option (cval * list byte) :=
  match s with
  | S_uint8 => prod_map VInt id <$> DNP3ReadUint8 b
  | S_int16 => prod_map (fun n => VInt (to_signed 16 n)) id <$> DNP3ReadUint 2 b
  | S_int32 => prod_map (fun n => VInt (to_signed 32 n)) id <$> DNP3ReadUint 4 b
  | S_flt32 => prod_map VFloat id <$> DNP3ReadUint 4 b
  | S_flt64 => prod_map VDouble id <$> DNP3ReadUint 8 b
  | _ => prod_map VInt id <$> DNP3ReadUint (scalar_width s) b
  end.

(** The locals of one record: the cursor, the heap and the object under
    construction. *)
Record frame : Type := Frame {
  f_buf : list byte;
  f_mem : heap;
  f_object : object_store
}.

Inductive step : Type :=
| Next (f : frame)
| Goto_error (f : frame).

(** [object->name = v;] *)
Definition assign_member (layout : list member) (name : string) (v : Z)
    (obj : object_store) : option object_store :=
  t ← member_type layout name;
  z ← assign_int t v;
  Some (<[name := VInt z]> obj).

Fixpoint exec_extracts (layout : list member) (octet : Z) (xs : list extract)
    (obj : object_store) : option object_store :=
  match xs with
  | [] => Some obj
  | x :: xs' =>
      obj' ← assign_member layout (x_name x)
                (Z.land (Z.shiftr octet (x_shift x)) (x_mask x)) obj;
      exec_extracts layout octet xs' obj'
  end.

(** [memcpy(dst, *buf, n); *buf += n; *len -= n;]: the bytes copied and the
    cursor behind them.  The copy itself checks nothing: taking more than the
    [*len] bytes the buffer holds reads past it. *)
Definition memcpy_from_buf (b : list byte) (n : Z) : outcome (list byte * list byte) :=
  if Z.of_nat (length b) <? n then Undefined_behaviour Read_past_buffer
  else Done (take (Z.to_nat n) b, drop (Z.to_nat n) b).

Definition and_next {A B} (r : outcome A) (k : A -> outcome B) : outcome B :=
  match r with
  | Done a => k a
  | Ill_formed => Ill_formed
  | Undefined_behaviour w => Undefined_behaviour w
  end.

(** One rendered field, run with the record's [prefix] and, when the
    function declares it, its [offset]. *)
Definition exec_stmt (layout : list member) (prefix : Z) (offset : option Z)
    (s : stmt) (f : frame) : outcome step :=
  let len := Z.of_nat (length (f_buf f)) in
  match s with
  | Read sc dst =>
      match read_scalar sc (f_buf f) with
      | None => Done (Goto_error f)
      | Some (v, b') => Done (Next (Frame b' (f_mem f) (<[dst := v]> (f_object f))))
      end
  | Read_vstr4 dst =>
      if len <? 4 then Done (Goto_error f)
      else
        and_next (memcpy_from_buf (f_buf f) 4) (fun '(bytes, b') =>
        Done (Next (Frame b' (f_mem f) (<[dst := VChars (bytes ++ [x00])]> (f_object f)))))
  | Len_from_prefix len_field =>
      match offset with
      | None => Ill_formed
      | Some offset =>
          match assign_member layout len_field
                  (wrap32 (prefix - wrap32 (offset - len))) (f_object f) with
          | None => Ill_formed
          | Some obj' => Done (Next (Frame (f_buf f) (f_mem f) obj'))
          end
      end
  | Read_bytearray dst len_field =>
      if negb (is_int_member layout len_field) then Ill_formed
      else
        let n := load_int (f_object f) len_field in
        if 0 <? n then
          if len <? n then Done (Goto_error f)      (* Not enough data. *)
          else
            match SCCalloc (f_mem f) with
            | None => Done (Goto_error f)
            | Some (p, h') =>
                and_next (memcpy_from_buf (f_buf f) n) (fun '(bytes, b') =>
                Done (Next (Frame b' h' (<[dst := VBytes p bytes]> (f_object f)))))
            end
        else Done (Next f)
  | Read_chararray dst len_field =>
      if negb (is_int_member layout len_field) then Ill_formed
      else
        match char_capacity layout dst with
        | None => Ill_formed
        | Some cap =>
            let n := load_int (f_object f) len_field in
            if 0 <? n then
              (* memcpy(object->dst, *buf, n), with no check before it *)
              and_next (memcpy_from_buf (f_buf f) n) (fun '(bytes, b') =>
              if cap <? n then Undefined_behaviour Write_past_member
              (* object->dst[n] = 0 *)
              else if cap <=? n then Undefined_behaviour Write_past_member
              else
                Done (Next (Frame b' (f_mem f)
                              (<[dst := VChars (bytes ++ replicate (Z.to_nat (cap - n)) x00)]>
                                 (f_object f)))))
            else
              (* object->dst[n] = 0 *)
              if (n <? 0) || (cap <=? n) then Undefined_behaviour Write_past_member
              else Done (Next (Frame (f_buf f) (f_mem f)
                                 (<[dst := VChars (replicate (Z.to_nat cap) x00)]>
                                    (f_object f))))
        end
  | Read_bstr8 xs =>
      match DNP3ReadUint8 (f_buf f) with
      | None => Done (Goto_error f)
      | Some (octet, b') =>
          match exec_extracts layout octet xs (f_object f) with
          | None => Ill_formed
          | Some obj' => Done (Next (Frame b' (f_mem f) obj'))
          end
      end
  end.

Fixpoint exec_stmts (layout : list member) (prefix : Z) (offset : option Z)
    (body : list stmt) (f : frame) : outcome step :=
  match body with
  | [] => Done (Next f)
  | s :: body' =>
      match exec_stmt layout prefix offset s f with
      | Done (Next f') => exec_stmts layout prefix offset body' f'
      | r => r
      end
  end.

(** the constraint checks at the head of a record decoder; [false] is
    [goto error] *)
Fixpoint check_constraints (prefix_code : Z) (cs : list constraint) : outcome bool :=
  match cs with
  | [] => Done true
  | Require_size_prefix :: cs' =>
      if DNP3PrefixIsSize prefix_code then check_constraints prefix_code cs'
      else Done false
  | Require_prefix_code val :: cs' =>
      match c_literal val with
      | None => Ill_formed
      | Some v =>
          if prefix_code =? v then check_constraints prefix_code cs' else Done false
      end
  end.

(** [while (count--) { ... }] of the record strategy; the result is the
    returned int and the machine the caller is left with.  At [error:] only
    the object block is released. *)
Fixpoint record_loop (layout : list member) (d : record_decoder) (prefix_code : Z)
    (count : nat) (index : Z) (m : machine) : outcome (Z * machine) :=
  match count with
  | O => Done (1, m)
  | S count' =>
      match SCCalloc (mem m) with
      | None => Done (0, m)
      | Some (object, h) =>
          match DNP3ReadPrefix prefix_code (buf m) with
          | None => Done (0, Machine (buf m) (SCFree object h) (points m))
          | Some (prefix, b) =>
              let prefix := wrap32 prefix in
              let offset :=
                if rd_track_offset d then Some (Z.of_nat (length b)) else None in
              match exec_stmts layout prefix offset (rd_body d) (Frame b h ∅) with
              | Done (Next f) =>
                  match DNP3AddPoint (points m) object (f_object f)
                          index prefix_code prefix with
                  | None =>
                      Done (0, Machine (f_buf f) (SCFree object (f_mem f)) (points m))
                  | Some pts =>
                      record_loop layout d prefix_code count' (wrap32 (index + 1))
                        (Machine (f_buf f) (f_mem f) pts)
                  end
              | Done (Goto_error f) =>
                  Done (0, Machine (f_buf f) (SCFree object (f_mem f)) (points m))
              | Ill_formed => Ill_formed
              | Undefined_behaviour w => Undefined_behaviour w
              end
          end
      end
  end.

Definition run_records (layout : list member) (d : record_decoder)
    (prefix_code start count : Z) (m : machine) : outcome (Z * machine) :=
  match check_constraints prefix_code (rd_constraints d) with
  | Done true => record_loop layout d prefix_code (Z.to_nat count) (wrap32 start) m
  | Done false => Done (0, m)
  | Ill_formed => Ill_formed
  | Undefined_behaviour w => Undefined_behaviour w
  end.

(** The state of the packed strategy between two points. *)
Inductive packed_step : Type :=
| Carry_on (count index : Z) (m : machine)
| Packed_error (m : machine).

(** [for (int j = 0; j < 8 && count; j = j + width) { ... }]; the loop runs
    at most eight times for a positive width.  [index] is the [int index] of
    the function as DNP3AddPoint receives it in its uint32_t parameter, so
    [index++] counts modulo 2^32. *)
Fixpoint packed_octet (layout : list member) (width mask : Z) (name : string)
    (octet prefix_code prefix : Z) (fuel : nat) (j count index : Z) (m : machine)
    : outcome packed_step :=
  match fuel with
  | O => Done (Carry_on count index m)
  | S fuel' =>
      if (j <? 8) && negb (count =? 0) then
        match SCCalloc (mem m) with
        | None => Done (Packed_error m)
        | Some (object, h) =>
            match assign_member layout name (Z.land (Z.shiftr octet j) mask) ∅ with
            | None => Ill_formed
            | Some data =>
                match DNP3AddPoint (points m) object data index prefix_code prefix with
                | None => Done (Packed_error (Machine (buf m) (SCFree object h) (points m)))
                | Some pts =>
                    packed_octet layout width mask name octet prefix_code prefix fuel'
                      (j + width) (count - 1) (wrap32 (index + 1)) (Machine (buf m) h pts)
                end
            end
        end
      else Done (Carry_on count index m)
  end.

(** [for (int i = 0; i < bytes; i++) { ... }] *)
Fixpoint packed_loop (layout : list member) (width mask : Z) (name : string)
    (prefix_code prefix : Z) (bytes : nat) (count index : Z) (m : machine)
    : outcome (Z * machine) :=
  match bytes with
  | O => Done (1, m)
  | S bytes' =>
      match DNP3ReadUint8 (buf m) with
      | None => Done (0, m)
      | Some (octet, b) =>
          match packed_octet layout width mask name octet prefix_code prefix 8 0
                  count index (Machine b (mem m) (points m)) with
          | Done (Carry_on count' index' m') =>
              packed_loop layout width mask name prefix_code prefix bytes' count' index' m'
          | Done (Packed_error m') => Done (0, m')
          | Ill_formed => Ill_formed
          | Undefined_behaviour w => Undefined_behaviour w
          end
      end
  end.

Definition run_packed (layout : list member) (d : packed_decoder)
    (prefix_code start count : Z) (m : machine) : outcome (Z * machine) :=
  match c_literal (pd_step d), pd_mask d with
  | Some width, Some mask =>
      if width <=? 0 then Ill_formed   (* the template renders a mask for 1 and 2 only *)
      else
        let bytes := count / 8 + 1 in
        match DNP3ReadPrefix prefix_code (buf m) with
        | None => Done (0, m)
        | Some (prefix, b) =>
            packed_loop layout width mask (pd_name d) prefix_code (wrap32 prefix)
              (Z.to_nat bytes) count (wrap32 start) (Machine b (mem m) (points m))
        end
  | _, _ => Ill_formed
  end.

Definition run_decoder (structs : list struct_decl) (fn : decoder_fn)
    (prefix_code start count : Z) (m : machine) : outcome (Z * machine) :=
  match find (fun s => String.eqb (s_name s) (fn_struct fn)) structs with
  | None => Ill_formed
  | Some s =>
      match fn_body fn with
      | Packed d => run_packed (s_members s) d prefix_code start count m
      | Records d => run_records (s_members s) d prefix_code start count m
      end
  end.

(** *** The two switches *)

Variable DNP3_OBJECT_CODE : Z -> Z -> Z.

(** What DNP3DecodeObject returns: 0, or one of two decoder events. *)
Inductive decode_result : Type :=
| Decoded
| DNP3_DECODER_EVENT_UNKNOWN_OBJECT
| DNP3_DECODER_EVENT_MALFORMED.

Definition case_label (g v : jval) : option Z :=
  g ← c_literal g; v ← c_literal v; Some (DNP3_OBJECT_CODE g v).

(** The labels of a switch; they must be integer constants, all different. *)
Definition switch_labels {A} (label : A -> option Z) (cases : list A) : option (list Z) :=
  labels ← mapM label cases;
  if bool_decide (NoDup labels) then Some labels else None.

Definition select {A} (label : A -> option Z) (cases : list A) (code : Z) : option A :=
  find (fun c => match label c with Some l => l =? code | None => false end) cases.

Definition DNP3DecodeObject (structs : list struct_decl) (c : decoders_c)
    (group variation : Z) (prefix_code start count : Z) (m : machine)
    : outcome (decode_result * machine) :=
  let label dc := case_label (dc_group dc) (dc_variation dc) in
  match switch_labels label (decode_cases c) with
  | None => Ill_formed
  | Some _ =>
      match select label (decode_cases c) (DNP3_OBJECT_CODE group variation) with
      | None => Done (DNP3_DECODER_EVENT_UNKNOWN_OBJECT, m)
      | Some dc =>
          match find (fun fn => String.eqb (fn_name fn) (dc_callee dc)) (decoders c) with
          | None => Ill_formed
          | Some fn =>
              match run_decoder structs fn prefix_code start count m with
              | Done (rc, m') =>
                  Done (if rc =? 0 then DNP3_DECODER_EVENT_MALFORMED else Decoded, m')
              | Ill_formed => Ill_formed
              | Undefined_behaviour w => Undefined_behaviour w
              end
          end
      end
  end.

(** [if (object->m != NULL) SCFree(object->m);] *)
Definition free_member (data : object_store) (name : string) (h : heap) : heap :=
  match data !! name with
  | Some (VBytes addr _) => SCFree addr h
  | _ => h
  end.

Definition DNP3FreeObjectPoint (c : decoders_c) (group variation : Z)
    (pt : point) (h : heap) : outcome heap :=
  let label fc := case_label (fc_group fc) (fc_variation fc) in
  match switch_labels label (free_cases c) with
  | None => Ill_formed
  | Some _ =>
      let h' :=
        match select label (free_cases c) (DNP3_OBJECT_CODE group variation) with
        | None => h
        | Some fc => foldl (fun h name => free_member (pt_data pt) name h) h (fc_members fc)
        end in
      Done (SCFree (pt_addr pt) h')
  end.

End Decoders.

(** ** Rendered C: the Lua binding (util_lua_dnp3_objects_c_template) *)

(** The call that pushes the value of an entry. *)
Inductive lua_push : Type :=
| lua_pushinteger (m : string)             (* lua_pushinteger(L, data->m) *)
| lua_pushnumber (m : string)              (* lua_pushnumber(L, data->m) *)
| LuaPushStringBuffer_strlen (m : string)  (* LuaPushStringBuffer(L, (uint8_t * )data->m, strlen(data->m)) *)
| lua_pushlstring (m len : string).        (* lua_pushlstring(L, (const char * )data->m, data->len) *)

(** [lua_pushliteral(L, key); <push>; lua_settable(L, -3);] *)
Record lua_entry : Type := Lua_entry { lua_key : string; lua_val : lua_push }.

Record lua_case : Type := Lua_case {
  lc_group : jval; lc_variation : jval; lc_entries : list lua_entry
}.

Definition flt_types : list string := ["flt32"; "flt64"].

Definition in_strs (u : jval) (l : list string) : bool :=
  match u with Some (YStr t) => str_in t l | _ => false end.

Definition lua_field (field : yaml) : py (list lua_entry) :=
  let ty := jattr field "type" in
  let name := render (jattr field "name") in
  if is_integer_type ty then py_ret [Lua_entry name (lua_pushinteger name)]
  else if in_strs ty flt_types then py_ret [Lua_entry name (lua_pushnumber name)]
  else if eq_str ty "chararray" then py_ret [Lua_entry name (LuaPushStringBuffer_strlen name)]
  else if eq_str ty "vstr4" then py_ret [Lua_entry name (LuaPushStringBuffer_strlen name)]
  else if eq_str ty "bytearray" then
    py_ret [Lua_entry name (lua_pushlstring name (render (jattr field "len_field")))]
  else if eq_str ty "bstr8" then
    do subs <- jiter (jattr field "fields");
    render_each subs (fun field =>
      let name := render (jattr field "name") in
      py_ret [Lua_entry name (lua_pushinteger name)])
  else py_raise (Unhandled_datatype ty).

Definition lua_object (object : yaml) : py (list lua_case) :=
  do fields <- jiter (jattr object "fields");
  do entries <- render_each fields lua_field;
  py_ret [Lua_case (jattr object "group") (jattr object "variation") entries].

Definition lua_template (objects : list yaml) : py (list lua_case) :=
  render_each objects lua_object.

(** *** What DNP3PushPoint leaves in the Lua table *)

Inductive lua_value : Type :=
| LInteger (z : Z)
| LNumber (v : cval)            (* the float or double the member holds *)
| LString (s : list byte).

(** the bytes before the first NUL, as [strlen] counts them; [None] when the
    scan runs off the end *)
Fixpoint c_string (cs : list byte) : option (list byte) :=
  match cs with
  | [] => None
  | c :: cs' =>
      if Byte.eqb c x00 then Some []
      else cons c <$> c_string cs'
  end.

(** Modelled from the spec: LuaPushStringBuffer and lua_pushlstring push the
    given number of bytes from the given address as one string ("length-bounded
    string buffers"). *)
Definition push_bytes (src : list byte) (n : Z) : option lua_value :=
  if (n <? 0) || (Z.of_nat (length src) <? n) then None
  else Some (LString (take (Z.to_nat n) src)).

(** What one push of the rendered switch leaves on the Lua stack.
    [lua_pushinteger] takes a [lua_Integer], a signed integer type, taken here
    at 64 bits: the member is converted to it, so that an unsigned 64-bit
    member from 2^63 on arrives as a negative number. *)
Definition eval_lua_push (data : object_store) (p : lua_push) : option lua_value :=
  match p with
  | lua_pushinteger m => Some (LInteger (to_signed 64 (load_int data m)))
  | lua_pushnumber m =>
      match data !! m with
      | Some (VFloat b) => Some (LNumber (VFloat b))
      | Some (VDouble b) => Some (LNumber (VDouble b))
      | None => Some (LNumber (VDouble 0))
      | _ => None
      end
  | LuaPushStringBuffer_strlen m =>
      match data !! m with
      | Some (VChars cs) =>
          s ← c_string cs; push_bytes cs (Z.of_nat (length s))
      | _ => None
      end
  | lua_pushlstring m len =>
      match data !! m with
      | Some (VBytes _ bytes) => push_bytes bytes (load_int data len)
      | None => push_bytes [] (load_int data len)
      | _ => None
      end
  end.

Definition eval_lua_entry (data : object_store) (e : lua_entry)
    : option (string * lua_value) :=
  v ← eval_lua_push data (lua_val e); Some (lua_key e, v).

(** ** Rendered C: the JSON output (output_json_dnp3_objects_template) *)

Inductive json_value : Type :=
| json_integer (m : string)             (* json_integer(data->m) *)
| json_real (m : string)                (* json_real(data->m) *)
| json_string_b64 (m len : string)      (* Base64Encode(data->m, data->len, ...); json_string(m_b64) *)
| json_string_member (m : string)       (* json_string(data->m) *)
| json_string_tmpbuf (m len : string).  (* data->len > 0: len bytes copied and terminated; else "" *)

(** [json_object_set_new(js, key, value);] *)
Record json_entry : Type := Json_entry { json_key : string; json_val : json_value }.

Record json_case : Type := Json_case {
  jc_group : jval; jc_variation : jval; jc_entries : list json_entry
}.

Definition json_field (field : yaml) : py (list json_entry) :=
  let ty := jattr field "type" in
  let name := render (jattr field "name") in
  let len_field := render (jattr field "len_field") in
  if is_integer_type ty then py_ret [Json_entry name (json_integer name)]
  else if in_strs ty flt_types then py_ret [Json_entry name (json_real name)]
  else if eq_str ty "bytearray" then
    py_ret [Json_entry ("data->" +:+ name) (json_string_b64 name len_field)]
  else if eq_str ty "vstr4" then
    py_ret [Json_entry ("data->" +:+ name) (json_string_member name)]
  else if eq_str ty "chararray" then
    py_ret [Json_entry name (json_string_tmpbuf name len_field)]
  else if eq_str ty "bstr8" then
    do subs <- jiter (jattr field "fields");
    render_each subs (fun field =>
      let name := render (jattr field "name") in
      py_ret [Json_entry name (json_integer name)])
  else py_raise (Unhandled_datatype ty).

Definition json_object (object : yaml) : py (list json_case) :=
  do fields <- jiter (jattr object "fields");
  do entries <- render_each fields json_field;
  py_ret [Json_case (jattr object "group") (jattr object "variation") entries].

Definition json_template (objects : list yaml) : py (list json_case) :=
  render_each objects json_object.

(** ** The run: main and the files it writes *)

(** What a template has rendered, or some other text. *)
Inductive generated : Type :=
| G_structs (code : list struct_decl)
| G_decoders (code : decoders_c)
| G_lua (code : list lua_case)
| G_json (code : list json_case)
| G_other (words : string).

(** The text of the files is left to the libraries: how rendered code reads
    as text, and what
    [re.sub("(START).*(END)", r"\1<code>\2", content, 1, re.M | re.DOTALL)]
    makes of the text of a file.  The replacement is itself a template for
    [re]: the rendered code is scanned for backslash escapes and group
    references (the templates double their backslashes because of that), and
    [re.sub] raises when it finds a reference to a group that the pattern
    does not have.  Being greedy, the pattern matches from the first start
    marker to the last end marker. *)
Class file_text : Type := File_text {
  text : Type;
  text_of : generated -> text;                 (* the file that is the rendered code *)
  re_sub : generated -> text -> option text    (* [None] when re.sub raises *)
}.

Abbreviation files := (gmap string text).

(** The body of a [try], then the [except Exception] clause that prints and
    exits. *)
Definition try_or_exit {T : file_text} (attempt : py files) (fs : files) (s : stream)
    (failed : exception -> message) : py unit * files :=
  match py_res attempt with
  | Ret fs' => (Py (py_out attempt) (Ret tt), fs')
  | SysExit c => (Py (py_out attempt) (SysExit c), fs)
  | Exc err => (Py (py_out attempt ++ [(s, failed err)]) (SysExit 1), fs)
  end.

Definition structs_h : string := "src/app-layer-dnp3-objects.h".
Definition decoders_c_file : string := "src/app-layer-dnp3-objects.c".
Definition lua_c : string := "src/util-lua-dnp3-objects.c".
Definition json_c : string := "src/output-json-dnp3-objects.c".

(** The in-place updates: render, read the file, substitute, write it back. *)
Definition update_in_place {T : file_text} (filename : string) (code : py generated)
    (fs : files) : py unit * files :=
  try_or_exit
    (do code <- code;
     match fs !! filename with
     | None => py_raise (IOError filename)
     | Some content =>
         match re_sub code content with
         | None => py_raise re_error
         | Some content' =>
             py_print Stdout (Updated filename);;
             py_ret (<[filename := content']> fs)
         end
     end)
    fs Stderr (Failed_to_update filename).

Definition gen_object_structs {T : file_text} (objects : list yaml) (fs : files)
    : py unit * files :=
  update_in_place structs_h (do c <- structs_template objects; py_ret (G_structs c)) fs.

Definition gen_object_decoders {J : jinja2} {T : file_text} (objects : list yaml)
    (fs : files) : py unit * files :=
  update_in_place decoders_c_file (do c <- decoders_template objects; py_ret (G_decoders c)) fs.

(** Render, then open the file for writing and write the whole of it. *)
Definition generate {T : file_text} (template : py generated) (filename : string)
    (fs : files) : py unit * files :=
  let r :=
    try_or_exit
      (do output <- template;
       py_ret (<[filename := text_of output]> fs))
      fs Stdout (Failed_to_generate filename) in
  (Py ((Stdout, Generating filename) :: py_out (fst r)) (py_res (fst r)), snd r).

(** Run [k] after [r] only if [r] returned. *)
Definition and_then {T : file_text} (r : py unit * files)
    (k : files -> py unit * files) : py unit * files :=
  match py_res (fst r) with
  | Ret _ => let r' := k (snd r) in
             (Py (py_out (fst r) ++ py_out (fst r')) (py_res (fst r')), snd r')
  | _ => r
  end.

(** preprocess_object on an entry of the schema, whatever it is.  On an
    entry that is no mapping the test ["unimplemented" in obj] raises for a
    scalar, looks for a substring in a string and for an item in a sequence;
    after it [obj["group"]] or [obj.items()] raises. *)
Definition preprocess_entry (o : yaml) : py (option dict) :=
  match o with
  | YMap d => preprocess_object d
  | YStr s =>
      match String.index 0 "unimplemented" s with
      | Some _ => py_raise TypeError
      | None => py_raise AttributeError
      end
  | YSeq l =>
      if existsb (fun x => eq_str (Some x) "unimplemented") l
      then py_raise TypeError else py_raise AttributeError
  | _ => py_raise TypeError
  end.

(** [map(preprocess_object, ...)] followed by the filter on [None] *)
Fixpoint preprocess_all (objs : list yaml) : py (list yaml) :=
  match objs with
  | [] => py_ret []
  | o :: objs' =>
      do r <- preprocess_entry o;
      do rest <- preprocess_all objs';
      py_ret (match r with Some d' => YMap d' :: rest | None => rest end)
  end.

Definition load_objects (definitions : yaml) : py (list yaml) :=
  do objs <- py_subscript definitions "objects";
  do objs <- py_iter objs;
  py_print Stdout (Loaded_objects (length objs));;
  preprocess_all objs.

Definition main {J : jinja2} {T : file_text} (definitions : yaml) (fs : files)
    : py unit * files :=
  let loaded := load_objects definitions in
  match py_res loaded with
  | Ret objects =>
      and_then (Py (py_out loaded) (Ret tt), fs) (fun fs =>
      and_then (gen_object_structs objects fs) (fun fs =>
      and_then (gen_object_decoders objects fs) (fun fs =>
      and_then (generate (do c <- lua_template objects; py_ret (G_lua c)) lua_c fs) (fun fs =>
      generate (do c <- json_template objects; py_ret (G_json c)) json_c fs))))
  | SysExit c => (Py (py_out loaded) (SysExit c), fs)
  | Exc e => (Py (py_out loaded) (Exc e), fs)
  end.

(** The status the process ends with: [sys.exit(main())] with main returning
    None, an explicit [sys.exit], or an uncaught exception. *)
Definition exit_status (r : pyres unit) : Z :=
  match r with
  | Ret _ => 0
  | SysExit c => c
  | Exc _ => 1
  end.

(** ** Worked inputs *)

Module Example.

(** Instances of the hand-written C for the worked inputs: prefix code 0
    carries no prefix and any other code a one-octet prefix; codes 4 to 6 say
    that the prefix is a size; wide integers are little-endian; the object
    code packs group and variation into 16 bits. *)
Definition read_prefix (prefix_code : Z) (b : list byte) : option (Z * list byte) :=
  if prefix_code =? 0 then Some (0, b) else DNP3ReadUint8 b.

Definition prefix_is_size (prefix_code : Z) : bool :=
  (4 <=? prefix_code) && (prefix_code <=? 6).

Definition little_endian (bs : list byte) : Z :=
  foldr (fun o acc => octet_value o + 256 * acc) 0 bs.

(** a reader for prefixes of four octets *)
Definition read_prefix4 (prefix_code : Z) (b : list byte) : option (Z * list byte) :=
  if (length b <? 4)%nat then None else Some (little_endian (take 4 b), drop 4 b).

Definition object_code (group variation : Z) : Z :=
  Z.lor (Z.shiftl group 8) variation.

Definition fresh (b : list byte) : machine := Machine b (Heap ∅ 0 1000) [].

(** The two ways of Jinja2 with an assignment in a loop. *)
Definition jinja2_8 : jinja2 := Jinja2 Kept_for_next_iteration.
Definition jinja2_10 : jinja2 := Jinja2 Local_to_iteration.

(** Validate the objects, render the header and the decoders, and call the
    rendered DNP3DecodeObject on a fresh machine. *)
Definition decode {J : jinja2} (objs : list dict)
    (group variation prefix_code start count : Z) (b : list byte)
    : option (outcome (decode_result * machine)) :=
  match py_res (preprocess_all (map YMap objs)) with
  | Ret objects =>
      match py_res (structs_template objects), py_res (decoders_template objects) with
      | Ret structs, Ret c =>
          Some (DNP3DecodeObject read_prefix prefix_is_size little_endian object_code
                  structs c group variation prefix_code start count (fresh b))
      | _, _ => None
      end
  | _ => None
  end.

Definition field (ty name : string) (more : dict) : yaml :=
  YMap ([("type", YStr ty); ("name", YStr name)] ++ more).

Definition object (group variation : Z) (fields : list yaml) (more : dict) : dict :=
  [("group", YInt group); ("variation", YInt variation); ("fields", YSeq fields)] ++ more.

(** a length octet followed by text / by bytes of that length *)
Definition text_object : dict :=
  object 1 1 [field "uint8" "n" [];
              field "chararray" "s" [("len_field", YStr "n"); ("size", YInt 16)]] [].

Definition bytes_object : dict :=
  object 1 1 [field "uint8" "n" [];
              field "bytearray" "s" [("len_field", YStr "n")]] [].

(** bytes of a length taken from the prefix, then a field the validator
    should refuse *)
Definition unknown_key_after_prefix_length : dict :=
  object 70 5 [field "bytearray" "data" [("len_from_prefix", YBool true);
                                         ("len_field", YStr "n")];
               field "uint8" "x" [("bogus", YInt 1)]]
         [("extra_fields", YSeq [field "uint16" "n" []])].

Definition unknown_key_first : dict :=
  object 70 5 [field "uint8" "x" [("bogus", YInt 1)];
               field "bytearray" "data" [("len_from_prefix", YBool true);
                                         ("len_field", YStr "n")]]
         [("extra_fields", YSeq [field "uint16" "n" []])].

Definition bits (name : string) (width : Z) : yaml :=
  YMap [("name", YStr name); ("width", YInt width)].

Definition seven_bits_after_prefix_length : dict :=
  object 70 5 [field "bytearray" "data" [("len_from_prefix", YBool true);
                                         ("len_field", YStr "n")];
               field "bstr8" "flags" [("fields", YSeq [bits "a" 4; bits "b" 2; bits "c" 1])]]
         [("extra_fields", YSeq [field "uint16" "n" []])].

Definition seven_bits : dict :=
  object 2 1 [field "bstr8" "flags" [("fields", YSeq [bits "a" 4; bits "b" 2; bits "c" 1])]] [].

Definition nine_bits : dict :=
  object 2 1 [field "bstr8" "flags" [("fields", YSeq [bits "a" 7; bits "b" 2])]] [].

(** one bit per point, and two bits per point *)
Definition packed_object (width : Z) : dict :=
  object 1 1 [YMap [("type", YStr "uint8"); ("name", YStr "state"); ("width", YInt width)]]
         [("packed", YBool true)].

(** bytes of a given length, then a checksum *)
Definition bytes_then_crc : dict :=
  object 1 1 [field "uint8" "n" [];
              field "bytearray" "data" [("len_field", YStr "n")];
              field "uint16" "crc" []] [].

Definition nibbles : dict :=
  object 1 2 [field "bstr8" "flags" [("fields", YSeq [bits "lo" 4; bits "hi" 4])]] [].

(** two subfields of widths the header accepts and the decoder does not *)
Definition three_and_five : dict :=
  object 3 1 [field "bstr8" "flags" [("fields", YSeq [bits "a" 3; bits "b" 5])]] [].

Definition schema (objs : list dict) : yaml :=
  YMap [("objects", YSeq (map YMap objs))].

(** Files for the worked runs: text with one pair of markers, which
    [re.sub] finds and puts the code between, or text without markers, which
    it leaves alone; the code holds nothing that [re] would take for an
    escape. *)
Inductive file : Type :=
| In_place (before : string) (region : generated) (after : string)
| Plain (content : generated).

Definition texts : file_text :=
  File_text file Plain
    (fun code content =>
       Some match content with
            | In_place before _ after => In_place before code after
            | Plain c => Plain c
            end).

(** the four target files before a run *)
Definition tree : gmap string file :=
  <[structs_h := In_place "/* header */" (G_other "old structs") "/* end */"]>
  (<[decoders_c_file := In_place "/* head */" (G_other "old decoders") "/* end */"]>
  (<[lua_c := Plain (G_other "old lua")]>
  (<[json_c := Plain (G_other "old json")]> ∅))).

(** For each decoded point: the integer a member holds and what one Lua
    entry evaluates to. *)
Definition pushed (r : option (outcome (decode_result * machine))) (len : string)
    (e : lua_entry) : list (Z * option (string * lua_value)) :=
  match r with
  | Some (Done (_, m)) =>
      map (fun pt => (load_int (pt_data pt) len, eval_lua_entry (pt_data pt) e)) (points m)
  | _ => []
  end.

(** bytes whose length is what the prefix leaves, alone and behind one octet *)
Definition prefixed_bytes : dict :=
  object 70 5 [field "bytearray" "data" [("len_from_prefix", YBool true);
                                         ("len_field", YStr "n")]]
         [("extra_fields", YSeq [field "uint16" "n" []])].

Definition octet_then_prefixed_bytes : dict :=
  object 70 6 [field "uint8" "kind" [];
               field "bytearray" "data" [("len_from_prefix", YBool true);
                                         ("len_field", YStr "n")]]
         [("extra_fields", YSeq [field "uint16" "n" []])].

(** an object the schema marks as not implemented *)
Definition not_yet : dict :=
  [("group", YInt 9); ("variation", YInt 9); ("unimplemented", YStr "later")].

(** the header and the decoders rendered for validated objects *)
Definition rendered {J : jinja2} (objs : list dict)
    : option (list struct_decl * decoders_c) :=
  match py_res (preprocess_all (map YMap objs)) with
  | Ret objects =>
      match py_res (structs_template objects), py_res (decoders_template objects) with
      | Ret structs, Ret c => Some (structs, c)
      | _, _ => None
      end
  | _ => None
  end.

(** For each decoded point: the integers the named members hold. *)
Definition members (r : option (outcome (decode_result * machine))) (names : list string)
    : list (list Z) :=
  match r with
  | Some (Done (_, m)) => map (fun pt => map (load_int (pt_data pt)) names) (points m)
  | _ => []
  end.

End Example.

(** What is left of a decoder call: the result, the bytes not consumed, the
    number of points in the list and the addresses of the live blocks that no
    point of the list owns. *)
Definition owned (pt : point) : gset nat :=
  {[pt_addr pt]} ∪
  map_fold (fun _ v acc => match v with VBytes a _ => {[a]} ∪ acc | _ => acc end)
    ∅ (pt_data pt).

Definition leaked (m : machine) : gset nat :=
  live (mem m) ∖ ⋃ (owned <$> points m).

Definition summary (r : option (outcome (decode_result * machine)))
    : option (decode_result * list byte * nat * list nat) :=
  match r with
  | Some (Done (res, m)) => Some (res, buf m, length (points m), elements (leaked m))
  | _ => None
  end.

(** ** Notions used in the statements *)

(** The lines that report an error. *)
Definition diagnostic (m : message) : Prop :=
  match m with
  | Invalid_key _ _ _ | Failed_to_generate _ _ | Failed_to_update _ _ => True
  | _ => False
  end.

(** A computation that exits does so with status 1, and the last line it
    printed reports the error. *)
Definition exits_well {A} (m : py A) : Prop :=
  forall c, py_res m = SysExit c ->
    c = 1 /\ exists s msg, last (py_out m) = Some (s, msg) /\ diagnostic msg.

(** The run did not reach its end. *)
Definition aborted {T : file_text} (r : py unit * files) : Prop := py_res (fst r) <> Ret tt.

(** A subfield whose width the record decoder has a mask for. *)
Definition supported_subfield (f : yaml) : Prop :=
  exists w, jattr f "width" = Some (YInt w) /\ (w = 1 \/ w = 2 \/ w = 4 \/ w = 7).

Definition width_of (f : yaml) : Z :=
  match jattr f "width" with
  | Some (YInt w) => w
  | _ => 0
  end.

(** the sum of the widths of the first [k] subfields *)
Definition widths_before (k : nat) (subs : list yaml) : Z :=
  foldr Z.add 0 (width_of <$> take k subs).

(** The line the claim expects for the [k]-th subfield: shifted by the widths
    before it and masked to its own width. *)
Definition cumulative_extract (subs : list yaml) (k : nat) (f : yaml) : extract :=
  Extract (render (jattr f "name")) (widths_before k subs) (Z.ones (width_of f)).

(** The line that masks the octet to the width of a subfield without
    shifting it. *)
Definition unshifted_extract (f : yaml) : extract :=
  Extract (render (jattr f "name")) 0 (Z.ones (width_of f)).

(** Whether a character occurs in a string. *)
Fixpoint has_char (c : ascii) (s : string) : bool :=
  match s with
  | EmptyString => false
  | String c' s' => Ascii.eqb c c' || has_char c s'
  end.

(** An object of the schema that is not marked unimplemented. *)
Definition implemented (o : yaml) : bool :=
  match o with
  | YMap d => negb (dict_has "unimplemented" d)
  | _ => true
  end.

Definition object_key (o : yaml) : jval * jval :=
  (jattr o "group", jattr o "variation").

(** The case of DNP3DecodeObject an object stands for. *)
Definition case_of (o : yaml) : decode_case :=
  Decode_case (jattr o "group") (jattr o "variation") (decoder_name o).

(** ** Notions used in the further properties *)

Definition valid_key (key : string) : Prop := str_in key valid_keys = true.
Definition valid_field_key (key : string) : Prop := str_in key valid_field_keys = true.

(** whether a field sets len_from_prefix *)
Definition sets_len_from_prefix (f : yaml) : bool :=
  jtruthy (jattr f "len_from_prefix").

(** The fields the validator looks at: those up to and including the first
    one that sets len_from_prefix. *)
Fixpoint checked_fields (fields : list yaml) : list yaml :=
  match fields with
  | [] => []
  | f :: rest => if sets_len_from_prefix f then [f] else f :: checked_fields rest
  end.

(** [width += int(subfield["width"])] over the subfields, when every width
    converts *)
Fixpoint widths_total (subs : list yaml) : option Z :=
  match subs with
  | [] => Some 0
  | s :: subs' =>
      match jattr s "width" with
      | Some w =>
          match py_res (py_int w), widths_total subs' with
          | Ret n, Some rest => Some (n + rest)
          | _, _ => None
          end
      | None => None
      end
  end.

(** What the validator has established of a field it went past. *)
Definition field_checked (f : yaml) : Prop :=
  exists fd,
    f = YMap fd
    /\ Forall valid_field_key (map fst fd)
    /\ (sets_len_from_prefix f = false ->
        eq_str (jattr f "type") "bstr8" = true ->
        exists subs, py_res (jiter (jattr f "fields")) = Ret subs
                     /\ widths_total subs = Some 8).

Definition is_bytearray (f : yaml) : bool := eq_str (jattr f "type") "bytearray".

(** a field that is a mapping with a [type] entry *)
Definition has_type (f : yaml) : Prop :=
  exists fd ty, f = YMap fd /\ dict_get "type" fd = Some ty.

(** The blocks a release case frees besides the point itself: the byte
    arrays held by the members it names. *)
Definition released_arrays (data : object_store) (members : list string) : gset nat :=
  list_to_set (omap (fun name => match data !! name with
                                  | Some (VBytes a _) => Some a
                                  | _ => None
                                  end) members).

(** whether a rendered field is the text branch *)
Definition reads_text (s : stmt) : bool :=
  match s with
  | Read_chararray _ _ => true
  | _ => false
  end.

(** whether a rendered decoder has a text branch *)
Definition decoder_reads_text (fn : decoder_fn) : bool :=
  match fn_body fn with
  | Packed _ => false
  | Records d => existsb reads_text (rd_body d)
  end.

(** an object none of whose fields is of type chararray *)
Definition text_free (o : yaml) : Prop :=
  forall fields, py_res (jiter (jattr o "fields")) = Ret fields ->
    Forall (fun f => eq_str (jattr f "type") "chararray" = false) fields.
(** ** Notions used in the properties of main *)

(** the four files main writes *)
Definition targets : list string := [structs_h; decoders_c_file; lua_c; json_c].

(** What the [try] of an in-place update comes to before anything is
    written: the new text of the file, or what is raised, by the template,
    by [open] on a missing file, or by [re.sub]. *)
Definition new_text {T : file_text} (filename : string) (code : py generated)
    (fs : files) : pyres text :=
  match py_res code with
  | Ret g =>
      match fs !! filename with
      | None => Exc (IOError filename)
      | Some content =>
          match re_sub g content with
          | None => Exc re_error
          | Some content' => Ret content'
          end
      end
  | SysExit c => SysExit c
  | Exc e => Exc e
  end.

(** ... for the header and for the decoders *)
Definition new_header {T : file_text} (objects : list yaml) (fs : files) : pyres text :=
  new_text structs_h (do c <- structs_template objects; py_ret (G_structs c)) fs.

Definition new_decoders {J : jinja2} {T : file_text} (objects : list yaml) (fs : files)
    : pyres text :=
  new_text decoders_c_file (do c <- decoders_template objects; py_ret (G_decoders c)) fs.

(** a computation that prints nothing *)
Definition silent {A} (m : py A) : Prop := py_out m = [].

(** What a run needs to reach its end: a schema that loads and validates,
    two in-place updates that come to a new text, and two more templates that
    render. *)
Definition runs_through {J : jinja2} {T : file_text} (definitions : yaml) (fs : files)
    (objects : list yaml) (h c : text) (l : list lua_case) (j : list json_case) : Prop :=
  py_res (load_objects definitions) = Ret objects
  /\ new_header objects fs = Ret h
  /\ new_decoders objects fs = Ret c
  /\ py_res (lua_template objects) = Ret l
  /\ py_res (json_template objects) = Ret j.

(** ** Notions used in the properties across the templates *)

(** the members a rendered field of the record decoder fills from the wire *)
Definition destinations (s : stmt) : list string :=
  match s with
  | Read _ dst | Read_vstr4 dst | Read_bytearray dst _ | Read_chararray dst _ => [dst]
  | Len_from_prefix _ => []
  | Read_bstr8 xs => map x_name xs
  end.

(** the member whose value a Lua entry pushes *)
Definition lua_member (e : lua_entry) : string :=
  match lua_val e with
  | lua_pushinteger m | lua_pushnumber m | LuaPushStringBuffer_strlen m
  | lua_pushlstring m _ => m
  end.

(** the member whose value a JSON entry holds *)
Definition json_member (e : json_entry) : string :=
  match json_val e with
  | json_integer m | json_real m | json_string_b64 m _ | json_string_member m
  | json_string_tmpbuf m _ => m
  end.
(** the members the [extra_fields] of an object add to its struct *)
Definition extra_members (object : yaml) : py (list member) :=
  if jtruthy (jattr object "extra_fields") then
    do fields <- jiter (jattr object "extra_fields");
    render_each fields struct_extra_field
  else py_ret [].

(** The struct, the Lua case and the JSON case of one object: the struct
    and the cases are those of the object's group and variation; the cases
    read, in order, the members the struct declares in front of the members
    of the extra fields. *)
Definition covers (object : yaml) (st : struct_decl) (lc : lua_case) (jc : json_case)
    : Prop :=
  s_name st = struct_name object
  /\ lc_group lc = jattr object "group" /\ lc_variation lc = jattr object "variation"
  /\ jc_group jc = jattr object "group" /\ jc_variation jc = jattr object "variation"
  /\ exists extra,
       py_res (extra_members object) = Ret extra
       /\ map m_name (s_members st) = map lua_member (lc_entries lc) ++ map m_name extra
       /\ map m_name (s_members st) = map json_member (jc_entries jc) ++ map m_name extra.

(** ** Notions used in the properties of the packed decoder *)

(** The values [j] takes in [for (j = 0; j < 8 && count; j = j + width)]
    when [count] does not run out: how many points one octet can yield. *)
Fixpoint packed_slots (width : Z) (fuel : nat) (j : Z) : nat :=
  match fuel with
  | O => O
  | S fuel' => if j <? 8 then S (packed_slots width fuel' (j + width)) else O
  end.

(** ** Notions used in the properties of the heap *)

(** Every live block was handed out by the allocator. *)
Definition heap_wf (h : heap) : Prop := forall p, p ∈ live h -> (p < next h)%nat.

(** The blocks a point owns were allocated between [h] and [h'] and are
    live in [h']. *)
Definition allocated_between (h h' : heap) (pt : point) : Prop :=
  forall p, p ∈ owned pt -> (next h <= p < next h')%nat /\ p ∈ live h'.

(** No two points of a list own a block in common. *)
Fixpoint disjoint_owners (pts : list point) : Prop :=
  match pts with
  | [] => True
  | pt :: rest => Forall (fun q => owned pt ## owned q) rest /\ disjoint_owners rest
  end.

(** whether a member holds a byte array *)
Definition is_array (v : cval) : bool :=
  match v with VBytes _ _ => true | _ => false end.

(** Since the record began with the heap [h0], the heap only grew, and the
    byte arrays of the object under construction were allocated. *)
Definition frame_inv (h0 : heap) (f : frame) : Prop :=
  heap_wf (f_mem f)
  /\ (next h0 <= next (f_mem f))%nat
  /\ live h0 ⊆ live (f_mem f)
  /\ forall name a bs, f_object f !! name = Some (VBytes a bs) ->
       (next h0 <= a < next (f_mem f))%nat /\ a ∈ live (f_mem f).

(** What a decoder may do to the machine as far as the heap goes: the heap
    stays well-formed and keeps every block that was live, and the points
    appended own blocks allocated meanwhile, still live, no two the same. *)
Definition extends (m m' : machine) : Prop :=
  heap_wf (mem m')
  /\ (next (mem m) <= next (mem m'))%nat
  /\ live (mem m) ⊆ live (mem m')
  /\ exists new,
       points m' = points m ++ new
       /\ Forall (allocated_between (mem m) (mem m')) new
       /\ disjoint_owners new.

(** ** Notions used in the properties of the constraints *)

(** Whether a rendered constraint holds of a prefix code; [None] when the
    rendered comparison is no C expression. *)
Definition constraint_met (IS : Z -> bool) (prefix_code : Z) (c : constraint)
    : option bool :=
  match c with
  | Require_size_prefix => Some (IS prefix_code)
  | Require_prefix_code val => Z.eqb prefix_code <$> c_literal val
  end.

(** the constraint a key of the schema's [constraints] mapping renders *)
Definition rendered_constraint (kv : string * yaml) (c : constraint) : Prop :=
  (fst kv = "require_size_prefix" /\ c = Require_size_prefix)
  \/ (fst kv = "require_prefix_code" /\ c = Require_prefix_code (Some (snd kv))).
(** ** Notions used in the properties of loading *)

(** a computation that has printed nothing when it returns *)
Definition returns_quietly {A} (m : py A) : Prop :=
  forall a, py_res m = Ret a -> py_out m = [].

(** the line the validator prints for an object marked unimplemented *)
Definition notice (o : yaml) : option (stream * message) :=
  match o with
  | YMap d =>
      if dict_has "unimplemented" d then
        match dict_get "group" d, dict_get "variation" d, dict_get "unimplemented" d with
        | Some g, Some v, Some why => Some (Stdout, Object_not_implemented g v why)
        | _, _, _ => None
        end
      else None
  | _ => None
  end.
(** ** Notions used in the properties of the exporters' keys *)

(** whether the JSON template writes [data->] in front of the key of a field *)
Definition json_key_has_prefix (field : yaml) : bool :=
  eq_str (jattr field "type") "bytearray" || eq_str (jattr field "type") "vstr4".

(** * Properties *)

(** ** The validator *)

(** C3.  The validator is to check every field of an object and to refuse
    unknown keys and bit-field groups whose widths do not sum to 8, naming the
    object.  As written, the field loop ends at the first field that sets
    len_from_prefix: an unknown key is refused when it comes before such a
    field and accepted when it comes after it, and so is a bit-field group of
    7 bits.  A wrong width sum that is seen ends the run with a bare
    AssertionError, and no line naming the object is printed. *)
Theorem preprocess_object_stops_at_len_from_prefix :
  preprocess_object Example.unknown_key_first
    = Py [(Stderr, Invalid_key "bogus" 70 5)] (SysExit 1)
  /\ preprocess_object Example.unknown_key_after_prefix_length
    = Py [] (Ret (Some (dict_set "_track_offset" (YBool true)
                          Example.unknown_key_after_prefix_length)))
  /\ preprocess_object Example.seven_bits_after_prefix_length
    = Py [] (Ret (Some (dict_set "_track_offset" (YBool true)
                          Example.seven_bits_after_prefix_length)))
  /\ preprocess_object Example.seven_bits = Py [] (Exc AssertionError)
  /\ preprocess_object Example.nine_bits = Py [] (Exc AssertionError).
Proof. repeat split; vm_compute; reflexivity. Qed.

(** ** Decoders on concrete buffers *)

(** C2.  A text field whose length exceeds the remaining bytes is to make the
    decoder fail like a byte array does.  With a length octet of 5 and two
    bytes left, the byte-array decoder returns failure with the cursor where
    it was, while the text decoder copies five bytes from a buffer of two. *)
Theorem chararray_copies_without_length_check {J : jinja2} :
  Example.decode [Example.bytes_object] 1 1 0 0 1 [x05; x41; x42]
    = Some (Done (DNP3_DECODER_EVENT_MALFORMED,
                  Machine [x41; x42] (Heap ∅ 1 999) []))
  /\ Example.decode [Example.text_object] 1 1 0 0 1 [x05; x41; x42]
    = Some (Undefined_behaviour Read_past_buffer).
Proof. split; vm_compute; reflexivity. Qed.

(** C4.  The packed decoder is to stop reading once [count] points are out
    and to produce exactly [count] points.  It reads [count / 8 + 1] octets
    whatever the width: for eight one-bit points it asks for a second octet,
    failing when there is none and consuming it when there is one; for twelve
    two-bit points it reads two octets of the three and returns success with
    eight points. *)
Theorem packed_decoder_reads_count_div_8_plus_1_octets {J : jinja2} :
  summary (Example.decode [Example.packed_object 1] 1 1 0 0 8 [xff])
    = Some (DNP3_DECODER_EVENT_MALFORMED, [], 8%nat, [])
  /\ summary (Example.decode [Example.packed_object 1] 1 1 0 0 8 [xff; x01])
    = Some (Decoded, [], 8%nat, [])
  /\ summary (Example.decode [Example.packed_object 2] 1 1 0 0 12 [xff; x01; x02])
    = Some (Decoded, [x02], 8%nat, []).
Proof. repeat split; vm_compute; reflexivity. Qed.

(** C5.  On a failed read the decoder is to release the point under
    construction together with the storage it owns, and to leave earlier
    points in the list.  Earlier points do stay, but only the object block is
    released: when the checksum after a byte array cannot be read, the block
    of the byte array (address 1, then address 3 in the second record of a
    two-record call) stays live and belongs to no point. *)
Theorem failed_record_leaks_its_byte_array {J : jinja2} :
  summary (Example.decode [Example.bytes_then_crc] 1 1 0 0 1 [x02; xaa; xbb; x01])
    = Some (DNP3_DECODER_EVENT_MALFORMED, [x01], 0%nat, [1%nat])
  /\ summary (Example.decode [Example.bytes_then_crc] 1 1 0 0 2
                [x01; xaa; x01; x02; x02; xaa; xbb; x01])
    = Some (DNP3_DECODER_EVENT_MALFORMED, [x01], 1%nat, [3%nat]).
Proof. split; vm_compute; reflexivity. Qed.

(** ** The exporters *)

(** C10.  Every JSON entry is to be keyed by the bare field name.  The
    byte-array and vstr4 branches put the text [data->] in front of it; the
    other branches do not. *)
Theorem json_keys_of_bytearray_and_vstr4 :
  json_field (Example.field "bytearray" "payload" [("len_field", YStr "n")])
    = py_ret [Json_entry "data->payload" (json_string_b64 "payload" "n")]
  /\ json_field (Example.field "vstr4" "tag" [])
    = py_ret [Json_entry "data->tag" (json_string_member "tag")]
  /\ json_field (Example.field "chararray" "text" [("len_field", YStr "n")])
    = py_ret [Json_entry "text" (json_string_tmpbuf "text" "n")]
  /\ json_field (Example.field "uint16" "count" [])
    = py_ret [Json_entry "count" (json_integer "count")].
Proof. repeat split; vm_compute; reflexivity. Qed.

(** ** Laws of the script monad and of the template helpers *)

Lemma py_bind_ret {A B} (a : A) (k : A -> py B) : py_bind (py_ret a) k = k a.
Proof. unfold py_bind, py_ret; simpl. destruct (k a); reflexivity. Qed.

Lemma py_bind_raise {A B} (e : exception) (k : A -> py B) :
  py_bind (py_raise e) k = py_raise e.
Proof. reflexivity. Qed.

Lemma py_bind_res_ret {A B} (m : py A) (k : A -> py B) (b : B) :
  py_res (py_bind m k) = Ret b ->
  exists a, py_res m = Ret a /\ py_res (k a) = Ret b.
Proof.
  unfold py_bind. destruct (py_res m) as [a| |] eqn:E; simpl; try discriminate.
  intros H. exists a. split; [reflexivity | exact H].
Qed.

Lemma render_each_pure {A B} (g : A -> B) (l : list A) :
  render_each l (fun x => py_ret [g x]) = py_ret (map g l).
Proof.
  induction l as [|x l IH]; simpl; [reflexivity|].
  rewrite py_bind_ret, IH, py_bind_ret. reflexivity.
Qed.

Lemma eq_str_true (u : jval) (s : string) : eq_str u s = true -> u = Some (YStr s).
Proof.
  destruct u as [[| | |t| |]|]; simpl; try discriminate.
  intros H. apply String.eqb_eq in H. congruence.
Qed.

Lemma c_string_spec (cs s : list byte) :
  c_string cs = Some s ->
  (exists rest, cs = s ++ x00 :: rest) /\ ~ In x00 s.
Proof.
  revert s. induction cs as [|c cs IH]; simpl; intros s H; [discriminate|].
  destruct (Byte.eqb c x00) eqn:E.
  - apply Byte.byte_dec_bl in E. subst c. inversion H; subst s.
    split; [exists cs; reflexivity | intros []].
  - destruct (c_string cs) as [s'|]; simpl in H; [|discriminate].
    inversion H; subst s. destruct (IH s' eq_refl) as [[rest Hrest] Hnot].
    split.
    + exists rest. simpl. rewrite Hrest. reflexivity.
    + intros [Hc | Hin]; [|exact (Hnot Hin)].
      subst c. discriminate E.
Qed.

Lemma push_bytes_prefix (s rest : list byte) :
  push_bytes (s ++ rest) (Z.of_nat (length s)) = Some (LString s).
Proof.
  unfold push_bytes.
  assert ((Z.of_nat (length s) <? 0) = false) as -> by (apply Z.ltb_ge; lia).
  assert ((Z.of_nat (length (s ++ rest)) <? Z.of_nat (length s)) = false) as ->.
  { apply Z.ltb_ge. rewrite length_app. lia. }
  simpl. rewrite Nat2Z.id, take_app_length. reflexivity.
Qed.

(** ** The Lua binding *)


Lemma to_signed_small (z : Z) : - 2 ^ 63 <= z < 2 ^ 63 -> to_signed 64 z = z.
Proof.
  intros H. unfold to_signed. change (64 - 1) with 63.
  rewrite Z.mod_small by lia. lia.
Qed.

Lemma in_strs_flt (u : jval) :
  in_strs u flt_types = true -> u = Some (YStr "flt32") \/ u = Some (YStr "flt64").
Proof.
  destruct u as [[| | |t| |]|]; simpl; try discriminate.
  destruct (String.eqb t "flt32") eqn:E1; [apply String.eqb_eq in E1; subst; auto|].
  destruct (String.eqb t "flt64") eqn:E2; [apply String.eqb_eq in E2; subst; auto|].
  discriminate.
Qed.


(** ** How the script ends when it does not finish *)

Lemma exits_well_noexit {A} (m : py A) :
  (forall c, py_res m <> SysExit c) -> exits_well m.
Proof. intros H c Hc. destruct (H c Hc). Qed.

Lemma exits_well_bind {A B} (m : py A) (k : A -> py B) :
  exits_well m -> (forall a, exits_well (k a)) -> exits_well (py_bind m k).
Proof.
  intros Hm Hk c. unfold py_bind.
  destruct (py_res m) as [a| c' |e] eqn:E; simpl; intros H.
  - destruct (Hk a c H) as [-> (s & msg & Hlast & Hd)].
    split; [reflexivity|]. exists s, msg. split; [|exact Hd].
    rewrite last_app, Hlast. reflexivity.
  - inversion H; subst c'. exact (Hm c E).
  - discriminate.
Qed.

Lemma exits_well_for {A S} (l : list A) (s : S) (body : A -> S -> py (flow * S)) :
  (forall x s, exits_well (body x s)) -> exits_well (py_for l s body).
Proof.
  intros H. revert s. induction l as [|x l IH]; intros s; simpl.
  - apply exits_well_noexit. discriminate.
  - apply exits_well_bind; [apply H|]. intros [[] s']; simpl; [apply IH|].
    apply exits_well_noexit. discriminate.
Qed.

Lemma exits_well_render_each {A B} (l : list A) (body : A -> py (list B)) :
  (forall x, exits_well (body x)) -> exits_well (render_each l body).
Proof.
  intros H. induction l as [|x l IH]; simpl.
  - apply exits_well_noexit. discriminate.
  - apply exits_well_bind; [apply H|]. intros here.
    apply exits_well_bind; [apply IH|]. intros rest.
    apply exits_well_noexit. discriminate.
Qed.

(** Closes a goal [exits_well m] for a computation that cannot exit once its
    case distinctions are made. *)
Ltac no_exit :=
  apply exits_well_noexit; intros ?; simpl;
  repeat case_match; simpl; discriminate.

Lemma exits_well_item d k : exits_well (py_item d k).
Proof. unfold py_item. no_exit. Qed.

Lemma exits_well_subscript v k : exits_well (py_subscript v k).
Proof. unfold py_subscript, py_item. no_exit. Qed.

Lemma exits_well_fmt_d v : exits_well (py_fmt_d v).
Proof. unfold py_fmt_d. no_exit. Qed.

Lemma exits_well_iter v : exits_well (py_iter v).
Proof. unfold py_iter. no_exit. Qed.

Lemma exits_well_int v : exits_well (py_int v).
Proof. unfold py_int. no_exit. Qed.

Lemma exits_well_as_dict v : exits_well (as_dict v).
Proof. unfold as_dict. no_exit. Qed.

Lemma exits_well_jiter u : exits_well (jiter u).
Proof. destruct u; simpl; [apply exits_well_iter | no_exit]. Qed.

Lemma exits_well_jfmt_d u : exits_well (jfmt_d u).
Proof. destruct u; simpl; [apply exits_well_fmt_d | no_exit]. Qed.

Lemma exits_well_jattr_of u k : exits_well (jattr_of u k).
Proof. unfold jattr_of. no_exit. Qed.

Lemma exits_well_jindex0 u : exits_well (jindex0 u).
Proof. unfold jindex0. no_exit. Qed.

Lemma exits_well_ret {A} (a : A) : exits_well (py_ret a).
Proof. no_exit. Qed.

Lemma exits_well_raise {A} (e : exception) : exits_well (@py_raise A e).
Proof. no_exit. Qed.

Lemma exits_well_print s m : exits_well (py_print s m).
Proof. no_exit. Qed.

Lemma exits_well_report_invalid_key {A} s key g v :
  exits_well (py_print s (Invalid_key key g v);; @py_exit A 1).
Proof.
  intros c H. inversion H; subst c. split; [reflexivity|].
  eexists _, _. split; [reflexivity | exact I].
Qed.

Create HintDb exits discriminated.
#[local] Hint Resolve exits_well_print exits_well_report_invalid_key exits_well_item exits_well_subscript exits_well_fmt_d
  exits_well_iter exits_well_int exits_well_as_dict exits_well_jiter
  exits_well_jfmt_d exits_well_jattr_of exits_well_jindex0
  exits_well_ret exits_well_raise : exits.

(** Splits a computation along its binds, loops and case distinctions. *)
Ltac exits_well :=
  repeat first
    [ solve [auto with exits]
    | apply exits_well_bind; [|intros ?]
    | apply exits_well_for; intros ? ?
    | apply exits_well_render_each; intros ?
    | case_match ].

Lemma exits_well_invalid_key {A} key obj : exits_well (@invalid_key A key obj).
Proof.
  unfold invalid_key. exits_well.
Qed.
#[local] Hint Resolve exits_well_invalid_key : exits.

Lemma exits_well_preprocess_field field obj : exits_well (preprocess_field field obj).
Proof. unfold preprocess_field. exits_well. Qed.

Lemma exits_well_preprocess_object obj : exits_well (preprocess_object obj).
Proof.
  unfold preprocess_object. exits_well.
Qed.
#[local] Hint Resolve exits_well_preprocess_object : exits.

Lemma exits_well_preprocess_entry o : exits_well (preprocess_entry o).
Proof. unfold preprocess_entry. exits_well. Qed.
#[local] Hint Resolve exits_well_preprocess_entry : exits.

Lemma exits_well_preprocess_all objs : exits_well (preprocess_all objs).
Proof.
  induction objs as [|o objs IH]; simpl; [auto with exits|].
  exits_well.
Qed.
#[local] Hint Resolve exits_well_preprocess_all : exits.

Lemma exits_well_load_objects definitions : exits_well (load_objects definitions).
Proof. unfold load_objects. exits_well. Qed.

Lemma exits_well_has_freeable_types fields : exits_well (has_freeable_types fields).
Proof. induction fields as [|f fields IH]; simpl; exits_well. Qed.

Lemma exits_well_bstr8_subfields {J : jinja2} subs : forall shift, exits_well (bstr8_subfields shift subs).
Proof. induction subs as [|f subs IH]; intros shift; simpl; exits_well. Qed.

#[local] Hint Resolve exits_well_has_freeable_types exits_well_bstr8_subfields : exits.

Lemma exits_well_structs_template objects : exits_well (structs_template objects).
Proof.
  unfold structs_template, struct_object, struct_field, struct_extra_field. exits_well.
Qed.

Lemma exits_well_decoders_template {J : jinja2} objects : exits_well (decoders_template objects).
Proof.
  unfold decoders_template, decoder_object, decoder_constraints, decoder_field,
    free_object, dispatch_object.
  exits_well.
Qed.

Lemma exits_well_lua_template objects : exits_well (lua_template objects).
Proof. unfold lua_template, lua_object, lua_field. exits_well. Qed.

Lemma exits_well_json_template objects : exits_well (json_template objects).
Proof. unfold json_template, json_object, json_field. exits_well. Qed.

#[local] Hint Resolve exits_well_structs_template exits_well_decoders_template
  exits_well_lua_template exits_well_json_template : exits.

(** *** What the templates print *)

Lemma silent_bind {A B} (m : py A) (k : A -> py B) :
  silent m -> (forall a, silent (k a)) -> silent (py_bind m k).
Proof.
  unfold silent, py_bind. intros Hm Hk. destruct (py_res m) as [a| |]; cbn [py_out].
  - rewrite Hm, (Hk a). reflexivity.
  - exact Hm.
  - exact Hm.
Qed.

Lemma silent_render_each {A B} (l : list A) (body : A -> py (list B)) :
  (forall x, silent (body x)) -> silent (render_each l body).
Proof.
  intros H. induction l as [|x l IH]; cbn [render_each]; [reflexivity|].
  apply silent_bind; [apply H|]. intros here.
  apply silent_bind; [apply IH|]. intros rest. reflexivity.
Qed.

Lemma silent_ret {A} (a : A) : silent (py_ret a).
Proof. reflexivity. Qed.

Lemma silent_raise {A} (e : exception) : silent (@py_raise A e).
Proof. reflexivity. Qed.

Lemma silent_item d k : silent (py_item d k).
Proof. unfold py_item, silent. case_match; reflexivity. Qed.

Lemma silent_subscript v k : silent (py_subscript v k).
Proof. unfold py_subscript, py_item, silent. repeat case_match; reflexivity. Qed.

Lemma silent_fmt_d v : silent (py_fmt_d v).
Proof. unfold py_fmt_d, silent. repeat case_match; reflexivity. Qed.

Lemma silent_iter v : silent (py_iter v).
Proof. unfold py_iter, silent. repeat case_match; reflexivity. Qed.

Lemma silent_jiter u : silent (jiter u).
Proof. destruct u; cbn; [apply silent_iter | reflexivity]. Qed.

Lemma silent_jfmt_d u : silent (jfmt_d u).
Proof. destruct u; cbn; [apply silent_fmt_d | reflexivity]. Qed.

Lemma silent_jattr_of u k : silent (jattr_of u k).
Proof. unfold jattr_of, silent. case_match; reflexivity. Qed.

Lemma silent_jindex0 u : silent (jindex0 u).
Proof. unfold jindex0, silent. repeat case_match; reflexivity. Qed.

Create HintDb silence discriminated.
#[local] Hint Resolve silent_ret silent_raise silent_item silent_subscript silent_fmt_d
  silent_iter silent_jiter silent_jfmt_d silent_jattr_of silent_jindex0 : silence.

(** Splits a computation along its binds, loops and case distinctions. *)
Ltac silent :=
  repeat first
    [ solve [auto with silence]
    | apply silent_bind; [|intros ?]
    | apply silent_render_each; intros ?
    | case_match ].

Lemma silent_has_freeable_types fields : silent (has_freeable_types fields).
Proof. induction fields as [|f fields IH]; simpl; silent. Qed.

Lemma silent_bstr8_subfields {J : jinja2} subs : forall shift, silent (bstr8_subfields shift subs).
Proof. induction subs as [|f subs IH]; intros shift; simpl; silent. Qed.

#[local] Hint Resolve silent_has_freeable_types silent_bstr8_subfields : silence.

Lemma silent_structs_template objects : silent (structs_template objects).
Proof.
  unfold structs_template, struct_object, struct_field, struct_extra_field. silent.
Qed.

Lemma silent_decoders_template {J : jinja2} objects : silent (decoders_template objects).
Proof.
  unfold decoders_template, decoder_object, decoder_constraints, decoder_field,
    free_object, dispatch_object.
  silent.
Qed.

Lemma silent_lua_template objects : silent (lua_template objects).
Proof. unfold lua_template, lua_object, lua_field. silent. Qed.

Lemma silent_json_template objects : silent (json_template objects).
Proof. unfold json_template, json_object, json_field. silent. Qed.

(** *** The emitters: what they print and which files they touch *)

Lemma silent_never_exits {A} (m : py A) :
  silent m -> exits_well m -> forall c, py_res m <> SysExit c.
Proof.
  intros Hs Hw c Hc. destruct (Hw c Hc) as [_ (s & msg & Hlast & _)].
  rewrite Hs in Hlast. discriminate Hlast.
Qed.

Lemma silent_tagged {A B} (m : py A) (tag : A -> B) :
  silent m -> silent (do c <- m; py_ret (tag c)).
Proof. intros H. apply silent_bind; [exact H | intros a; reflexivity]. Qed.

Lemma tagged_res {A B} (m : py A) (tag : A -> B) :
  py_res (do c <- m; py_ret (tag c))
  = match py_res m with Ret a => Ret (tag a) | SysExit c => SysExit c | Exc e => Exc e end.
Proof. unfold py_bind. destruct (py_res m); reflexivity. Qed.

(** An in-place update of a template that prints nothing. *)
Lemma update_in_place_run {T : file_text} (filename : string) (code : py generated)
    (fs : files) :
  silent code ->
  update_in_place filename code fs
  = match new_text filename code fs with
    | Ret t => (Py [(Stdout, Updated filename)] (Ret tt), <[filename := t]> fs)
    | SysExit c => (Py [] (SysExit c), fs)
    | Exc e => (Py [(Stderr, Failed_to_update filename e)] (SysExit 1), fs)
    end.
Proof.
  unfold silent, update_in_place, new_text, try_or_exit, py_bind. intros Hs.
  destruct code as [out res]. cbn [py_out py_res] in *. subst out.
  destruct res as [g| c |e]; cbn; [|reflexivity ..].
  destruct (fs !! filename) as [content|]; cbn; [|reflexivity].
  destruct (re_sub g content); reflexivity.
Qed.

(** A generated file of a template that prints nothing. *)
Lemma generate_run {T : file_text} (template : py generated) (filename : string)
    (fs : files) :
  silent template ->
  generate template filename fs
  = match py_res template with
    | Ret g => (Py [(Stdout, Generating filename)] (Ret tt), <[filename := text_of g]> fs)
    | SysExit c => (Py [(Stdout, Generating filename)] (SysExit c), fs)
    | Exc e => (Py [(Stdout, Generating filename); (Stdout, Failed_to_generate filename e)]
                  (SysExit 1), fs)
    end.
Proof.
  unfold silent, generate, try_or_exit, py_bind. intros Hs.
  destruct template as [out res]. cbn [py_out py_res] in *. subst out.
  destruct res as [g| c |e]; reflexivity.
Qed.

Lemma and_then_run {T : file_text} (out : list (stream * message)) (fs : files)
    (k : files -> py unit * files) :
  and_then (Py out (Ret tt), fs) k
  = (Py (out ++ py_out (fst (k fs))) (py_res (fst (k fs))), snd (k fs)).
Proof. reflexivity. Qed.

Lemma targets_distinct :
  structs_h <> decoders_c_file /\ structs_h <> lua_c /\ structs_h <> json_c
  /\ decoders_c_file <> lua_c /\ decoders_c_file <> json_c /\ lua_c <> json_c.
Proof. repeat split; discriminate. Qed.

Lemma new_text_insert_ne {T : file_text} (filename name : string) (code : py generated)
    (t : text) (fs : files) :
  name <> filename ->
  new_text filename code (<[name := t]> fs) = new_text filename code fs.
Proof. intros H. unfold new_text. rewrite lookup_insert_ne by exact H. reflexivity. Qed.

Lemma new_text_never_exits {T : file_text} (filename : string) (code : py generated)
    (fs : files) :
  (forall c, py_res code <> SysExit c) -> forall c, new_text filename code fs <> SysExit c.
Proof.
  intros H c. unfold new_text. destruct (py_res code) as [g| c' |e] eqn:E.
  - destruct (fs !! filename) as [content|]; [|discriminate].
    destruct (re_sub g content); discriminate.
  - destruct (H c' eq_refl).
  - discriminate.
Qed.

(** What stops an in-place update: the template, the missing file, or
    [re.sub]. *)
Lemma new_text_raises {T : file_text} (filename : string) (code : py generated)
    (fs : files) (e : exception) :
  new_text filename code fs = Exc e <->
  py_res code = Exc e
  \/ (exists g, py_res code = Ret g /\ fs !! filename = None /\ e = IOError filename)
  \/ (exists g content, py_res code = Ret g /\ fs !! filename = Some content
        /\ re_sub g content = None /\ e = re_error).
Proof.
  unfold new_text. destruct (py_res code) as [g| c |e'].
  - destruct (fs !! filename) as [content|]; [destruct (re_sub g content) eqn:E|];
      naive_solver.
  - naive_solver.
  - naive_solver.
Qed.

(** ... and what lets it through. *)
Lemma new_text_returns {T : file_text} (filename : string) (code : py generated)
    (fs : files) (t : text) :
  new_text filename code fs = Ret t <->
  exists g content, py_res code = Ret g /\ fs !! filename = Some content
    /\ re_sub g content = Some t.
Proof.
  unfold new_text. destruct (py_res code) as [g| c |e].
  - destruct (fs !! filename) as [content|]; [destruct (re_sub g content) eqn:E|];
      naive_solver.
  - naive_solver.
  - naive_solver.
Qed.

Lemma templates_never_exit {J : jinja2} {T : file_text} (objects : list yaml) (fs : files) :
  (forall c, new_header objects fs <> SysExit c)
  /\ (forall c, new_decoders objects fs <> SysExit c)
  /\ (forall c, py_res (lua_template objects) <> SysExit c)
  /\ (forall c, py_res (json_template objects) <> SysExit c).
Proof.
  split; [|split; [|split]].
  - apply new_text_never_exits. intros c. rewrite tagged_res.
    pose proof (silent_never_exits _ (silent_structs_template objects)
                  (exits_well_structs_template objects)) as H.
    destruct (py_res (structs_template objects)) as [a| c' |e]; try discriminate.
    destruct (H c' eq_refl).
  - apply new_text_never_exits. intros c. rewrite tagged_res.
    pose proof (silent_never_exits _ (silent_decoders_template objects)
                  (exits_well_decoders_template objects)) as H.
    destruct (py_res (decoders_template objects)) as [a| c' |e]; try discriminate.
    destruct (H c' eq_refl).
  - apply silent_never_exits; [apply silent_lua_template | apply exits_well_lua_template].
  - apply silent_never_exits; [apply silent_json_template | apply exits_well_json_template].
Qed.

(** The whole of a run, by what each of its steps comes to. *)
Lemma main_unfolded {J : jinja2} {T : file_text} (definitions : yaml) (fs : files) :
  main definitions fs
  = let out := py_out (load_objects definitions) in
    match py_res (load_objects definitions) with
    | SysExit c => (Py out (SysExit c), fs)
    | Exc e => (Py out (Exc e), fs)
    | Ret objects =>
    match new_header objects fs with
    | SysExit c => (Py out (SysExit c), fs)
    | Exc e => (Py (out ++ [(Stderr, Failed_to_update structs_h e)]) (SysExit 1), fs)
    | Ret h =>
    match new_decoders objects fs with
    | SysExit c => (Py (out ++ [(Stdout, Updated structs_h)]) (SysExit c),
                    <[structs_h := h]> fs)
    | Exc e => (Py (out ++ [(Stdout, Updated structs_h);
                            (Stderr, Failed_to_update decoders_c_file e)]) (SysExit 1),
                <[structs_h := h]> fs)
    | Ret c =>
    match py_res (lua_template objects) with
    | SysExit x => (Py (out ++ [(Stdout, Updated structs_h); (Stdout, Updated decoders_c_file);
                                (Stdout, Generating lua_c)]) (SysExit x),
                    <[decoders_c_file := c]> (<[structs_h := h]> fs))
    | Exc e => (Py (out ++ [(Stdout, Updated structs_h); (Stdout, Updated decoders_c_file);
                            (Stdout, Generating lua_c);
                            (Stdout, Failed_to_generate lua_c e)]) (SysExit 1),
                <[decoders_c_file := c]> (<[structs_h := h]> fs))
    | Ret l =>
    match py_res (json_template objects) with
    | SysExit x => (Py (out ++ [(Stdout, Updated structs_h); (Stdout, Updated decoders_c_file);
                                (Stdout, Generating lua_c); (Stdout, Generating json_c)])
                       (SysExit x),
                    <[lua_c := text_of (G_lua l)]>
                      (<[decoders_c_file := c]> (<[structs_h := h]> fs)))
    | Exc e => (Py (out ++ [(Stdout, Updated structs_h); (Stdout, Updated decoders_c_file);
                            (Stdout, Generating lua_c); (Stdout, Generating json_c);
                            (Stdout, Failed_to_generate json_c e)]) (SysExit 1),
                <[lua_c := text_of (G_lua l)]>
                  (<[decoders_c_file := c]> (<[structs_h := h]> fs)))
    | Ret j => (Py (out ++ [(Stdout, Updated structs_h); (Stdout, Updated decoders_c_file);
                            (Stdout, Generating lua_c); (Stdout, Generating json_c)])
                   (Ret tt),
                <[json_c := text_of (G_json j)]>
                  (<[lua_c := text_of (G_lua l)]>
                     (<[decoders_c_file := c]> (<[structs_h := h]> fs))))
    end end end end end.
Proof.
  destruct targets_distinct as (Hsd & _).
  cbv zeta. unfold main.
  destruct (py_res (load_objects definitions)) as [objects| c |e]; [|reflexivity ..].
  set (out := py_out (load_objects definitions)).
  rewrite and_then_run. cbn beta. unfold gen_object_structs.
  rewrite update_in_place_run by apply silent_tagged, silent_structs_template.
  fold (new_header objects fs).
  destruct (new_header objects fs) as [h| c |e]; cbn [fst snd py_out py_res];
    [|rewrite app_nil_r; reflexivity | reflexivity].
  rewrite and_then_run. cbn beta. unfold gen_object_decoders.
  rewrite update_in_place_run by apply silent_tagged, silent_decoders_template.
  rewrite new_text_insert_ne by exact Hsd.
  fold (new_decoders objects fs).
  destruct (new_decoders objects fs) as [c| x |e]; cbn [fst snd py_out py_res app];
    [|reflexivity ..].
  rewrite and_then_run. cbn beta.
  rewrite generate_run by apply silent_tagged, silent_lua_template.
  rewrite tagged_res.
  destruct (py_res (lua_template objects)) as [l| x |e]; cbn [fst snd py_out py_res app];
    [|reflexivity ..].
  rewrite and_then_run. cbn beta.
  rewrite generate_run by apply silent_tagged, silent_json_template.
  rewrite tagged_res.
  destruct (py_res (json_template objects)) as [j| x |e]; reflexivity.
Qed.





(** ** Bit-field groups in the record decoder *)

Lemma bstr8_line (f : yaml) (shift : Z) :
  supported_subfield f ->
  (if eq_int (jattr f "width") 1 then py_ret (Extract (render (jattr f "name")) shift 0x1)
   else if eq_int (jattr f "width") 2
        then py_ret (Extract (render (jattr f "name")) shift 0x3)
   else if eq_int (jattr f "width") 4
        then py_ret (Extract (render (jattr f "name")) shift 0xf)
   else if eq_int (jattr f "width") 7
        then py_ret (Extract (render (jattr f "name")) shift 0x7f)
   else (jfmt_d (jattr f "width");; py_raise (Unhandled_width (jattr f "width"))))
  = py_ret (Extract (render (jattr f "name")) shift (Z.ones (width_of f))).
Proof.
  intros (w & Hw & Hsup). unfold width_of. rewrite Hw.
  destruct Hsup as [-> | [-> | [-> | ->]]]; reflexivity.
Qed.

(** With an assignment that is kept for the next iteration the shifts add
    up. *)
Lemma bstr8_subfields_from {J : jinja2} (subs : list yaml) :
  set_in_loop = Kept_for_next_iteration ->
  Forall supported_subfield subs ->
  forall shift,
    bstr8_subfields shift subs
    = py_ret (imap (fun k f => Extract (render (jattr f "name"))
                                 (shift + widths_before k subs) (Z.ones (width_of f)))
                subs).
Proof.
  intros HJ.
  induction 1 as [|f subs Hf _ IH]; intros shift; [reflexivity|].
  cbn [bstr8_subfields]. cbv zeta. rewrite (bstr8_line f shift Hf).
  destruct Hf as (w & Hw & Hsup).
  assert (width_of f = w) as Hwf by (unfold width_of; rewrite Hw; reflexivity).
  rewrite Hw, HJ.
  rewrite py_bind_ret. cbn [py_num]. rewrite py_bind_ret, IH, py_bind_ret.
  rewrite imap_cons. apply (f_equal py_ret). apply (f_equal2 cons).
  - unfold widths_before. cbn. rewrite Z.add_0_r. reflexivity.
  - apply imap_ext. intros k g _. cbn. f_equal.
    unfold widths_before. cbn. rewrite Hwf. lia.
Qed.

(** With an assignment that is local to its iteration every line has the
    shift from before the loop. *)
Lemma bstr8_subfields_local {J : jinja2} (subs : list yaml) :
  set_in_loop = Local_to_iteration ->
  Forall supported_subfield subs ->
  forall shift,
    bstr8_subfields shift subs
    = py_ret (map (fun f => Extract (render (jattr f "name")) shift (Z.ones (width_of f)))
                subs).
Proof.
  intros HJ.
  induction 1 as [|f subs Hf _ IH]; intros shift; [reflexivity|].
  cbn [bstr8_subfields]. cbv zeta. rewrite (bstr8_line f shift Hf).
  destruct Hf as (w & Hw & Hsup).
  rewrite Hw, HJ.
  rewrite py_bind_ret. cbn [py_num]. rewrite py_bind_ret, IH, py_bind_ret.
  reflexivity.
Qed.

Lemma to_unsigned_land_ones (w x : Z) :
  0 <= w -> to_unsigned w (Z.land x (Z.ones w)) = Z.land x (Z.ones w).
Proof.
  intros Hw. unfold to_unsigned. rewrite Z.land_ones by exact Hw.
  apply Z.mod_mod. apply Z.pow_nonzero; lia.
Qed.

Lemma exec_extract_one (layout : list member) (octet : Z) (name : string)
    (shift w : Z) (obj : object_store) :
  member_type layout name = Some (uint8_bits (Some (YInt w))) ->
  0 < w <= 8 ->
  exec_extracts layout octet [Extract name shift (Z.ones w)] obj
  = Some (<[name := VInt (Z.land (Z.shiftr octet shift) (Z.ones w))]> obj).
Proof.
  intros Hty [Hlo Hhi]. cbn. unfold assign_member. rewrite Hty. cbn.
  assert ((0 <? w) && (w <=? 8) = true) as ->.
  { apply andb_true_intro. split; [apply Z.ltb_lt | apply Z.leb_le]; assumption. }
  cbn. rewrite to_unsigned_land_ones by lia. reflexivity.
Qed.

(** The object with subfields of 4 and 4 bits, run from schema to point on
    an arbitrary octet. *)
Lemma nibbles_run {J : jinja2} (b : byte) :
  Example.decode [Example.nibbles] 1 2 0 0 1 [b]
  = Some (Done (Decoded,
                Machine [] (Heap {[0%nat]} 1 999)
                  [Point 0
                     (<["hi" := VInt (Z.land
                                        (Z.shiftr (octet_value b)
                                           match set_in_loop with
                                           | Kept_for_next_iteration => 4
                                           | Local_to_iteration => 0
                                           end) 0xf)]>
                        (<["lo" := VInt (Z.land (octet_value b) 0xf)]> ∅))
                     0 0 0])).
Proof.
  unfold Example.decode.
  match goal with |- context [preprocess_all ?l] =>
    let v := eval vm_compute in (preprocess_all l) in change (preprocess_all l) with v
  end.
  cbn [py_res].
  match goal with |- context [structs_template ?l] =>
    let v := eval vm_compute in (structs_template l) in change (structs_template l) with v
  end.
  destruct J as [[|]]; cbn [set_in_loop].
  all: match goal with |- context [@decoders_template ?J ?l] =>
    let v := eval vm_compute in (@decoders_template J l) in
    change (@decoders_template J l) with v
  end.
  all: cbn [py_res]; f_equal.
  all: rewrite <- (Z.shiftr_0_r (octet_value b)) at 2.
  all: change 15 with (Z.ones 4).
  1: rewrite <- (to_unsigned_land_ones 4 (Z.shiftr (octet_value b) 4)) by lia.
  all: rewrite <- (to_unsigned_land_ones 4 (Z.shiftr (octet_value b) 0)) by lia.
  all: cbv -[octet_value]; reflexivity.
Qed.




(** ** Lengths taken from the prefix *)

Lemma dict_get_set_eq k v d : dict_get k (dict_set k v d) = Some v.
Proof.
  induction d as [|[k' v'] d IH]; simpl.
  - rewrite String.eqb_refl. reflexivity.
  - destruct (String.eqb k k') eqn:E; simpl; rewrite ?String.eqb_refl, ?E; auto.
Qed.

Lemma dict_get_set_ne k k' v d : k' <> k -> dict_get k' (dict_set k v d) = dict_get k' d.
Proof.
  intros Hne. induction d as [|[k0 v0] d IH]; simpl.
  - apply String.eqb_neq in Hne. rewrite Hne. reflexivity.
  - destruct (String.eqb k k0) eqn:E; simpl.
    + apply String.eqb_eq in E. subst k0.
      apply String.eqb_neq in Hne. rewrite Hne. reflexivity.
    + destruct (String.eqb k' k0); auto.
Qed.

(** One turn of the field loop of the validator either leaves the object as
    it is and goes on, or marks it and leaves the loop; it does the latter
    exactly for a field that sets len_from_prefix. *)
Lemma preprocess_field_ret field obj fl s :
  py_res (preprocess_field field obj) = Ret (fl, s) ->
  (jtruthy (jattr field "len_from_prefix") = true /\ fl = Break
     /\ s = dict_set "_track_offset" (YBool true) obj)
  \/ (jtruthy (jattr field "len_from_prefix") = false /\ fl = Continue /\ s = obj).
Proof.
  unfold preprocess_field. intros H.
  apply py_bind_res_ret in H as (fd & Hfd & H).
  destruct field; try discriminate. simpl in Hfd. inversion Hfd; subst fd. clear Hfd.
  apply py_bind_res_ret in H as (u & _ & H).
  assert (dict_has "len_from_prefix" entries
          && match dict_get "len_from_prefix" entries with
             | Some v => truthy v
             | None => false
             end = jtruthy (jattr (YMap entries) "len_from_prefix")) as Hcond.
  { unfold dict_has. simpl. destruct (dict_get "len_from_prefix" entries); reflexivity. }
  rewrite Hcond in H.
  destruct (jtruthy (jattr (YMap entries) "len_from_prefix")).
  - left. inversion H. auto.
  - right. apply py_bind_res_ret in H as (ty & _ & H).
    destruct (eq_str (Some ty) "bstr8").
    + apply py_bind_res_ret in H as (subs & _ & H).
      apply py_bind_res_ret in H as (subs' & _ & H).
      apply py_bind_res_ret in H as (width & _ & H).
      destruct (width =? 8); [|discriminate]. inversion H. auto.
    + inversion H. auto.
Qed.

Lemma preprocess_fields_marked fields obj obj' :
  py_res (py_for fields obj preprocess_field) = Ret obj' ->
  (exists field, In field fields /\ jtruthy (jattr field "len_from_prefix") = true) ->
  obj' = dict_set "_track_offset" (YBool true) obj.
Proof.
  induction fields as [|f fields IH]; intros H (field & Hin & Ht); [destruct Hin|].
  simpl in H. apply py_bind_res_ret in H as ([fl s] & Hf & H).
  apply preprocess_field_ret in Hf as [(_ & -> & ->) | (Hfalse & -> & ->)]; simpl in H.
  - inversion H. reflexivity.
  - apply IH; [exact H|]. destruct Hin as [-> | Hin]; [congruence|].
    exists field. auto.
Qed.

Lemma preprocess_fields_kept fields obj obj' :
  py_res (py_for fields obj preprocess_field) = Ret obj' ->
  obj' = obj \/ obj' = dict_set "_track_offset" (YBool true) obj.
Proof.
  revert obj. induction fields as [|f fields IH]; intros obj H; simpl in H.
  - inversion H. auto.
  - apply py_bind_res_ret in H as ([fl s] & Hf & H).
    apply preprocess_field_ret in Hf as [(_ & -> & ->) | (Hfalse & -> & ->)]; simpl in H.
    + inversion H. auto.
    + apply IH. exact H.
Qed.

(** What the validator returns: nothing for an object marked unimplemented,
    and otherwise the object itself, marked or not. *)
Lemma preprocess_object_ret obj r :
  py_res (preprocess_object obj) = Ret r ->
  (dict_has "unimplemented" obj = true /\ r = None)
  \/ (dict_has "unimplemented" obj = false
      /\ exists fields,
           (dict_get "fields" obj ≫= fun v => match py_res (py_iter v) with
                                               | Ret l => Some l
                                               | _ => None
                                               end) = Some fields
           /\ exists obj',
                r = Some obj'
                /\ py_res (py_for fields obj preprocess_field) = Ret obj'
                /\ (obj' = obj \/ obj' = dict_set "_track_offset" (YBool true) obj)).
Proof.
  unfold preprocess_object. destruct (dict_has "unimplemented" obj).
  - intros H. left. split; [reflexivity|].
    apply py_bind_res_ret in H as (g & _ & H).
    apply py_bind_res_ret in H as (v & _ & H).
    apply py_bind_res_ret in H as (why & _ & H).
    apply py_bind_res_ret in H as (u & _ & H). inversion H. reflexivity.
  - intros H. right. split; [reflexivity|].
    apply py_bind_res_ret in H as (u & _ & H).
    apply py_bind_res_ret in H as (fv & Hfv & H).
    apply py_bind_res_ret in H as (fields & Hfields & H).
    apply py_bind_res_ret in H as (obj' & Hfor & H).
    exists fields. split.
    + unfold py_item in Hfv. destruct (dict_get "fields" obj); [|discriminate].
      inversion Hfv; subst. simpl. rewrite Hfields. reflexivity.
    + exists obj'. inversion H. split; [reflexivity|]. split; [exact Hfor|].
      apply preprocess_fields_kept in Hfor. exact Hfor.
Qed.

Lemma wrap32_small z : 0 <= z < 2 ^ 32 -> wrap32 z = z.
Proof. intros H. unfold wrap32, to_unsigned. apply Z.mod_small. exact H. Qed.

Lemma wrap32_idem (z : Z) : wrap32 (wrap32 z) = wrap32 z.
Proof. unfold wrap32, to_unsigned. apply Zmod_mod. Qed.

Lemma to_unsigned_16_wrap32 (z : Z) : to_unsigned 16 z = to_unsigned 16 (wrap32 z).
Proof.
  unfold wrap32, to_unsigned. symmetry. apply Z.mod_mod_divide.
  exists (2 ^ 16). reflexivity.
Qed.

Lemma wrap32_add_wrap32_l (a b : Z) : wrap32 (wrap32 a + b) = wrap32 (a + b).
Proof. unfold wrap32, to_unsigned. apply Zplus_mod_idemp_l. Qed.

Lemma wrap32_sub_wrap32_l (a b : Z) : wrap32 (wrap32 a - b) = wrap32 (a - b).
Proof. unfold wrap32, to_unsigned. apply Zminus_mod_idemp_l. Qed.

Lemma wrap32_sub_wrap32_r (a b : Z) : wrap32 (a - wrap32 b) = wrap32 (a - b).
Proof. unfold wrap32, to_unsigned. apply Zminus_mod_idemp_r. Qed.

(** The assignment [object->len_field = prefix - (offset - *len)], when
    [consumed] bytes were read since the snapshot: the difference is taken in
    uint32_t and converted to the type of the member. *)
Lemma exec_len_from_prefix (uint_of_bytes : list byte -> Z) (layout : list member)
    (prefix consumed : Z) (len_field : string) (f : frame) :
  exec_stmt uint_of_bytes layout prefix (Some (Z.of_nat (length (f_buf f)) + consumed))
    (Len_from_prefix len_field) f
  = match member_type layout len_field ≫= (fun t => assign_int t (wrap32 (prefix - consumed)))
    with
    | Some z => Done (Next (Frame (f_buf f) (f_mem f)
                              (<[len_field := VInt z]> (f_object f))))
    | None => Ill_formed
    end.
Proof.
  cbn [exec_stmt].
  replace (Z.of_nat (length (f_buf f)) + consumed - Z.of_nat (length (f_buf f)))
    with consumed by lia.
  rewrite wrap32_sub_wrap32_r. unfold assign_member.
  destruct (member_type layout len_field) as [t|]; cbn; [|reflexivity].
  destruct (assign_int t (wrap32 (prefix - consumed))); reflexivity.
Qed.

(** ... when the difference is one the member can hold *)
Lemma exec_len_from_prefix_fits (uint_of_bytes : list byte -> Z) (layout : list member)
    (prefix snapshot consumed : Z) (len_field : string) (t : ctype) (f : frame) :
  member_type layout len_field = Some t ->
  0 <= consumed <= prefix -> prefix < 2 ^ 32 ->
  snapshot = Z.of_nat (length (f_buf f)) + consumed ->
  assign_int t (prefix - consumed) = Some (prefix - consumed) ->
  exec_stmt uint_of_bytes layout prefix (Some snapshot) (Len_from_prefix len_field) f
  = Done (Next (Frame (f_buf f) (f_mem f)
                  (<[len_field := VInt (prefix - consumed)]> (f_object f)))).
Proof.
  intros Hty Hc Hp -> Hfit. rewrite exec_len_from_prefix, Hty. cbn.
  rewrite (wrap32_small (prefix - consumed)) by lia. rewrite Hfit. reflexivity.
Qed.

(** The byte-array branch, by the length its member holds. *)
Lemma exec_read_bytearray_cases (uint_of_bytes : list byte -> Z) (layout : list member)
    (prefix : Z) (offset : option Z) (dst len_field : string) (f : frame)
    (n : Z) (p : nat) (h' : heap) :
  is_int_member layout len_field = true ->
  load_int (f_object f) len_field = n ->
  SCCalloc (f_mem f) = Some (p, h') ->
  exec_stmt uint_of_bytes layout prefix offset (Read_bytearray dst len_field) f
  = if 0 <? n then
      if Z.of_nat (length (f_buf f)) <? n then Done (Goto_error f)
      else Done (Next (Frame (drop (Z.to_nat n) (f_buf f)) h'
                         (<[dst := VBytes p (take (Z.to_nat n) (f_buf f))]> (f_object f))))
    else Done (Next f).
Proof.
  intros Hint Hn Halloc. cbn [exec_stmt]. rewrite Hint, Hn, Halloc. cbn [negb].
  unfold memcpy_from_buf.
  destruct (0 <? n); [|reflexivity].
  destruct (Z.of_nat (length (f_buf f)) <? n); reflexivity.
Qed.

Lemma exec_read_uint8 (uint_of_bytes : list byte -> Z) (layout : list member)
    (prefix : Z) (offset : option Z) (dst : string) (o : byte) (rest : list byte)
    (h : heap) (obj : object_store) :
  exec_stmt uint_of_bytes layout prefix offset (Read S_uint8 dst) (Frame (o :: rest) h obj)
  = Done (Next (Frame rest h (<[dst := VInt (octet_value o)]> obj))).
Proof. reflexivity. Qed.

Ltac enter_record_decoder Hr Hfn structs c fn :=
  vm_compute in Hr; inversion Hr; subst structs c; clear Hr;
  simpl in Hfn; inversion Hfn; subst fn; clear Hfn;
  unfold run_decoder;
  cbn [find fn_struct s_name String.eqb Ascii.eqb Bool.eqb s_members fn_body];
  unfold run_records; cbn [rd_constraints check_constraints];
  change (Z.to_nat 1) with 1%nat;
  cbn [record_loop Example.fresh mem SCCalloc avail next live buf points].

(** A byte array that is the whole record, behind a prefix of [p]: the
    length is [p] as the uint16_t member holds it. *)
Lemma prefixed_bytes_run {J : jinja2} RP IS U pc start b p data structs c fn :
  Example.rendered [Example.prefixed_bytes] = Some (structs, c) ->
  decoders c = [fn] ->
  RP pc b = Some (p, data) ->
  let n := to_unsigned 16 p in
  let r := run_decoder RP IS U structs fn pc start 1 (Example.fresh b) in
  (n = 0 ->
     exists h, r = Done (1, Machine data h
                            [Point 0 (<["n" := VInt 0]> ∅) (wrap32 start) pc (wrap32 p)]))
  /\ (Z.of_nat (length data) < n -> exists h, r = Done (0, Machine data h []))
  /\ (0 < n <= Z.of_nat (length data) ->
     exists h,
       r = Done (1, Machine (drop (Z.to_nat n) data) h
                      [Point 0 (<["data" := VBytes 1 (take (Z.to_nat n) data)]>
                                  (<["n" := VInt n]> ∅))
                         (wrap32 start) pc (wrap32 p)])).
Proof.
  intros Hr Hfn HRP n r. subst r. enter_record_decoder Hr Hfn structs c fn.
  rewrite HRP. cbn [rd_track_offset rd_body exec_stmts].
  match goal with |- context [exec_stmt ?U ?l ?q (Some ?o) (Len_from_prefix ?x) ?f] =>
    replace o with (Z.of_nat (length (f_buf f)) + 0) by (cbn [f_buf]; lia);
    rewrite (exec_len_from_prefix U l q 0 x f)
  end.
  rewrite Z.sub_0_r, wrap32_idem.
  change (member_type _ "n" ≫= _) with (Some (to_unsigned 16 (wrap32 p))).
  rewrite <- to_unsigned_16_wrap32. fold n.
  cbn [f_buf f_mem f_object].
  erewrite (exec_read_bytearray_cases U _ _ _ "data" "n" _ n 1%nat); cycle 1.
  { reflexivity. }
  { cbn [f_object]. unfold load_int. rewrite lookup_insert_eq. reflexivity. }
  { reflexivity. }
  cbn [f_buf f_mem f_object].
  split; [|split].
  - intros ->. cbn. eexists. reflexivity.
  - intros Hlt. assert (0 < n) by lia.
    assert ((0 <? n) = true) as -> by (apply Z.ltb_lt; lia).
    assert ((Z.of_nat (length data) <? n) = true) as -> by (apply Z.ltb_lt; lia).
    cbn. eexists. reflexivity.
  - intros [Hpos Hle].
    assert ((0 <? n) = true) as -> by (apply Z.ltb_lt; lia).
    assert ((Z.of_nat (length data) <? n) = false) as -> by (apply Z.ltb_ge; lia).
    cbn. eexists. reflexivity.
Qed.

(** The same behind one octet: the length is [p - 1] as uint32_t and
    uint16_t hold it. *)
Lemma octet_then_prefixed_bytes_run {J : jinja2} RP IS U pc start b p k data structs c fn :
  Example.rendered [Example.octet_then_prefixed_bytes] = Some (structs, c) ->
  decoders c = [fn] ->
  RP pc b = Some (p, k :: data) ->
  let n := to_unsigned 16 (p - 1) in
  let r := run_decoder RP IS U structs fn pc start 1 (Example.fresh b) in
  (n = 0 ->
     exists h, r = Done (1, Machine data h
                            [Point 0 (<["n" := VInt 0]>
                                        (<["kind" := VInt (octet_value k)]> ∅))
                               (wrap32 start) pc (wrap32 p)]))
  /\ (Z.of_nat (length data) < n -> exists h, r = Done (0, Machine data h []))
  /\ (0 < n <= Z.of_nat (length data) ->
     exists h,
       r = Done (1, Machine (drop (Z.to_nat n) data) h
                      [Point 0 (<["data" := VBytes 1 (take (Z.to_nat n) data)]>
                                  (<["n" := VInt n]>
                                     (<["kind" := VInt (octet_value k)]> ∅)))
                         (wrap32 start) pc (wrap32 p)])).
Proof.
  intros Hr Hfn HRP n r. subst r. enter_record_decoder Hr Hfn structs c fn.
  rewrite HRP. cbn [rd_track_offset rd_body exec_stmts].
  rewrite exec_read_uint8. cbn [length].
  match goal with |- context [exec_stmt ?U ?l ?q (Some ?o) (Len_from_prefix ?x) ?f] =>
    replace o with (Z.of_nat (length (f_buf f)) + 1) by (cbn [f_buf length]; lia);
    rewrite (exec_len_from_prefix U l q 1 x f)
  end.
  rewrite wrap32_sub_wrap32_l.
  change (member_type _ "n" ≫= _) with (Some (to_unsigned 16 (wrap32 (p - 1)))).
  rewrite <- to_unsigned_16_wrap32. fold n.
  cbn [f_buf f_mem f_object].
  erewrite (exec_read_bytearray_cases U _ _ _ "data" "n" _ n 1%nat); cycle 1.
  { reflexivity. }
  { cbn [f_object]. unfold load_int. rewrite lookup_insert_eq. reflexivity. }
  { reflexivity. }
  cbn [f_buf f_mem f_object].
  split; [|split].
  - intros ->. cbn. eexists. reflexivity.
  - intros Hlt. assert (0 < n) by lia.
    assert ((0 <? n) = true) as -> by (apply Z.ltb_lt; lia).
    assert ((Z.of_nat (length data) <? n) = true) as -> by (apply Z.ltb_lt; lia).
    cbn. eexists. reflexivity.
  - intros [Hpos Hle].
    assert ((0 <? n) = true) as -> by (apply Z.ltb_lt; lia).
    assert ((Z.of_nat (length data) <? n) = false) as -> by (apply Z.ltb_ge; lia).
    cbn. eexists. reflexivity.
Qed.

(** An object that passes the validator with a field that sets
    len_from_prefix comes out marked, and the record decoder rendered for it
    declares and takes the snapshot. *)
Lemma validated_object_tracks_offset {J : jinja2} obj obj' fields field :
  py_res (preprocess_object obj) = Ret (Some obj') ->
  dict_get "fields" obj = Some (YSeq fields) ->
  In field fields ->
  jtruthy (jattr field "len_from_prefix") = true ->
  jattr (YMap obj') "_track_offset" = Some (YBool true)
  /\ forall fns,
       jtruthy (jattr (YMap obj') "packed") = false ->
       py_res (decoder_object (YMap obj')) = Ret fns ->
       exists cs body,
         fns = [Decoder_fn (decoder_name (YMap obj')) (struct_name (YMap obj'))
                  (Records (Record_decoder true cs body))].
Proof.
  intros Hpre Hfields Hin Ht.
  apply preprocess_object_ret in Hpre as [[_ Hnone] | (_ & fields' & Hf & o & Ho & Hfor & _)];
    [discriminate|].
  inversion Ho; subst o. clear Ho.
  rewrite Hfields in Hf. simpl in Hf. inversion Hf; subst fields'. clear Hf.
  apply preprocess_fields_marked in Hfor; [|exists field; auto].
  assert (jattr (YMap obj') "_track_offset" = Some (YBool true)) as Hmark.
  { subst obj'. simpl. apply dict_get_set_eq. }
  split; [exact Hmark|].
  intros fns Hpacked Hfns. unfold decoder_object in Hfns. rewrite Hpacked in Hfns.
  apply py_bind_res_ret in Hfns as (cs & _ & Hfns).
  apply py_bind_res_ret in Hfns as (fs & _ & Hfns).
  apply py_bind_res_ret in Hfns as (body & _ & Hfns).
  rewrite Hmark in Hfns. simpl in Hfns. inversion Hfns.
  exists cs, body. reflexivity.
Qed.

(** C7, as amended.  A byte-array or text field that sets len_from_prefix
    renders the assignment [len_field = prefix - (offset - *len)] in front of
    its read, and a validated object with such a field renders a record
    decoder that takes the snapshot [offset = *len] behind the prefix.  When
    [consumed] bytes were read since the snapshot, the assignment stores
    [prefix - consumed] reduced modulo 2^32 and converted to the type of the
    length member; that is [prefix - consumed] itself when the difference is
    not negative and the member can hold it.  A record that is one such byte
    array with a uint16_t length member, behind a decoded prefix of [p], takes
    [p mod 2^16] as its length: a length of 0 reads nothing, one that exceeds
    the bytes left makes the decoder return 0, and otherwise the point holds
    that many bytes and the cursor stands behind them; behind one octet the
    length is [(p - 1) mod 2^16].  With prefix 5 and five bytes the length
    member is 5 and nothing remains.  A prefix of 65541 gives the length 5
    as well, and a prefix of 0 behind one octet the length 65535. *)
Theorem len_from_prefix_is_prefix_minus_consumed {J : jinja2} :
  (forall object field,
     jtruthy (jattr field "len_from_prefix") = true ->
     let name := render (jattr field "name") in
     let len_field := render (jattr field "len_field") in
     (eq_str (jattr field "type") "bytearray" = true ->
        decoder_field object field
        = py_ret [Len_from_prefix len_field; Read_bytearray name len_field])
     /\ (eq_str (jattr field "type") "chararray" = true ->
        decoder_field object field
        = py_ret [Len_from_prefix len_field; Read_chararray name len_field]))
  /\ (forall obj obj' fields field,
        py_res (preprocess_object obj) = Ret (Some obj') ->
        dict_get "fields" obj = Some (YSeq fields) ->
        In field fields ->
        jtruthy (jattr field "len_from_prefix") = true ->
        jattr (YMap obj') "_track_offset" = Some (YBool true)
        /\ forall fns,
             jtruthy (jattr (YMap obj') "packed") = false ->
             py_res (decoder_object (YMap obj')) = Ret fns ->
             exists cs body,
               fns = [Decoder_fn (decoder_name (YMap obj')) (struct_name (YMap obj'))
                        (Records (Record_decoder true cs body))])
  /\ (forall uint_of_bytes layout prefix consumed len_field f,
        exec_stmt uint_of_bytes layout prefix
          (Some (Z.of_nat (length (f_buf f)) + consumed)) (Len_from_prefix len_field) f
        = match member_type layout len_field
                ≫= (fun t => assign_int t (wrap32 (prefix - consumed))) with
          | Some z => Done (Next (Frame (f_buf f) (f_mem f)
                                    (<[len_field := VInt z]> (f_object f))))
          | None => Ill_formed
          end)
  /\ (forall uint_of_bytes layout prefix snapshot consumed len_field t f,
        member_type layout len_field = Some t ->
        0 <= consumed <= prefix -> prefix < 2 ^ 32 ->
        snapshot = Z.of_nat (length (f_buf f)) + consumed ->
        assign_int t (prefix - consumed) = Some (prefix - consumed) ->
        exec_stmt uint_of_bytes layout prefix (Some snapshot) (Len_from_prefix len_field) f
        = Done (Next (Frame (f_buf f) (f_mem f)
                        (<[len_field := VInt (prefix - consumed)]> (f_object f)))))
  /\ (forall RP IS U pc start b p data structs c fn,
        Example.rendered [Example.prefixed_bytes] = Some (structs, c) ->
        decoders c = [fn] ->
        RP pc b = Some (p, data) ->
        let n := to_unsigned 16 p in
        let r := run_decoder RP IS U structs fn pc start 1 (Example.fresh b) in
        (n = 0 ->
           exists h, r = Done (1, Machine data h
                                  [Point 0 (<["n" := VInt 0]> ∅)
                                     (wrap32 start) pc (wrap32 p)]))
        /\ (Z.of_nat (length data) < n -> exists h, r = Done (0, Machine data h []))
        /\ (0 < n <= Z.of_nat (length data) ->
           exists h,
             r = Done (1, Machine (drop (Z.to_nat n) data) h
                            [Point 0 (<["data" := VBytes 1 (take (Z.to_nat n) data)]>
                                        (<["n" := VInt n]> ∅))
                               (wrap32 start) pc (wrap32 p)])))
  /\ (forall RP IS U pc start b p k data structs c fn,
        Example.rendered [Example.octet_then_prefixed_bytes] = Some (structs, c) ->
        decoders c = [fn] ->
        RP pc b = Some (p, k :: data) ->
        let n := to_unsigned 16 (p - 1) in
        let r := run_decoder RP IS U structs fn pc start 1 (Example.fresh b) in
        (n = 0 ->
           exists h, r = Done (1, Machine data h
                                  [Point 0 (<["n" := VInt 0]>
                                              (<["kind" := VInt (octet_value k)]> ∅))
                                     (wrap32 start) pc (wrap32 p)]))
        /\ (Z.of_nat (length data) < n -> exists h, r = Done (0, Machine data h []))
        /\ (0 < n <= Z.of_nat (length data) ->
           exists h,
             r = Done (1, Machine (drop (Z.to_nat n) data) h
                            [Point 0 (<["data" := VBytes 1 (take (Z.to_nat n) data)]>
                                        (<["n" := VInt n]>
                                           (<["kind" := VInt (octet_value k)]> ∅)))
                               (wrap32 start) pc (wrap32 p)])))
  /\ summary (Example.decode [Example.prefixed_bytes] 70 5 4 0 1
                [x05; x0a; x0b; x0c; x0d; x0e])
     = Some (Decoded, [], 1%nat, [])
  /\ Example.members (Example.decode [Example.prefixed_bytes] 70 5 4 0 1
                        [x05; x0a; x0b; x0c; x0d; x0e]) ["n"]
     = [[5]]
  /\ (forall U (f : frame),
        exec_stmt U [Member uint16_t "n"] 65541 (Some (Z.of_nat (length (f_buf f)) + 0))
          (Len_from_prefix "n") f
        = Done (Next (Frame (f_buf f) (f_mem f) (<["n" := VInt 5]> (f_object f))))
        /\ exec_stmt U [Member uint16_t "n"] 0 (Some (Z.of_nat (length (f_buf f)) + 1))
             (Len_from_prefix "n") f
           = Done (Next (Frame (f_buf f) (f_mem f) (<["n" := VInt 65535]> (f_object f))))).
Proof.
  split; [|split; [|split; [|split; [|split; [|split; [|split; [|split]]]]]]].
  - intros object field Ht name len_field. unfold decoder_field.
    fold name. fold len_field. rewrite Ht.
    split; intros H; apply eq_str_true in H; rewrite H; reflexivity.
  - exact validated_object_tracks_offset.
  - exact exec_len_from_prefix.
  - exact exec_len_from_prefix_fits.
  - exact prefixed_bytes_run.
  - exact octet_then_prefixed_bytes_run.
  - vm_compute. reflexivity.
  - vm_compute. reflexivity.
  - intros U f. rewrite !exec_len_from_prefix. split; reflexivity.
Qed.

(** C7, the code as it is.  The length is not the prefix less the bytes
    consumed when that difference is negative or more than the length member
    holds: behind a four-octet prefix of 65541 the decoder takes five bytes
    for the byte array, stores 5 and returns 1; with a prefix of 0 behind one
    octet it stores 65535. *)
Lemma length_is_the_difference_modulo_the_member :
  (forall J : jinja2,
     Example.members
       (match Example.rendered (J := J) [Example.prefixed_bytes] with
        | Some (structs, c) =>
            Some (DNP3DecodeObject Example.read_prefix4 Example.prefix_is_size
                    Example.little_endian Example.object_code structs c 70 5 6 0 1
                    (Example.fresh [x05; x00; x01; x00; x0a; x0b; x0c; x0d; x0e; xff]))
        | None => None
        end) ["n"] = [[5]])
  /\ exec_stmt Example.little_endian [Member uint8_t "kind"; Member uint16_t "n"] 0 (Some 4)
       (Len_from_prefix "n") (Frame [x01; x02; x03] (Heap ∅ 0 10) ∅)
     = Done (Next (Frame [x01; x02; x03] (Heap ∅ 0 10) (<["n" := VInt 65535]> ∅))).
Proof. split; [intros J|]; vm_compute; reflexivity. Qed.

Lemma len_from_prefix_is_prefix_minus_consumed_witness :
  decoder_field (J := Example.jinja2_8) (YMap Example.prefixed_bytes)
    (Example.field "bytearray" "data" [("len_from_prefix", YBool true);
                                       ("len_field", YStr "n")])
    = py_ret [Len_from_prefix "n"; Read_bytearray "data" "n"]
  /\ jattr (YMap (dict_set "_track_offset" (YBool true) Example.prefixed_bytes))
       "_track_offset" = Some (YBool true)
  /\ exec_stmt Example.little_endian [Member uint16_t "n"] 5 (Some 7)
       (Len_from_prefix "n") (Frame [x01; x02; x03] (Heap ∅ 0 10) ∅)
     = Done (Next (Frame [x01; x02; x03] (Heap ∅ 0 10) (<["n" := VInt (5 - 4)]> ∅)))
  /\ (exists h,
        run_decoder Example.read_prefix Example.prefix_is_size Example.little_endian
          [Struct "DNP3ObjectG70V5" [Member uint8_ptr "data"; Member uint16_t "n"]]
          (Decoder_fn "DNP3DecodeObjectG70V5" "DNP3ObjectG70V5"
             (Records (Record_decoder true []
                         [Len_from_prefix "n"; Read_bytearray "data" "n"])))
          4 0 1 (Example.fresh [x05; x0a; x0b; x0c; x0d; x0e])
        = Done (1, Machine (drop (Z.to_nat (to_unsigned 16 5)) [x0a; x0b; x0c; x0d; x0e]) h
                     [Point 0 (<["data" := VBytes 1 (take (Z.to_nat (to_unsigned 16 5))
                                                       [x0a; x0b; x0c; x0d; x0e])]>
                                 (<["n" := VInt (to_unsigned 16 5)]> ∅))
                        (wrap32 0) 4 (wrap32 5)])).
Proof.
  destruct (len_from_prefix_is_prefix_minus_consumed (J := Example.jinja2_8))
    as (Hlines & Hmark & _ & Hassign & Hrun & _).
  split; [|split; [|split]].
  - apply (Hlines (YMap Example.prefixed_bytes)
             (Example.field "bytearray" "data" [("len_from_prefix", YBool true);
                                                ("len_field", YStr "n")]));
      reflexivity.
  - apply (Hmark Example.prefixed_bytes _
             [Example.field "bytearray" "data" [("len_from_prefix", YBool true);
                                                ("len_field", YStr "n")]]
             (Example.field "bytearray" "data" [("len_from_prefix", YBool true);
                                                ("len_field", YStr "n")]));
      [vm_compute; reflexivity | reflexivity | left; reflexivity | reflexivity].
  - apply (Hassign Example.little_endian [Member uint16_t "n"] 5 7 4 "n" uint16_t);
      [reflexivity | lia | lia | reflexivity | reflexivity].
  - destruct (Example.rendered (J := Example.jinja2_8) [Example.prefixed_bytes])
      as [[structs c]|] eqn:Hr; [|vm_compute in Hr; discriminate Hr].
    assert (structs = [Struct "DNP3ObjectG70V5"
                         [Member uint8_ptr "data"; Member uint16_t "n"]]) as Hstructs
      by (vm_compute in Hr; inversion Hr; reflexivity).
    destruct (Hrun Example.read_prefix Example.prefix_is_size Example.little_endian
                4 0 [x05; x0a; x0b; x0c; x0d; x0e] 5 [x0a; x0b; x0c; x0d; x0e]
                structs c
                (Decoder_fn "DNP3DecodeObjectG70V5" "DNP3ObjectG70V5"
                   (Records (Record_decoder true []
                               [Len_from_prefix "n"; Read_bytearray "data" "n"])))
                eq_refl) as (_ & _ & Hfull).
    { vm_compute in Hr. inversion Hr. reflexivity. }
    { reflexivity. }
    rewrite <- Hstructs. apply Hfull. vm_compute. split; [reflexivity | discriminate].
Defined.

(** ** The decode switch *)

Lemma split_at_char c a a' b b' :
  has_char c a = false -> has_char c a' = false ->
  a +:+ String c b = a' +:+ String c b' -> a = a' /\ b = b'.
Proof.
  revert a'. induction a as [|x a IH]; intros [|x' a'] Ha Ha' H; simpl in *.
  - inversion H. auto.
  - inversion H; subst x'. rewrite Ascii.eqb_refl in Ha'. discriminate.
  - inversion H; subst x. rewrite Ascii.eqb_refl in Ha. discriminate.
  - inversion H; subst x'. apply orb_false_elim in Ha as [_ Ha].
    apply orb_false_elim in Ha' as [_ Ha'].
    destruct (IH a' Ha Ha' H2) as [-> ->]. auto.
Qed.

Lemma pretty_N_char_not_V (n : N) : Ascii.eqb "V" (pretty_N_char n) = false.
Proof.
  unfold pretty_N_char. destruct n as [|p]; [reflexivity|].
  repeat (try reflexivity;
          match goal with
          | |- context [match ?q with _ => _ end] => is_var q; destruct q
          end).
Qed.

Lemma pretty_N_go_no_V x s : has_char "V" s = false -> has_char "V" (pretty_N_go x s) = false.
Proof.
  revert s. induction (N.lt_wf_0 x) as [x _ IH]; intros s Hs.
  assert (x = 0 ∨ 0 < x)%N as [->|?] by lia.
  - rewrite pretty_N_go_0. exact Hs.
  - rewrite pretty_N_go_step by done. apply IH.
    { by apply N.div_lt. }
    cbn [has_char]. rewrite Hs, pretty_N_char_not_V. reflexivity.
Qed.

Lemma pretty_Z_no_V (z : Z) : has_char "V" (pretty z) = false.
Proof.
  assert (forall n : N, has_char "V" (pretty n) = false) as HN.
  { intros n. unfold pretty, pretty_N. case_decide; [reflexivity|].
    apply pretty_N_go_no_V. reflexivity. }
  destruct z as [|p|p]; [reflexivity | apply (HN (N.pos p)) |].
  change (pretty (Z.neg p)) with ("-" +:+ pretty (N.pos p)).
  simpl. apply (HN (N.pos p)).
Qed.

Lemma c_literal_some u z : c_literal u = Some z -> u = Some (YInt z).
Proof. destruct u as [[]|]; simpl; congruence. Qed.

Lemma decoder_name_inj o o' g v g' v' :
  jattr o "group" = Some (YInt g) -> jattr o "variation" = Some (YInt v) ->
  jattr o' "group" = Some (YInt g') -> jattr o' "variation" = Some (YInt v') ->
  decoder_name o = decoder_name o' -> g = g' /\ v = v'.
Proof.
  intros Hg Hv Hg' Hv'. unfold decoder_name, object_suffix.
  rewrite Hg, Hv, Hg', Hv'. cbn [render py_repr]. intros H.
  cbn in H. inversion H as [H']. clear H.
  apply split_at_char in H' as [H1 H2]; try apply pretty_Z_no_V.
  split; eapply (inj pretty); assumption.
Qed.

Lemma render_each_in {A B} (l : list A) (body : A -> py (list B)) out :
  py_res (render_each l body) = Ret out ->
  (forall y, In y out -> exists x here, In x l /\ py_res (body x) = Ret here /\ In y here)
  /\ (forall x, In x l -> exists here, py_res (body x) = Ret here /\ forall y, In y here -> In y out).
Proof.
  revert out. induction l as [|x l IH]; intros out H; simpl in H.
  - inversion H. split; [intros y []| intros x []].
  - apply py_bind_res_ret in H as (here & Hhere & H).
    apply py_bind_res_ret in H as (rest & Hrest & H).
    inversion H; subst out. clear H. destruct (IH rest Hrest) as [IH1 IH2]. split.
    + intros y Hy. apply in_app_or in Hy as [Hy | Hy].
      * exists x, here. simpl. auto.
      * destruct (IH1 y Hy) as (x' & here' & Hx' & Hb & Hy'). exists x', here'. simpl. auto.
    + intros x' [<- | Hx'].
      * exists here. split; [exact Hhere|]. intros y Hy. apply in_or_app. auto.
      * destruct (IH2 x' Hx') as (here' & Hb & Hsub). exists here'. split; [exact Hb|].
        intros y Hy. apply in_or_app. auto.
Qed.

Lemma decoder_object_shape {J : jinja2} o fns :
  py_res (decoder_object o) = Ret fns ->
  exists body, fns = [Decoder_fn (decoder_name o) (struct_name o) body].
Proof.
  unfold decoder_object. destruct (jtruthy (jattr o "packed")); intros H.
  - apply py_bind_res_ret in H as (first & _ & H).
    apply py_bind_res_ret in H as (width & _ & H).
    apply py_bind_res_ret in H as (name & _ & H).
    inversion H. eexists. reflexivity.
  - apply py_bind_res_ret in H as (cs & _ & H).
    apply py_bind_res_ret in H as (fields & _ & H).
    apply py_bind_res_ret in H as (body & _ & H).
    inversion H. eexists. reflexivity.
Qed.

Lemma mapM_nodup_inj {A B} (f : A -> option B) (l : list A) (ls : list B) x y :
  mapM f l = Some ls -> NoDup ls -> In x l -> In y l -> f x = f y -> x = y.
Proof.
  rewrite mapM_Some. intros H. induction H as [|a b l ls Hab H IH]; intros Hnd Hx Hy Hf.
  - destruct Hx.
  - apply NoDup_cons in Hnd as [Hnotin Hnd].
    assert (forall z, In z l -> f z = Some b -> False) as Hfresh.
    { intros z Hz Hfz. apply Hnotin. clear -H Hz Hfz.
      induction H as [|a' b' l ls Hab' H IH]; [destruct Hz|].
      destruct Hz as [<- | Hz].
      - rewrite Hab' in Hfz. inversion Hfz. left.
      - right. apply IH. exact Hz. }
    destruct Hx as [<- | Hx], Hy as [<- | Hy].
    + reflexivity.
    + exfalso. apply (Hfresh y Hy). rewrite <- Hf. exact Hab.
    + exfalso. apply (Hfresh x Hx). rewrite Hf. exact Hab.
    + apply IH; assumption.
Qed.

Lemma find_unique {A} (P : A -> bool) (l : list A) (x : A) :
  In x l -> P x = true -> (forall y, In y l -> P y = true -> y = x) -> find P l = Some x.
Proof.
  induction l as [|a l IH]; intros Hin HP Huniq; [destruct Hin|].
  simpl. destruct (P a) eqn:E.
  - f_equal. apply Huniq; [left; reflexivity | exact E].
  - destruct Hin as [-> | Hin]; [congruence|].
    apply IH; auto. intros y Hy. apply Huniq. right. exact Hy.
Qed.

Lemma find_none {A} (P : A -> bool) (l : list A) :
  (forall y, In y l -> P y = false) -> find P l = None.
Proof.
  induction l as [|a l IH]; intros H; [reflexivity|].
  simpl. rewrite (H a) by (left; reflexivity). apply IH. intros y Hy. apply H. right. exact Hy.
Qed.

Lemma mapM_map {A B C} (f : B -> option C) (g : A -> B) (l : list A) :
  mapM f (map g l) = mapM (fun x => f (g x)) l.
Proof. induction l as [|x l IH]; [reflexivity|]. cbn. rewrite IH. reflexivity. Qed.

Lemma decoders_template_cases {J : jinja2} objects c :
  py_res (decoders_template objects) = Ret c ->
  decode_cases c = map case_of objects
  /\ py_res (render_each objects decoder_object) = Ret (decoders c).
Proof.
  unfold decoders_template. intros H.
  apply py_bind_res_ret in H as (fns & Hfns & H).
  apply py_bind_res_ret in H as (frees & _ & H).
  apply py_bind_res_ret in H as (cases & Hcases & H).
  inversion H; subst c. clear H. simpl. split; [|exact Hfns].
  unfold dispatch_object in Hcases.
  rewrite (render_each_pure case_of) in Hcases. inversion Hcases. reflexivity.
Qed.

Section Dispatch.

Variable RP : Z -> list byte -> option (Z * list byte).
Variable IS : Z -> bool.
Variable U : list byte -> Z.
Variable CODE : Z -> Z -> Z.

Let label (dc : decode_case) : option Z := case_label CODE (dc_group dc) (dc_variation dc).

Lemma switch_labels_some {A} (lab : A -> option Z) (cases : list A) :
  switch_labels lab cases <> None ->
  exists labels, switch_labels lab cases = Some labels
                 /\ mapM lab cases = Some labels /\ NoDup labels.
Proof.
  unfold switch_labels. destruct (mapM lab cases) as [labels|]; cbn; [|congruence].
  case_bool_decide; [|congruence]. intros _. exists labels. auto.
Qed.

Lemma dispatch_unknown {J : jinja2} structs objects c group variation pc start count m :
  py_res (decoders_template objects) = Ret c ->
  switch_labels label (decode_cases c) <> None ->
  (forall o, In o objects -> label (case_of o) <> Some (CODE group variation)) ->
  DNP3DecodeObject RP IS U CODE structs c group variation pc start count m
  = Done (DNP3_DECODER_EVENT_UNKNOWN_OBJECT, m).
Proof.
  intros Hc Hsw Hno. destruct (decoders_template_cases _ _ Hc) as [Hcases _].
  apply switch_labels_some in Hsw as (labels & Hsw & _ & _).
  unfold DNP3DecodeObject. fold label. rewrite Hsw.
  unfold select. rewrite find_none; [reflexivity|].
  intros y Hy. rewrite Hcases in Hy. apply in_map_iff in Hy as (o & <- & Ho).
  specialize (Hno o Ho). destruct (label (case_of o)) as [l|]; [|reflexivity].
  apply Z.eqb_neq. congruence.
Qed.

Lemma dispatch_known {J : jinja2} structs objects c group variation pc start count m o fn :
  py_res (decoders_template objects) = Ret c ->
  switch_labels label (decode_cases c) <> None ->
  In o objects ->
  label (case_of o) = Some (CODE group variation) ->
  py_res (decoder_object o) = Ret [fn] ->
  DNP3DecodeObject RP IS U CODE structs c group variation pc start count m
  = match run_decoder RP IS U structs fn pc start count m with
    | Done (rc, m') =>
        Done (if rc =? 0 then DNP3_DECODER_EVENT_MALFORMED else Decoded, m')
    | Ill_formed => Ill_formed
    | Undefined_behaviour w => Undefined_behaviour w
    end.
Proof.
  intros Hc Hsw Ho Hlab Hfn. destruct (decoders_template_cases _ _ Hc) as [Hcases Hfns].
  apply switch_labels_some in Hsw as (labels & Hsw & HmapM & Hnd).
  rewrite Hcases, mapM_map in HmapM.
  assert (forall x y, In x objects -> In y objects ->
            label (case_of x) = label (case_of y) -> x = y) as Hinj.
  { intros x y Hx Hy. apply (mapM_nodup_inj _ _ _ x y HmapM Hnd Hx Hy). }
  assert (forall x, In x objects -> exists g v,
            jattr x "group" = Some (YInt g) /\ jattr x "variation" = Some (YInt v)) as Hlit.
  { intros x Hx. apply mapM_Some in HmapM.
    apply list_elem_of_In in Hx.
    apply list_elem_of_lookup in Hx as [i Hi].
    destruct (Forall2_lookup_l _ _ _ i x HmapM Hi) as (l & _ & Hl).
    unfold label, case_label, case_of in Hl. cbn in Hl.
      destruct (c_literal (jattr x "group")) as [g|] eqn:Eg; [|discriminate].
      destruct (c_literal (jattr x "variation")) as [v|] eqn:Ev; [|discriminate].
    exists g, v. split; apply c_literal_some; assumption. }
  unfold DNP3DecodeObject. fold label. rewrite Hsw.
  unfold select. rewrite (find_unique _ _ (case_of o)); cycle 1.
  { rewrite Hcases. apply in_map. exact Ho. }
  { rewrite Hlab. apply Z.eqb_refl. }
  { intros y Hy HP. rewrite Hcases in Hy. apply in_map_iff in Hy as (o' & <- & Ho').
    f_equal. apply Hinj; [exact Ho' | exact Ho|]. rewrite Hlab.
    destruct (label (case_of o')) as [l|]; [|discriminate].
    apply Z.eqb_eq in HP. congruence. }
  destruct (render_each_in _ _ _ Hfns) as [Hfrom Hto].
  destruct (decoder_object_shape o [fn] Hfn) as [body Hbody].
  inversion Hbody as [Hfn_eq]. 
  rewrite (find_unique _ _ fn); cycle 1.
  { destruct (Hto o Ho) as (here & Hhere & Hsub). rewrite Hfn in Hhere.
    inversion Hhere; subst here. apply Hsub. left. reflexivity. }
  { rewrite Hfn_eq. cbn. apply String.eqb_refl. }
  { intros fn' Hfn' Hname. destruct (Hfrom fn' Hfn') as (o' & here & Ho' & Hhere & Hin).
    destruct (decoder_object_shape o' here Hhere) as [body' ->].
    destruct Hin as [<- | []]. cbn in Hname. apply String.eqb_eq in Hname.
    destruct (Hlit o Ho) as (g & v & Hg & Hv).
    destruct (Hlit o' Ho') as (g' & v' & Hg' & Hv').
    destruct (decoder_name_inj o' o g' v' g v Hg' Hv' Hg Hv Hname) as [-> ->].
    assert (o' = o) as ->.
    { apply Hinj; [exact Ho' | exact Ho|].
      unfold label, case_of. cbn. rewrite Hg, Hv, Hg', Hv'. reflexivity. }
    rewrite Hfn in Hhere. inversion Hhere. reflexivity. }
  rewrite <- Hfn_eq. reflexivity.
Qed.

End Dispatch.

(** Only a mapping passes the validator. *)
Lemma preprocess_entry_ret (o : yaml) r :
  py_res (preprocess_entry o) = Ret r ->
  exists d, o = YMap d /\ preprocess_entry o = preprocess_object d.
Proof.
  destruct o as [| | |t|l|d]; cbn; try discriminate.
  - destruct (String.index 0 "unimplemented" t); discriminate.
  - destruct (existsb _ l); discriminate.
  - intros _. exists d. split; reflexivity.
Qed.

Lemma preprocess_all_keys objs objects :
  py_res (preprocess_all objs) = Ret objects ->
  map object_key objects = map object_key (List.filter implemented objs).
Proof.
  revert objects. induction objs as [|o objs IH]; intros objects H; simpl in H.
  - inversion H. reflexivity.
  - apply py_bind_res_ret in H as (r & Hr & H).
    apply py_bind_res_ret in H as (rest & Hrest & H).
    inversion H; subst objects. clear H.
    destruct (preprocess_entry_ret _ _ Hr) as (entries & -> & Heq).
    rewrite Heq in Hr. clear Heq.
    specialize (IH rest Hrest).
    apply preprocess_object_ret in Hr
      as [[Hun ->] | (Hun & fields & _ & obj' & -> & _ & Hobj')];
      cbn [List.filter implemented]; rewrite Hun; cbn [negb].
    + exact IH.
    + cbn [map]. f_equal; [|exact IH].
      destruct Hobj' as [-> | ->]; [reflexivity|].
      unfold object_key. cbn [jattr]. rewrite !dict_get_set_ne by discriminate.
      reflexivity.
Qed.

(** C6.  DNP3DecodeObject has one case per validated object, in schema order,
    and the validated objects are the objects of the schema that are not
    marked unimplemented.  For a rendered switch that compiles (integer
    labels, all different): a pair that is the key of no object, and whose
    object code no object shares, returns the unknown-object event and leaves
    the machine as it was; a pair that is the key of an object runs the
    decoder rendered for that object and returns 0 when it returns nonzero and
    the malformed event when it returns 0. *)
Theorem decode_dispatch_by_group_and_variation {J : jinja2} :
  (forall objs objects c,
     py_res (preprocess_all objs) = Ret objects ->
     py_res (decoders_template objects) = Ret c ->
     decode_cases c = map case_of objects
     /\ map (fun dc => (dc_group dc, dc_variation dc)) (decode_cases c)
        = map object_key (List.filter implemented objs))
  /\ (forall RP IS U CODE structs objects c group variation pc start count m,
        py_res (decoders_template objects) = Ret c ->
        switch_labels (fun dc => case_label CODE (dc_group dc) (dc_variation dc))
          (decode_cases c) <> None ->
        (forall o, In o objects ->
           object_key o <> (Some (YInt group), Some (YInt variation))) ->
        (forall o g v, In o objects ->
           object_key o = (Some (YInt g), Some (YInt v)) ->
           CODE g v = CODE group variation -> g = group /\ v = variation) ->
        DNP3DecodeObject RP IS U CODE structs c group variation pc start count m
        = Done (DNP3_DECODER_EVENT_UNKNOWN_OBJECT, m))
  /\ (forall RP IS U CODE structs objects c group variation pc start count m o fn,
        py_res (decoders_template objects) = Ret c ->
        switch_labels (fun dc => case_label CODE (dc_group dc) (dc_variation dc))
          (decode_cases c) <> None ->
        In o objects ->
        object_key o = (Some (YInt group), Some (YInt variation)) ->
        py_res (decoder_object o) = Ret [fn] ->
        DNP3DecodeObject RP IS U CODE structs c group variation pc start count m
        = match run_decoder RP IS U structs fn pc start count m with
          | Done (rc, m') =>
              Done (if rc =? 0 then DNP3_DECODER_EVENT_MALFORMED else Decoded, m')
          | Ill_formed => Ill_formed
          | Undefined_behaviour w => Undefined_behaviour w
          end).
Proof.
  split; [|split].
  - intros objs objects c Hpre Hc.
    destruct (decoders_template_cases _ _ Hc) as [Hcases _]. split; [exact Hcases|].
    rewrite Hcases, <- (preprocess_all_keys _ _ Hpre), map_map. reflexivity.
  - intros RP IS U CODE structs objects c group variation pc start count m
      Hc Hsw Hnot Hinj.
    apply (dispatch_unknown RP IS U CODE structs objects); [exact Hc | exact Hsw |].
    intros o Ho Hlab. unfold case_label, case_of in Hlab. cbn in Hlab.
    destruct (c_literal (jattr o "group")) as [g|] eqn:Eg; [|discriminate].
    destruct (c_literal (jattr o "variation")) as [v|] eqn:Ev; [|discriminate].
    apply c_literal_some in Eg, Ev. cbn in Hlab. inversion Hlab as [Hcode].
    assert (object_key o = (Some (YInt g), Some (YInt v))) as Hkey.
    { unfold object_key. rewrite Eg, Ev. reflexivity. }
    destruct (Hinj o g v Ho Hkey Hcode) as [-> ->].
    exact (Hnot o Ho Hkey).
  - intros RP IS U CODE structs objects c group variation pc start count m o fn
      Hc Hsw Ho Hkey Hfn.
    apply (dispatch_known RP IS U CODE structs objects c group variation
             pc start count m o fn); try assumption.
    unfold object_key in Hkey. inversion Hkey as [[Hg Hv]].
    unfold case_label, case_of. cbn. rewrite Hg, Hv. reflexivity.
Qed.

Lemma decode_dispatch_by_group_and_variation_witness :
  exists structs c,
    Example.rendered (J := Example.jinja2_8)
      [Example.nibbles; Example.text_object; Example.not_yet]
      = Some (structs, c)
    /\ map (fun dc => (dc_group dc, dc_variation dc)) (decode_cases c)
       = [(Some (YInt 1), Some (YInt 2)); (Some (YInt 1), Some (YInt 1))]
    /\ DNP3DecodeObject Example.read_prefix Example.prefix_is_size Example.little_endian
         Example.object_code structs c 9 9 0 0 1 (Example.fresh [xb4])
       = Done (DNP3_DECODER_EVENT_UNKNOWN_OBJECT, Example.fresh [xb4])
    /\ (exists m',
          DNP3DecodeObject Example.read_prefix Example.prefix_is_size
            Example.little_endian Example.object_code structs c 1 2 0 0 1
            (Example.fresh [xb4])
          = Done (Decoded, m'))
    /\ DNP3DecodeObject Example.read_prefix Example.prefix_is_size Example.little_endian
         Example.object_code structs c 1 2 0 0 1 (Example.fresh [])
       = Done (DNP3_DECODER_EVENT_MALFORMED, Machine [] (Heap ∅ 1 999) []).
Proof.
  destruct (decode_dispatch_by_group_and_variation (J := Example.jinja2_8))
    as (Hcases & Hunknown & Hknown).
  eexists _, _. split; [vm_compute; reflexivity|].
  split; [|split; [|split]].
  - edestruct (Hcases (map YMap [Example.nibbles; Example.text_object; Example.not_yet]))
      as [_ Hkeys]; [vm_compute; reflexivity | vm_compute; reflexivity |].
    exact Hkeys.
  - eapply (Hunknown _ _ _ _ _ (map YMap [Example.nibbles; Example.text_object])).
    + vm_compute. reflexivity.
    + vm_compute. discriminate.
    + intros o [<- | [<- | []]]; vm_compute; discriminate.
    + intros o g v [<- | [<- | []]] Hkey Hcode; vm_compute in Hkey;
        inversion Hkey; subst g v; vm_compute in Hcode; discriminate.
  - erewrite (Hknown _ _ _ _ _ (map YMap [Example.nibbles; Example.text_object])
                _ 1 2 0 0 1 _ (YMap Example.nibbles)); cycle 1.
    + vm_compute. reflexivity.
    + vm_compute. discriminate.
    + left. reflexivity.
    + reflexivity.
    + vm_compute. reflexivity.
    + vm_compute. eexists. reflexivity.
  - erewrite (Hknown _ _ _ _ _ (map YMap [Example.nibbles; Example.text_object])
                _ 1 2 0 0 1 _ (YMap Example.nibbles)); cycle 1.
    + vm_compute. reflexivity.
    + vm_compute. discriminate.
    + left. reflexivity.
    + reflexivity.
    + vm_compute. reflexivity.
    + vm_compute. reflexivity.
Defined.

(** * Further properties *)

(** ** The validator, key by key *)

Lemma invalid_key_reports {A} key obj gv vv g v :
  dict_get "group" obj = Some gv -> dict_get "variation" obj = Some vv ->
  py_num gv = Some g -> py_num vv = Some v ->
  @invalid_key A key obj = Py [(Stderr, Invalid_key key g v)] (SysExit 1).
Proof.
  intros Hg Hv Hgn Hvn. unfold invalid_key, py_item, py_fmt_d.
  rewrite Hg, Hv. rewrite !py_bind_ret. rewrite Hgn, Hvn. rewrite !py_bind_ret.
  reflexivity.
Qed.

Lemma invalid_key_never_returns {A} key obj (a : A) :
  py_res (invalid_key key obj) <> Ret a.
Proof.
  unfold invalid_key. intros H.
  apply py_bind_res_ret in H as (g & _ & H).
  apply py_bind_res_ret in H as (v & _ & H).
  apply py_bind_res_ret in H as (g' & _ & H).
  apply py_bind_res_ret in H as (v' & _ & H).
  apply py_bind_res_ret in H as (u & _ & H). discriminate.
Qed.

(** The key loop of both checks. *)
Lemma key_loop_passes (valid : list string) (obj : dict) (keys : list string) :
  Forall (fun k => str_in k valid = true) keys ->
  py_for keys tt (fun key _ =>
    if negb (str_in key valid) then invalid_key key obj else py_ret (Continue, tt))
  = py_ret tt.
Proof.
  induction 1 as [|k keys Hk _ IH]; [reflexivity|].
  cbn [py_for]. rewrite Hk. cbn [negb]. rewrite py_bind_ret. exact IH.
Qed.

Lemma key_loop_returns (valid : list string) (obj : dict) (keys : list string) u :
  py_res (py_for keys tt (fun key _ =>
    if negb (str_in key valid) then invalid_key key obj else py_ret (Continue, tt)))
  = Ret u ->
  Forall (fun k => str_in k valid = true) keys.
Proof.
  induction keys as [|k keys IH]; intros H; [constructor|].
  cbn [py_for] in H. apply py_bind_res_ret in H as ([fl s] & Hbody & H).
  destruct (str_in k valid) eqn:E; cbn [negb] in Hbody.
  - constructor; [exact E|]. inversion Hbody; subst fl s. destruct u. apply IH. exact H.
  - destruct (invalid_key_never_returns _ _ _ Hbody).
Qed.

Lemma key_loop_stops (valid : list string) (obj : dict) (ok : list string)
    (key : string) (rest : list string) gv vv g v :
  dict_get "group" obj = Some gv -> dict_get "variation" obj = Some vv ->
  py_num gv = Some g -> py_num vv = Some v ->
  Forall (fun k => str_in k valid = true) ok ->
  str_in key valid = false ->
  py_for (ok ++ key :: rest) tt (fun key _ =>
    if negb (str_in key valid) then invalid_key key obj else py_ret (Continue, tt))
  = Py [(Stderr, Invalid_key key g v)] (SysExit 1).
Proof.
  intros Hg Hv Hgn Hvn Hok Hbad. induction Hok as [|k ok Hk _ IH].
  - cbn [app py_for]. rewrite Hbad. cbn [negb].
    rewrite (invalid_key_reports key obj gv vv g v) by assumption. reflexivity.
  - cbn [app py_for]. rewrite Hk. cbn [negb]. rewrite py_bind_ret. exact IH.
Qed.

(** X1.  The validator reports the first key of an object that is not in
    valid_keys and nothing else: for an object that is not marked
    unimplemented, whose keys before [key] are all valid, it prints one line
    naming [key] with the object's group and variation on standard error and
    exits with status 1, whatever follows that key and whatever the fields
    are. *)
Theorem preprocess_object_reports_first_unknown_key (obj : dict)
    (ok : list string) (key : string) (rest : list string) gv vv g v :
  dict_has "unimplemented" obj = false ->
  dict_get "group" obj = Some gv -> dict_get "variation" obj = Some vv ->
  py_num gv = Some g -> py_num vv = Some v ->
  map fst obj = ok ++ key :: rest ->
  Forall valid_key ok ->
  ~ valid_key key ->
  preprocess_object obj = Py [(Stderr, Invalid_key key g v)] (SysExit 1).
Proof.
  intros Hun Hg Hv Hgn Hvn Hkeys Hok Hbad. unfold preprocess_object.
  rewrite Hun, Hkeys.
  rewrite (key_loop_stops valid_keys obj ok key rest gv vv g v); try assumption.
  - reflexivity.
  - unfold valid_key in Hbad. destruct (str_in key valid_keys); congruence.
Qed.

Lemma preprocess_object_reports_first_unknown_key_witness :
  preprocess_object (Example.object 1 2 [] [("bogus", YInt 1); ("alias", YInt 2)])
  = Py [(Stderr, Invalid_key "bogus" 1 2)] (SysExit 1).
Proof.
  apply (preprocess_object_reports_first_unknown_key _
           ["group"; "variation"; "fields"] "bogus" ["alias"] (YInt 1) (YInt 2));
    try reflexivity.
  - repeat constructor.
  - unfold valid_key. vm_compute. discriminate.
Defined.

Lemma width_loop_total (subs : list yaml) (acc total : Z) :
  py_res (py_for subs acc (fun subfield width =>
            do w <- py_subscript subfield "width";
            do w <- py_int w;
            py_ret (Continue, width + w))) = Ret total ->
  exists s, widths_total subs = Some s /\ total = acc + s.
Proof.
  revert acc. induction subs as [|sub subs IH]; intros acc H.
  - inversion H. exists 0. split; [reflexivity | lia].
  - cbn [py_for] in H. apply py_bind_res_ret in H as ([fl s] & Hbody & H).
    apply py_bind_res_ret in Hbody as (w & Hw & Hbody).
    apply py_bind_res_ret in Hbody as (n & Hn & Hbody).
    inversion Hbody; subst fl s. cbn [fst snd] in H.
    destruct (IH _ H) as (rest & Hrest & ->).
    destruct sub; try discriminate. unfold py_subscript, py_item in Hw.
    destruct (dict_get "width" entries) as [w'|] eqn:E; [|discriminate].
    inversion Hw; subst w'.
    exists (n + rest). split; [|lia].
    cbn [widths_total jattr]. rewrite E, Hn, Hrest. reflexivity.
Qed.

Lemma preprocess_field_checked field obj fl s :
  py_res (preprocess_field field obj) = Ret (fl, s) -> field_checked field.
Proof.
  unfold preprocess_field. intros H.
  apply py_bind_res_ret in H as (fd & Hfd & H).
  destruct field; try discriminate. simpl in Hfd. inversion Hfd; subst fd. clear Hfd.
  apply py_bind_res_ret in H as (u & Hkeys & H).
  apply key_loop_returns in Hkeys.
  exists entries. split; [reflexivity|]. split; [exact Hkeys|].
  intros Hlfp Hbstr. unfold sets_len_from_prefix in Hlfp.
  assert (dict_has "len_from_prefix" entries
          && match dict_get "len_from_prefix" entries with
             | Some v => truthy v
             | None => false
             end = false) as Hcond.
  { unfold dict_has. simpl in Hlfp.
    destruct (dict_get "len_from_prefix" entries); [exact Hlfp | reflexivity]. }
  rewrite Hcond in H.
  apply py_bind_res_ret in H as (ty & Hty & H).
  unfold py_item in Hty. cbn [jattr] in Hbstr.
  destruct (dict_get "type" entries) as [ty'|] eqn:Ety; [|discriminate].
  inversion Hty; subst ty'. rewrite Hbstr in H.
  apply py_bind_res_ret in H as (fv & Hfv & H).
  apply py_bind_res_ret in H as (subs & Hsubs & H).
  apply py_bind_res_ret in H as (width & Hwidth & H).
  unfold py_item in Hfv.
  destruct (dict_get "fields" entries) as [fv'|] eqn:Efv; [|discriminate].
  inversion Hfv; subst fv'.
  exists subs. split; [cbn [jattr jiter]; rewrite Efv; exact Hsubs|].
  apply width_loop_total in Hwidth as (total & Htotal & ->).
  destruct (0 + total =? 8) eqn:E8; [|discriminate].
  apply Z.eqb_eq in E8. rewrite Htotal. f_equal. lia.
Qed.

Lemma fields_loop_checked fields obj obj' :
  py_res (py_for fields obj preprocess_field) = Ret obj' ->
  Forall field_checked (checked_fields fields).
Proof.
  revert obj. induction fields as [|f fields IH]; intros obj H; [constructor|].
  cbn [py_for] in H. apply py_bind_res_ret in H as ([fl s] & Hf & H).
  pose proof (preprocess_field_checked _ _ _ _ Hf) as Hchk.
  apply preprocess_field_ret in Hf as [(Ht & -> & ->) | (Ht & -> & ->)];
    cbn [checked_fields]; unfold sets_len_from_prefix; rewrite Ht.
  - constructor; [exact Hchk | constructor].
  - constructor; [exact Hchk|]. apply (IH obj). exact H.
Qed.

Lemma fields_loop_marks fields obj obj' :
  py_res (py_for fields obj preprocess_field) = Ret obj' ->
  obj' = if existsb sets_len_from_prefix fields
         then dict_set "_track_offset" (YBool true) obj else obj.
Proof.
  revert obj. induction fields as [|f fields IH]; intros obj H.
  - inversion H. reflexivity.
  - cbn [py_for] in H. apply py_bind_res_ret in H as ([fl s] & Hf & H).
    apply preprocess_field_ret in Hf as [(Ht & -> & ->) | (Ht & -> & ->)];
      cbn [existsb]; unfold sets_len_from_prefix at 1; rewrite Ht; cbn [orb].
    + inversion H. reflexivity.
    + apply IH. exact H.
Qed.

(** What a successful validation went through. *)
Lemma preprocess_object_accepts obj obj' :
  py_res (preprocess_object obj) = Ret (Some obj') ->
  dict_has "unimplemented" obj = false
  /\ Forall valid_key (map fst obj)
  /\ exists fv fields,
       dict_get "fields" obj = Some fv /\ py_res (py_iter fv) = Ret fields
       /\ py_res (py_for fields obj preprocess_field) = Ret obj'.
Proof.
  unfold preprocess_object. destruct (dict_has "unimplemented" obj); intros H.
  - apply py_bind_res_ret in H as (g & _ & H).
    apply py_bind_res_ret in H as (v & _ & H).
    apply py_bind_res_ret in H as (why & _ & H).
    apply py_bind_res_ret in H as (u & _ & H). discriminate.
  - split; [reflexivity|].
    apply py_bind_res_ret in H as (u & Hkeys & H).
    apply key_loop_returns in Hkeys. split; [exact Hkeys|].
    apply py_bind_res_ret in H as (fv & Hfv & H).
    apply py_bind_res_ret in H as (fields & Hfields & H).
    apply py_bind_res_ret in H as (o & Hfor & H).
    inversion H; subst o.
    unfold py_item in Hfv. destruct (dict_get "fields" obj) as [fv'|]; [|discriminate].
    inversion Hfv; subst fv'. exists fv, fields. auto.
Qed.

(** X2.  What an accepted object is known to satisfy: all its keys are valid,
    its [fields] entry can be iterated, and every field up to and including
    the first one that sets len_from_prefix is a mapping with valid keys only,
    a bstr8 among those before it having subfield widths that sum to 8. *)
Theorem preprocess_object_accepts_only_checked_fields (obj obj' : dict) :
  py_res (preprocess_object obj) = Ret (Some obj') ->
  Forall valid_key (map fst obj)
  /\ exists fv fields,
       dict_get "fields" obj = Some fv /\ py_res (py_iter fv) = Ret fields
       /\ Forall field_checked (checked_fields fields).
Proof.
  intros H. apply preprocess_object_accepts in H
    as (_ & Hkeys & fv & fields & Hfv & Hfields & Hfor).
  split; [exact Hkeys|]. exists fv, fields. split; [exact Hfv|]. split; [exact Hfields|].
  apply (fields_loop_checked fields obj obj'). exact Hfor.
Qed.

Lemma preprocess_object_accepts_only_checked_fields_witness :
  Forall valid_key (map fst Example.nibbles)
  /\ exists fv fields,
       dict_get "fields" Example.nibbles = Some fv /\ py_res (py_iter fv) = Ret fields
       /\ Forall field_checked (checked_fields fields).
Proof.
  apply (preprocess_object_accepts_only_checked_fields Example.nibbles Example.nibbles).
  vm_compute. reflexivity.
Defined.

(** X3.  The only change the validator makes to an object is the mark
    [_track_offset], and it makes it exactly when some field sets
    len_from_prefix. *)
Theorem preprocess_object_marks_exactly_prefix_lengths (obj obj' : dict) fv fields :
  py_res (preprocess_object obj) = Ret (Some obj') ->
  dict_get "fields" obj = Some fv -> py_res (py_iter fv) = Ret fields ->
  obj' = if existsb sets_len_from_prefix fields
         then dict_set "_track_offset" (YBool true) obj else obj.
Proof.
  intros H Hfv Hfields. apply preprocess_object_accepts in H
    as (_ & _ & fv' & fields' & Hfv' & Hfields' & Hfor).
  rewrite Hfv in Hfv'. inversion Hfv'; subst fv'.
  rewrite Hfields in Hfields'. inversion Hfields'; subst fields'.
  apply fields_loop_marks. exact Hfor.
Qed.

Lemma preprocess_object_marks_exactly_prefix_lengths_witness :
  dict_set "_track_offset" (YBool true) Example.octet_then_prefixed_bytes
  = if existsb sets_len_from_prefix
         [Example.field "uint8" "kind" [];
          Example.field "bytearray" "data" [("len_from_prefix", YBool true);
                                            ("len_field", YStr "n")]]
    then dict_set "_track_offset" (YBool true) Example.octet_then_prefixed_bytes
    else Example.octet_then_prefixed_bytes.
Proof.
  apply (preprocess_object_marks_exactly_prefix_lengths _ _
           (YSeq [Example.field "uint8" "kind" [];
                  Example.field "bytearray" "data" [("len_from_prefix", YBool true);
                                                    ("len_field", YStr "n")]]));
    vm_compute; reflexivity.
Defined.

Lemma dict_set_fresh_keys k v (d : dict) :
  ~ In k (map fst d) -> map fst (dict_set k v d) = map fst d ++ [k].
Proof.
  induction d as [|[k' v'] d IH]; intros Hnot; [reflexivity|].
  cbn [dict_set]. destruct (String.eqb k k') eqn:E.
  - apply String.eqb_eq in E. subst k'. destruct Hnot. left. reflexivity.
  - cbn [map fst app]. f_equal. apply IH. intros Hin. apply Hnot. right. exact Hin.
Qed.

Lemma dict_has_set_ne k k' v d : k' <> k -> dict_has k' (dict_set k v d) = dict_has k' d.
Proof. intros H. unfold dict_has. rewrite dict_get_set_ne by exact H. reflexivity. Qed.

(** X4.  A marked object is no valid input: the validator run on its own
    output, when that carries the mark, reports [_track_offset] as an invalid
    key and exits with status 1. *)
Theorem marked_object_fails_a_second_validation (obj obj' : dict) gv vv g v :
  py_res (preprocess_object obj) = Ret (Some obj') ->
  obj' <> obj ->
  dict_get "group" obj = Some gv -> dict_get "variation" obj = Some vv ->
  py_num gv = Some g -> py_num vv = Some v ->
  preprocess_object obj' = Py [(Stderr, Invalid_key "_track_offset" g v)] (SysExit 1).
Proof.
  intros H Hne Hg Hv Hgn Hvn. apply preprocess_object_accepts in H
    as (Hun & Hkeys & fv & fields & Hfv & Hfields & Hfor).
  apply fields_loop_marks in Hfor.
  destruct (existsb sets_len_from_prefix fields); [|congruence]. subst obj'.
  assert (~ In "_track_offset" (map fst obj)) as Hfresh.
  { intros Hin. rewrite Forall_forall in Hkeys.
    specialize (Hkeys _ (proj2 (list_elem_of_In _ _) Hin)). discriminate Hkeys. }
  unfold preprocess_object.
  rewrite dict_has_set_ne by discriminate. rewrite Hun.
  rewrite (dict_set_fresh_keys _ _ _ Hfresh).
  rewrite (key_loop_stops valid_keys _ (map fst obj) "_track_offset" [] gv vv g v).
  - reflexivity.
  - rewrite dict_get_set_ne by discriminate. exact Hg.
  - rewrite dict_get_set_ne by discriminate. exact Hv.
  - exact Hgn.
  - exact Hvn.
  - exact Hkeys.
  - reflexivity.
Qed.

Lemma marked_object_fails_a_second_validation_witness :
  preprocess_object (dict_set "_track_offset" (YBool true) Example.prefixed_bytes)
  = Py [(Stderr, Invalid_key "_track_offset" 70 5)] (SysExit 1).
Proof.
  apply (marked_object_fails_a_second_validation Example.prefixed_bytes _
           (YInt 70) (YInt 5)); try reflexivity.
  vm_compute. discriminate.
Defined.

(** ** The release routine *)

Lemma has_freeable_types_spec (fields : list yaml) :
  Forall has_type fields ->
  has_freeable_types fields = py_ret (existsb is_bytearray fields).
Proof.
  induction 1 as [|f fields (fd & ty & -> & Hty) _ IH]; [reflexivity|].
  cbn [has_freeable_types py_subscript]. unfold py_item. rewrite Hty, py_bind_ret.
  cbn [existsb]. unfold is_bytearray at 1. cbn [jattr]. rewrite Hty.
  destruct ty as [| | |t| |]; cbn [eq_str orb]; try exact IH.
  unfold freeable_types, str_in. cbn [existsb]. rewrite orb_false_r.
  destruct (String.eqb t "bytearray"); [reflexivity | exact IH].
Qed.

Lemma free_members_spec (fields : list yaml) :
  render_each fields (fun field =>
    if eq_str (jattr field "type") "bytearray"
    then py_ret [render (jattr field "name")] else py_ret [])
  = py_ret (map (fun f => render (jattr f "name")) (List.filter is_bytearray fields)).
Proof.
  unfold is_bytearray. induction fields as [|f fields IH]; [reflexivity|].
  cbn [render_each List.filter]. rewrite IH.
  destruct (eq_str (jattr f "type") "bytearray"); rewrite !py_bind_ret; reflexivity.
Qed.

(** X5.  The release switch gets a case for an object exactly when one of its
    fields is of type bytearray, and the case names the byte-array fields, in
    schema order, and no other. *)
Theorem free_object_lists_the_byte_arrays (object : yaml) (fields : list yaml) :
  jattr object "fields" = Some (YSeq fields) ->
  Forall has_type fields ->
  free_object object
  = py_ret (if existsb is_bytearray fields
            then [Free_case (jattr object "group") (jattr object "variation")
                    (map (fun f => render (jattr f "name"))
                       (List.filter is_bytearray fields))]
            else []).
Proof.
  intros Hfields Htypes. unfold free_object. rewrite Hfields.
  cbn [jiter py_iter]. rewrite py_bind_ret.
  rewrite (has_freeable_types_spec fields Htypes), py_bind_ret.
  destruct (existsb is_bytearray fields); [|reflexivity].
  rewrite free_members_spec, py_bind_ret. reflexivity.
Qed.

Lemma free_object_lists_the_byte_arrays_witness :
  free_object (YMap Example.bytes_then_crc)
  = py_ret [Free_case (Some (YInt 1)) (Some (YInt 1)) ["data"]].
Proof.
  apply (free_object_lists_the_byte_arrays (YMap Example.bytes_then_crc)
           [Example.field "uint8" "n" [];
            Example.field "bytearray" "data" [("len_field", YStr "n")];
            Example.field "uint16" "crc" []]).
  - reflexivity.
  - repeat constructor; eexists _, _; (split; [reflexivity|]); reflexivity.
Defined.

Lemma released_arrays_cons (data : object_store) (name : string) (members : list string) :
  released_arrays data (name :: members)
  = match data !! name with
    | Some (VBytes a _) => {[a]} ∪ released_arrays data members
    | _ => released_arrays data members
    end.
Proof.
  unfold released_arrays. simpl.
  destruct (data !! name) as [[| | | |a bs]|]; reflexivity.
Qed.

Lemma free_members_live (data : object_store) (members : list string) (h : heap) :
  live (foldl (fun h name => free_member data name h) h members)
  = live h ∖ released_arrays data members
  /\ next (foldl (fun h name => free_member data name h) h members) = next h
  /\ avail (foldl (fun h name => free_member data name h) h members) = avail h.
Proof.
  revert h. induction members as [|name members IH]; intros h.
  - cbn [foldl]. split; [|auto].
    change (released_arrays data []) with (∅ : gset nat). set_solver.
  - cbn [foldl]. destruct (IH (free_member data name h)) as (Hl & Hn & Ha).
    rewrite Hl, Hn, Ha, released_arrays_cons. unfold free_member.
    destruct (data !! name) as [[| | | |a bs]|]; try (split; [reflexivity | auto]).
    cbn [SCFree live next avail]. split; [set_solver | auto].
Qed.

Lemma owned_arrays (pt : point) name a bs :
  pt_data pt !! name = Some (VBytes a bs) -> a ∈ owned pt.
Proof.
  intros H. unfold owned. apply elem_of_union_r. revert H.
  generalize (pt_data pt). intros data.
  apply (map_fold_weak_ind
           (fun (r : gset nat) (m : gmap string cval) =>
              m !! name = Some (VBytes a bs) -> a ∈ r)).
  - intros Hempty. rewrite lookup_empty in Hempty. discriminate.
  - intros i x m r Hi IH Hlook. destruct (decide (i = name)) as [->|Hne].
    + rewrite lookup_insert_eq in Hlook. inversion Hlook. set_solver.
    + rewrite lookup_insert_ne in Hlook by exact Hne. specialize (IH Hlook).
      destruct x; set_solver.
Qed.

Lemma released_arrays_owned (pt : point) (members : list string) :
  released_arrays (pt_data pt) members ⊆ owned pt.
Proof.
  induction members as [|name members IH].
  - change (released_arrays (pt_data pt) []) with (∅ : gset nat). set_solver.
  - rewrite released_arrays_cons.
    destruct (pt_data pt !! name) as [[| | | |a bs]|] eqn:E; try exact IH.
    apply owned_arrays in E. set_solver.
Qed.

(** X6.  Releasing a point frees the point's block, leaves the allocator's
    other counters alone, frees nothing the point does not own, and frees the
    byte array of every member the selected case names. *)
Theorem release_frees_what_the_point_owns (CODE : Z -> Z -> Z) (c : decoders_c)
    (group variation : Z) (pt : point) (h h' : heap) :
  DNP3FreeObjectPoint CODE c group variation pt h = Done h' ->
  (pt_addr pt ∉ live h')
  /\ (live h' ⊆ live h)
  /\ next h' = next h /\ avail h' = avail h
  /\ (forall p, p ∈ live h -> p ∉ owned pt -> p ∈ live h')
  /\ (forall fc name a bs,
        select (fun fc => case_label CODE (fc_group fc) (fc_variation fc))
          (free_cases c) (CODE group variation) = Some fc ->
        In name (fc_members fc) ->
        pt_data pt !! name = Some (VBytes a bs) ->
        a ∉ live h').
Proof.
  unfold DNP3FreeObjectPoint.
  destruct (switch_labels _ (free_cases c)); [|discriminate].
  intros H. inversion H as [Hh']. clear H.
  destruct (select _ (free_cases c) (CODE group variation)) as [fc|].
  - destruct (free_members_live (pt_data pt) (fc_members fc) h) as (Hl & Hn & Ha).
    pose proof (released_arrays_owned pt (fc_members fc)) as Hsub.
    assert (pt_addr pt ∈ owned pt) as Hself by (unfold owned; set_solver).
    cbn [SCFree live next avail]. rewrite Hl, Hn, Ha.
    split; [set_solver|]. split; [set_solver|]. split; [reflexivity|].
    split; [reflexivity|]. split; [set_solver|].
    intros fc' name a bs Hfc Hin Hlook. inversion Hfc; subst fc'.
    assert (a ∈ released_arrays (pt_data pt) (fc_members fc)); [|set_solver].
    unfold released_arrays. apply elem_of_list_to_set, list_elem_of_omap.
    exists name. split; [apply list_elem_of_In; exact Hin|]. rewrite Hlook. reflexivity.
  - assert (pt_addr pt ∈ owned pt) as Hself by (unfold owned; set_solver).
    cbn [SCFree live next avail].
    split; [set_solver|]. split; [set_solver|]. split; [reflexivity|].
    split; [reflexivity|]. split; [set_solver|].
    intros fc' name a bs Hfc. discriminate Hfc.
Qed.

Lemma release_frees_what_the_point_owns_witness :
  let c := Decoders_c [] [Free_case (Some (YInt 1)) (Some (YInt 1)) ["data"]] [] in
  let pt := Point 0 (<["data" := VBytes 1 [x0a; x0b]]> (<["n" := VInt 2]> ∅)) 0 0 2 in
  let h := Heap {[0%nat; 1%nat; 2%nat]} 3 5 in
  let h' := Heap {[2%nat]} 3 5 in
  (pt_addr pt ∉ live h')
  /\ (live h' ⊆ live h)
  /\ next h' = next h /\ avail h' = avail h
  /\ (forall p, p ∈ live h -> p ∉ owned pt -> p ∈ live h')
  /\ (forall fc name a bs,
        select (fun fc => case_label Example.object_code (fc_group fc) (fc_variation fc))
          (free_cases c) (Example.object_code 1 1) = Some fc ->
        In name (fc_members fc) ->
        pt_data pt !! name = Some (VBytes a bs) ->
        a ∉ live h').
Proof.
  intros c pt h h'.
  apply (release_frees_what_the_point_owns Example.object_code c 1 1 pt h h').
  vm_compute. reflexivity.
Defined.

(** ** Decoders: what they read and what they leave *)

Lemma DNP3ReadUint_some (U : list byte -> Z) (n : nat) (b : list byte) :
  DNP3ReadUint U n b
  = if (length b <? n)%nat then None
    else Some (to_unsigned (8 * Z.of_nat n) (U (take n b)), drop n b).
Proof. reflexivity. Qed.

(** A fixed-width read fails exactly when fewer bytes than its width remain
    and otherwise takes exactly those bytes off the cursor. *)
Lemma read_scalar_cursor (U : list byte -> Z) (sc : scalar) (b : list byte) :
  match read_scalar U sc b with
  | None => (length b < scalar_width sc)%nat
  | Some (_, b') => (scalar_width sc <= length b)%nat /\ b' = drop (scalar_width sc) b
  end.
Proof.
  destruct sc; cbn [read_scalar scalar_width]; unfold DNP3ReadUint;
    try (destruct (Nat.ltb_spec (length b) 1); cbn; [lia | split; [lia | reflexivity]]);
    try (destruct (Nat.ltb_spec (length b) 2); cbn; [lia | split; [lia | reflexivity]]);
    try (destruct (Nat.ltb_spec (length b) 3); cbn; [lia | split; [lia | reflexivity]]);
    try (destruct (Nat.ltb_spec (length b) 4); cbn; [lia | split; [lia | reflexivity]]);
    try (destruct (Nat.ltb_spec (length b) 6); cbn; [lia | split; [lia | reflexivity]]);
    try (destruct (Nat.ltb_spec (length b) 8); cbn; [lia | split; [lia | reflexivity]]).
  destruct b as [|o b]; cbn; [lia | split; [lia | reflexivity]].
Qed.

Lemma memcpy_from_buf_guarded (b : list byte) (n : Z) :
  (Z.of_nat (length b) <? n) = false ->
  memcpy_from_buf b n = Done (take (Z.to_nat n) b, drop (Z.to_nat n) b).
Proof. intros H. unfold memcpy_from_buf. rewrite H. reflexivity. Qed.

Lemma exec_stmt_cursor (U : list byte -> Z) (layout : list member) (prefix : Z)
    (offset : option Z) (s : stmt) (f : frame) :
  match exec_stmt U layout prefix offset s f with
  | Done (Goto_error f') => f' = f
  | Done (Next f') => exists n, f_buf f' = drop n (f_buf f) /\ (n <= length (f_buf f))%nat
  | _ => True
  end.
Proof.
  destruct s; cbn [exec_stmt].
  - pose proof (read_scalar_cursor U s (f_buf f)) as H.
    destruct (read_scalar U s (f_buf f)) as [[v b']|]; [|reflexivity].
    destruct H as [Hlen ->]. exists (scalar_width s). auto.
  - destruct (Z.ltb_spec (Z.of_nat (length (f_buf f))) 4) as [|Hge]; [reflexivity|].
    rewrite memcpy_from_buf_guarded by (apply Z.ltb_ge; exact Hge). cbn [and_next].
    exists 4%nat. cbn [f_buf]. split; [reflexivity | lia].
  - destruct offset as [o|]; [|exact I].
    destruct (assign_member _ _ _ _); [|exact I]. exists 0%nat. cbn. split; [reflexivity | lia].
  - destruct (is_int_member layout len_field); cbn [negb]; [|exact I].
    destruct (Z.ltb_spec 0 (load_int (f_object f) len_field)).
    + destruct (Z.ltb_spec (Z.of_nat (length (f_buf f))) (load_int (f_object f) len_field))
        as [|Hge]; [reflexivity|].
      destruct (SCCalloc (f_mem f)) as [[p h']|]; [|reflexivity].
      rewrite memcpy_from_buf_guarded by (apply Z.ltb_ge; exact Hge). cbn [and_next].
      eexists. cbn [f_buf]. split; [reflexivity | lia].
    + exists 0%nat. split; [reflexivity | lia].
  - destruct (is_int_member layout len_field); cbn [negb]; [|exact I].
    destruct (char_capacity layout dst) as [cap|]; [|exact I].
    destruct (Z.ltb_spec 0 (load_int (f_object f) len_field)).
    + unfold memcpy_from_buf.
      destruct (Z.ltb_spec (Z.of_nat (length (f_buf f))) (load_int (f_object f) len_field));
        cbn [and_next]; [exact I|].
      destruct (cap <? _); [exact I|]. destruct (cap <=? _); [exact I|].
      eexists. cbn [f_buf]. split; [reflexivity | lia].
    + destruct (_ || _); [exact I|]. exists 0%nat. split; [reflexivity | lia].
  - destruct (f_buf f) as [|o b] eqn:E; cbn [DNP3ReadUint8]; [reflexivity|].
    destruct (exec_extracts layout (octet_value o) subfields (f_object f)); [|exact I].
    exists 1%nat. cbn. split; [reflexivity | lia].
Qed.

Lemma exec_stmts_cursor (U : list byte -> Z) (layout : list member) (prefix : Z)
    (offset : option Z) (body : list stmt) (f : frame) :
  match exec_stmts U layout prefix offset body f with
  | Done (Goto_error f') | Done (Next f') =>
      exists n, f_buf f' = drop n (f_buf f) /\ (n <= length (f_buf f))%nat
  | _ => True
  end.
Proof.
  revert f. induction body as [|s body IH]; intros f; cbn [exec_stmts].
  - exists 0%nat. split; [reflexivity | lia].
  - pose proof (exec_stmt_cursor U layout prefix offset s f) as Hs.
    destruct (exec_stmt U layout prefix offset s f) as [[f'|f']| |]; try exact I.
    + destruct Hs as (n & Hn & Hle). specialize (IH f').
      destruct (exec_stmts U layout prefix offset body f') as [[f''|f'']| |]; try exact I;
        destruct IH as (k & Hk & Hkle); exists (n + k)%nat;
        rewrite Hk, Hn, drop_drop; rewrite Hn, length_drop in Hkle; (split; [reflexivity | lia]).
    + subst f'. exists 0%nat. split; [reflexivity | lia].
Qed.



(** *** No branch but the text branch can leave the buffer *)

(** A field other than text copies only behind a check of the bytes that
    remain. *)
Lemma exec_stmt_defined (U : list byte -> Z) (layout : list member) (prefix : Z)
    (offset : option Z) (s : stmt) (f : frame) w :
  reads_text s = false ->
  exec_stmt U layout prefix offset s f <> Undefined_behaviour w.
Proof.
  destruct s; cbn [reads_text exec_stmt]; intros Ht; try discriminate.
  - destruct (read_scalar U s (f_buf f)) as [[v b']|]; discriminate.
  - destruct (Z.of_nat (length (f_buf f)) <? 4) eqn:E; [discriminate|].
    rewrite memcpy_from_buf_guarded by exact E. discriminate.
  - destruct offset; [|discriminate]. destruct (assign_member _ _ _ _); discriminate.
  - destruct (is_int_member layout len_field); cbn [negb]; [|discriminate].
    destruct (0 <? load_int (f_object f) len_field); [|discriminate].
    destruct (Z.of_nat (length (f_buf f)) <? load_int (f_object f) len_field) eqn:E;
      [discriminate|].
    destruct (SCCalloc (f_mem f)) as [[p h']|]; [|discriminate].
    rewrite memcpy_from_buf_guarded by exact E. discriminate.
  - destruct (DNP3ReadUint8 (f_buf f)) as [[octet b']|]; [|discriminate].
    destruct (exec_extracts layout octet subfields (f_object f)); discriminate.
Qed.

Lemma exec_stmts_defined (U : list byte -> Z) (layout : list member) (prefix : Z)
    (offset : option Z) (body : list stmt) (f : frame) w :
  existsb reads_text body = false ->
  exec_stmts U layout prefix offset body f <> Undefined_behaviour w.
Proof.
  revert f. induction body as [|s body IH]; intros f Ht; cbn [exec_stmts]; [discriminate|].
  cbn [existsb] in Ht. apply orb_false_elim in Ht as [Hs Hbody].
  pose proof (exec_stmt_defined U layout prefix offset s f) as Hdef.
  destruct (exec_stmt U layout prefix offset s f) as [[f'|f']| |w']; try discriminate.
  - apply IH. exact Hbody.
  - intros H. apply (Hdef w' Hs). reflexivity.
Qed.

Lemma record_loop_defined RP U layout d pc n index m w :
  existsb reads_text (rd_body d) = false ->
  record_loop RP U layout d pc n index m <> Undefined_behaviour w.
Proof.
  intros Ht. revert index m. induction n as [|n IH]; intros index m; cbn [record_loop];
    [discriminate|].
  destruct (SCCalloc (mem m)) as [[object h]|]; [|discriminate].
  destruct (RP pc (buf m)) as [[prefix b]|]; [|discriminate].
  match goal with |- context [exec_stmts ?U ?l ?p ?o ?body ?f] =>
    pose proof (exec_stmts_defined U l p o body f) as Hdef;
    destruct (exec_stmts U l p o body f) as [[f'|f']| |w']
  end; try discriminate.
  - cbn [DNP3AddPoint]. apply IH.
  - intros H. apply (Hdef w' Ht). reflexivity.
Qed.

Lemma packed_octet_defined layout width mask name octet pc prefix fuel j count index m w :
  packed_octet layout width mask name octet pc prefix fuel j count index m
  <> Undefined_behaviour w.
Proof.
  revert j count index m. induction fuel as [|fuel IH]; intros j count index m;
    cbn [packed_octet]; [discriminate|].
  destruct ((j <? 8) && negb (count =? 0)); [|discriminate].
  destruct (SCCalloc (mem m)) as [[object h]|]; [|discriminate].
  destruct (assign_member layout name _ ∅); [|discriminate].
  cbn [DNP3AddPoint]. apply IH.
Qed.

Lemma packed_loop_defined layout width mask name pc prefix bytes count index m w :
  packed_loop layout width mask name pc prefix bytes count index m
  <> Undefined_behaviour w.
Proof.
  revert count index m. induction bytes as [|bytes IH]; intros count index m;
    cbn [packed_loop]; [discriminate|].
  destruct (DNP3ReadUint8 (buf m)) as [[octet b]|]; [|discriminate].
  match goal with |- context [packed_octet ?a ?b ?c ?d ?e ?f ?g ?h ?i ?j ?k ?l] =>
    pose proof (packed_octet_defined a b c d e f g h i j k l) as Hdef;
    destruct (packed_octet a b c d e f g h i j k l) as [[c' i' m'|m']| |w']
  end; try discriminate.
  - apply IH.
  - intros H. apply (Hdef w'). reflexivity.
Qed.

Lemma run_decoder_defined RP IS U structs fn pc start count m w :
  decoder_reads_text fn = false ->
  run_decoder RP IS U structs fn pc start count m <> Undefined_behaviour w.
Proof.
  unfold run_decoder, decoder_reads_text. intros Ht.
  destruct (find _ structs) as [s|]; [|discriminate].
  destruct (fn_body fn) as [d|d].
  - unfold run_packed. destruct (c_literal (pd_step d)); [|discriminate].
    destruct (pd_mask d); [|discriminate]. destruct (_ <=? 0); [discriminate|].
    destruct (RP pc (buf m)) as [[prefix b]|]; [|discriminate].
    apply packed_loop_defined.
  - unfold run_records.
    destruct (check_constraints IS pc (rd_constraints d)) as [[]| |w'] eqn:E;
      try discriminate.
    + apply record_loop_defined. exact Ht.
    + exfalso. clear -E. induction (rd_constraints d) as [|c cs IH]; [discriminate|].
      cbn [check_constraints] in E. destruct c.
      * destruct (IS pc); [auto | discriminate].
      * destruct (c_literal val); [|discriminate]. destruct (pc =? z); [auto | discriminate].
Qed.

(** The decoder template renders the text branch for fields of type chararray
    only. *)
Lemma decoder_field_reads_text {J : jinja2} object field stmts :
  eq_str (jattr field "type") "chararray" = false ->
  py_res (decoder_field object field) = Ret stmts ->
  existsb reads_text stmts = false.
Proof.
  unfold decoder_field. intros Hty H. rewrite Hty in H.
  repeat match type of H with
  | context [if ?c then _ else _] => destruct c
  end;
  try (inversion H; subst stmts;
       destruct (jtruthy (jattr field "len_from_prefix")); reflexivity).
  - apply py_bind_res_ret in H as (subs & _ & H).
    apply py_bind_res_ret in H as (lines & _ & H). inversion H. reflexivity.
  - apply py_bind_res_ret in H as (g & _ & H).
    apply py_bind_res_ret in H as (v & _ & H). discriminate.
Qed.

Lemma render_each_forall {A B} (P : B -> bool) (l : list A) (body : A -> py (list B)) out :
  (forall x here, In x l -> py_res (body x) = Ret here -> existsb P here = false) ->
  py_res (render_each l body) = Ret out ->
  existsb P out = false.
Proof.
  revert out. induction l as [|x l IH]; intros out Hbody H; cbn [render_each] in H.
  - inversion H. reflexivity.
  - apply py_bind_res_ret in H as (here & Hhere & H).
    apply py_bind_res_ret in H as (rest & Hrest & H). inversion H; subst out.
    rewrite existsb_app, (Hbody x here (or_introl eq_refl) Hhere). cbn [orb].
    apply IH; [|exact Hrest]. intros y h Hy. apply Hbody. right. exact Hy.
Qed.

Lemma decoder_object_reads_text {J : jinja2} object fns fn :
  text_free object ->
  py_res (decoder_object object) = Ret fns -> In fn fns ->
  decoder_reads_text fn = false.
Proof.
  unfold decoder_object. intros Hfree H Hin.
  destruct (jtruthy (jattr object "packed")).
  - apply py_bind_res_ret in H as (first & _ & H).
    apply py_bind_res_ret in H as (width & _ & H).
    apply py_bind_res_ret in H as (name & _ & H).
    inversion H; subst fns. destruct Hin as [<- | []]. reflexivity.
  - apply py_bind_res_ret in H as (cs & _ & H).
    apply py_bind_res_ret in H as (fields & Hfields & H).
    apply py_bind_res_ret in H as (body & Hbody & H).
    inversion H; subst fns. destruct Hin as [<- | []].
    unfold decoder_reads_text. cbn [fn_body rd_body].
    apply (render_each_forall reads_text fields (decoder_field object)); [|exact Hbody].
    intros f here Hf Hhere. apply (decoder_field_reads_text object f); [|exact Hhere].
    specialize (Hfree fields Hfields). rewrite Forall_forall in Hfree.
    apply Hfree. apply list_elem_of_In. exact Hf.
Qed.

(** X8.  The copies of the vstr4 and byte-array branches stand behind a
    check of the bytes that remain, and the text branch is the only one that
    copies without one: for a schema in which no object has a field of type
    chararray, the rendered DNP3DecodeObject never takes more bytes than the
    buffer holds, whatever the hand-written helpers, the rendered header, the
    input bytes and the requested object are. *)
Theorem decoders_without_text_stay_in_bounds {J : jinja2}
    (RP : Z -> list byte -> option (Z * list byte)) (IS : Z -> bool)
    (U : list byte -> Z) (CODE : Z -> Z -> Z)
    (objects : list yaml) (structs : list struct_decl) (c : decoders_c)
    (group variation prefix_code start count : Z) (m : machine) (w : ub) :
  Forall text_free objects ->
  py_res (decoders_template objects) = Ret c ->
  DNP3DecodeObject RP IS U CODE structs c group variation prefix_code start count m
  <> Undefined_behaviour w.
Proof.
  intros Hfree Hc. apply decoders_template_cases in Hc as [_ Hfns].
  unfold DNP3DecodeObject.
  destruct (switch_labels _ _); [|discriminate].
  destruct (select _ _ _) as [dc|]; [|discriminate].
  destruct (find _ (decoders c)) as [fn|] eqn:Hfind; [|discriminate].
  apply find_some in Hfind as [Hin _].
  apply render_each_in in Hfns as [Hfns _].
  destruct (Hfns fn Hin) as (o & here & Ho & Hhere & Hfn).
  rewrite Forall_forall in Hfree.
  assert (Ht : decoder_reads_text fn = false).
  { apply (decoder_object_reads_text o here fn); [|exact Hhere|exact Hfn].
    apply Hfree. apply list_elem_of_In. exact Ho. }
  pose proof (run_decoder_defined RP IS U structs fn prefix_code start count m) as Hdef.
  destruct (run_decoder RP IS U structs fn prefix_code start count m) as [[rc m']| |w'];
    try discriminate.
  intros _. apply (Hdef w' Ht). reflexivity.
Qed.

Lemma decoders_without_text_stay_in_bounds_witness :
  match Example.rendered (J := Example.jinja2_8) [Example.bytes_then_crc] with
  | Some (structs, c) =>
      (* a byte array of five bytes announced, two bytes left *)
      DNP3DecodeObject Example.read_prefix Example.prefix_is_size Example.little_endian
        Example.object_code structs c 1 1 0 0 1 (Example.fresh [x05; x0a; x0b])
      = Done (DNP3_DECODER_EVENT_MALFORMED, Machine [x0a; x0b] (Heap ∅ 1 999) [])
      /\ DNP3DecodeObject Example.read_prefix Example.prefix_is_size Example.little_endian
           Example.object_code structs c 1 1 0 0 1 (Example.fresh [x05; x0a; x0b])
         <> Undefined_behaviour Read_past_buffer
  | None => False
  end.
Proof.
  destruct (Example.rendered (J := Example.jinja2_8) [Example.bytes_then_crc])
    as [[structs c]|] eqn:E; [|vm_compute in E; discriminate E].
  split; [vm_compute in E; inversion E; vm_compute; reflexivity|].
  apply (decoders_without_text_stay_in_bounds (J := Example.jinja2_8) _ _ _ _
           [YMap Example.bytes_then_crc]).
  - constructor; [|constructor].
    intros fields H. vm_compute in H. inversion H. repeat constructor.
  - vm_compute in E. inversion E. vm_compute. reflexivity.
Defined.

(** *** The points a record decoder appends *)

Lemma wrap32_succ_add (index : Z) (k : nat) :
  wrap32 (wrap32 (index + 1) + Z.of_nat k) = wrap32 (index + Z.of_nat (S k)).
Proof.
  unfold wrap32, to_unsigned. rewrite Zplus_mod_idemp_l. f_equal. lia.
Qed.

Lemma record_loop_points RP U layout d pc n index m rc m' :
  wrap32 index = index ->
  record_loop RP U layout d pc n index m = Done (rc, m') ->
  exists new,
    points m' = points m ++ new
    /\ (rc = 1 /\ length new = n \/ rc = 0 /\ (length new < n)%nat)
    /\ (forall (k : nat) pt, new !! k = Some pt ->
          pt_index pt = wrap32 (index + Z.of_nat k) /\ pt_prefix_code pt = pc).
Proof.
  revert index m. induction n as [|n IH]; intros index m Hindex H; cbn [record_loop] in H.
  - inversion H; subst. exists []. rewrite app_nil_r.
    split; [reflexivity|]. split; [left; split; reflexivity|]. intros k pt Hk. discriminate.
  - assert (Hstop : forall b h, Done (0, Machine b h (points m)) = Done (rc, m') ->
        exists new, points m' = points m ++ new
          /\ (rc = 1 /\ length new = S n \/ rc = 0 /\ (length new < S n)%nat)
          /\ (forall (k : nat) pt, new !! k = Some pt ->
                pt_index pt = wrap32 (index + Z.of_nat k) /\ pt_prefix_code pt = pc)).
    { intros b h E. inversion E; subst. exists []. rewrite app_nil_r.
      split; [reflexivity|]. split; [right; split; [reflexivity | cbn; lia]|].
      intros k pt Hk. discriminate. }
    destruct (SCCalloc (mem m)) as [[object h]|] eqn:Halloc.
    2:{ destruct m as [b h pts]. apply (Hstop b h). exact H. }
    destruct (RP pc (buf m)) as [[prefix b]|]; [|apply (Hstop _ _ H)].
    destruct (exec_stmts _ _ _ _ _ _) as [[f|f]| |w] eqn:Hbody; try discriminate;
      [|apply (Hstop _ _ H)].
    cbn [DNP3AddPoint] in H. apply IH in H as (new & Hpts & Hrc & Hnew);
      [|apply wrap32_idem].
    cbn [points mem] in Hpts, Hnew.
    exists (Point object (f_object f) index pc (wrap32 prefix) :: new). split; [|split].
    + rewrite Hpts, <- app_assoc. reflexivity.
    + cbn [length]. destruct Hrc as [[-> Hl]|[-> Hl]]; [left | right]; split;
        try reflexivity; lia.
    + intros [|k] pt Hk; cbn in Hk.
      * inversion Hk; subst pt. cbn [pt_index pt_prefix_code pt_addr].
        rewrite Z.add_0_r. split; [symmetry; exact Hindex | reflexivity].
      * destruct (Hnew k pt Hk) as (Hi & Hp). split; [|exact Hp].
        rewrite Hi. apply wrap32_succ_add.
Qed.

(** X9.  A record decoder only appends to the caller's point list.  It
    returns 1 or 0; with 1 it has appended exactly [count] points, with 0
    fewer than that, or none when [count] is 0 and a constraint failed.  The
    points are numbered from [start] upwards modulo 2^32 and all carry the
    prefix code of the call. *)
Theorem record_decoder_appends_numbered_points
    (RP : Z -> list byte -> option (Z * list byte)) (IS : Z -> bool)
    (U : list byte -> Z) (structs : list struct_decl) (fn : decoder_fn)
    (d : record_decoder) (prefix_code start count rc : Z) (m m' : machine) :
  fn_body fn = Records d ->
  run_decoder RP IS U structs fn prefix_code start count m = Done (rc, m') ->
  exists new,
    points m' = points m ++ new
    /\ (rc = 1 /\ length new = Z.to_nat count
        \/ rc = 0 /\ (length new <= Z.to_nat count)%nat)
    /\ (forall (k : nat) pt, new !! k = Some pt ->
          pt_index pt = wrap32 (start + Z.of_nat k) /\ pt_prefix_code pt = prefix_code).
Proof.
  unfold run_decoder. intros Hd H.
  destruct (find _ structs) as [s|]; [|discriminate].
  rewrite Hd in H. unfold run_records in H.
  destruct (check_constraints IS prefix_code (rd_constraints d)) as [[]| |w];
    try discriminate.
  - apply record_loop_points in H as (new & Hpts & Hrc & Hnew); [|apply wrap32_idem].
    exists new. split; [exact Hpts|]. split.
    + destruct Hrc as [[-> Hl]|[-> Hl]]; [left | right]; split; try reflexivity; lia.
    + intros k pt Hk. destruct (Hnew k pt Hk) as [Hi Hp]. split; [|exact Hp].
      rewrite Hi. unfold wrap32, to_unsigned. rewrite Zplus_mod_idemp_l. reflexivity.
  - inversion H; subst. exists []. rewrite app_nil_r. split; [reflexivity|].
    split; [right; split; [reflexivity | cbn; lia]|]. intros k pt Hk. discriminate.
Qed.

Lemma record_decoder_appends_numbered_points_witness :
  let fn := Decoder_fn "DNP3DecodeObjectG1V1" "DNP3ObjectG1V1"
              (Records (Record_decoder false [] [Read S_uint8 "n"])) in
  let m := Example.fresh [x07; x08] in
  match run_decoder Example.read_prefix Example.prefix_is_size Example.little_endian
          [Struct "DNP3ObjectG1V1" [Member uint8_t "n"]] fn 0 4294967295 3 m with
  | Done (rc, m') =>
      exists new,
        points m' = points m ++ new
        /\ (rc = 1 /\ length new = Z.to_nat 3
            \/ rc = 0 /\ (length new <= Z.to_nat 3)%nat)
        /\ (forall (k : nat) pt, new !! k = Some pt ->
              pt_index pt = wrap32 (4294967295 + Z.of_nat k) /\ pt_prefix_code pt = 0)
  | _ => False
  end.
Proof.
  intros fn m.
  destruct (run_decoder _ _ _ _ fn 0 4294967295 3 m) as [[rc m']| |w] eqn:E;
    [|vm_compute in E; discriminate E ..].
  apply (record_decoder_appends_numbered_points _ _ _ _ fn
           (Record_decoder false [] [Read S_uint8 "n"]) _ _ _ _ m m' eq_refl E).
Defined.

(** ** The files main writes *)

Lemma new_header_returns {T : file_text} (objects : list yaml) (fs : files) (h : text) :
  new_header objects fs = Ret h <->
  exists s content, py_res (structs_template objects) = Ret s
    /\ fs !! structs_h = Some content /\ re_sub (G_structs s) content = Some h.
Proof.
  unfold new_header. rewrite new_text_returns, tagged_res.
  destruct (py_res (structs_template objects)) as [s| c |e]; naive_solver.
Qed.

Lemma new_decoders_returns {J : jinja2} {T : file_text} (objects : list yaml) (fs : files)
    (c : text) :
  new_decoders objects fs = Ret c <->
  exists d content, py_res (decoders_template objects) = Ret d
    /\ fs !! decoders_c_file = Some content /\ re_sub (G_decoders d) content = Some c.
Proof.
  unfold new_decoders. rewrite new_text_returns, tagged_res.
  destruct (py_res (decoders_template objects)) as [d| x |e]; naive_solver.
Qed.

(** Looks a name up in a map built by insertions at the target names. *)
Ltac lookups :=
  repeat first [rewrite lookup_insert_eq | rewrite lookup_insert_ne by congruence].



(** ** What a run prints *)



(** ** The four templates on one field *)

Lemma bind_ret_res {A B} (m : py A) (k : A -> py B) a :
  py_res m = Ret a -> py_res (py_bind m k) = py_res (k a).
Proof. intros H. unfold py_bind. rewrite H. reflexivity. Qed.

Lemma bstr8_subfields_names {J : jinja2} (subs : list yaml) : forall shift lines,
  py_res (bstr8_subfields shift subs) = Ret lines ->
  map x_name lines = map (fun f => render (jattr f "name")) subs.
Proof.
  induction subs as [|f subs IH]; intros shift lines H; cbn [bstr8_subfields] in H.
  - inversion H. reflexivity.
  - apply py_bind_res_ret in H as (line & Hline & H).
    apply py_bind_res_ret in H as (shift' & _ & H).
    apply py_bind_res_ret in H as (rest & Hrest & H).
    inversion H; subst lines. cbn [map]. f_equal; [|exact (IH _ _ Hrest)].
    repeat match type of Hline with
    | context [if ?c then _ else _] => destruct c
    end; try (inversion Hline; reflexivity).
    apply py_bind_res_ret in Hline as (? & _ & Hline). discriminate.
Qed.

(** Takes [H], the result of a template's switch on the type [ty] of a field,
    apart: in each branch the type is known and [tac] closes the goal; what
    is left is the branch that raises. *)
Ltac by_type H ty tac :=
  repeat match type of H with
  | context [if eq_str ty ?s then _ else _] =>
      let E := fresh "E" in
      destruct (eq_str ty s) eqn:E; [apply eq_str_true in E; tac E|]
  end.

Lemma raises_after_two {A} (m1 m2 : py Z) (e : exception) (a : A) :
  py_res (m1;; m2;; py_raise e) <> Ret a.
Proof.
  intros H. apply py_bind_res_ret in H as (? & _ & H).
  apply py_bind_res_ret in H as (? & _ & H). discriminate.
Qed.

Lemma struct_field_readers (object field : yaml) (members : list member) :
  py_res (struct_field object field) = Ret members ->
  exists le je,
    py_res (lua_field field) = Ret le /\ py_res (json_field field) = Ret je
    /\ map lua_member le = map m_name members
    /\ map json_member je = map m_name members.
Proof.
  unfold struct_field, lua_field, json_field.
  remember (jattr field "type") as ty eqn:Hty. intros H.
  by_type H ty ltac:(fun E =>
    rewrite E in *; cbn [eq_str is_integer_type in_strs str_in existsb integer_types
                         flt_types String.eqb Ascii.eqb Bool.eqb orb];
    try (inversion H; subst members; eexists _, _; repeat split; reflexivity)).
  - apply py_bind_res_ret in H as (subs & Hsubs & H).
    rewrite render_each_pure in H. inversion H; subst members.
    rewrite !(bind_ret_res _ _ _ Hsubs), !render_each_pure.
    eexists _, _. split; [reflexivity|]. split; [reflexivity|].
    rewrite !map_map. split; reflexivity.
  - destruct (raises_after_two _ _ _ _ H).
Qed.

(** X12.  The templates agree on the members of a field.  A field the record
    decoder template renders is a field the header template renders, and
    the decoder fills from the wire exactly the members the header declares
    for it, in the same order.  A field the header template renders is a
    field the Lua and the JSON templates render, and they read exactly those
    members, in the same order. *)
Theorem templates_agree_on_the_members_of_a_field {J : jinja2} (object field : yaml) :
  (forall stmts,
     py_res (decoder_field object field) = Ret stmts ->
     exists members,
       py_res (struct_field object field) = Ret members
       /\ concat (map destinations stmts) = map m_name members)
  /\ (forall members,
        py_res (struct_field object field) = Ret members ->
        exists le je,
          py_res (lua_field field) = Ret le /\ py_res (json_field field) = Ret je
          /\ map lua_member le = map m_name members
          /\ map json_member je = map m_name members).
Proof.
  split.
  - intros stmts.
    unfold decoder_field, struct_field.
    remember (jattr field "type") as ty eqn:Hty. intros H.
    by_type H ty ltac:(fun E =>
      rewrite E in *; cbn [eq_str String.eqb Ascii.eqb Bool.eqb];
      try (inversion H; subst stmts; eexists; split; [reflexivity|];
           destruct (jtruthy (jattr field "len_from_prefix")); reflexivity)).
    + apply py_bind_res_ret in H as (subs & Hsubs & H).
      apply py_bind_res_ret in H as (lines & Hlines & H). inversion H; subst stmts.
      rewrite (bind_ret_res _ _ _ Hsubs), render_each_pure.
      eexists. split; [reflexivity|].
      cbn [map concat destinations]. rewrite app_nil_r, map_map.
      apply (bstr8_subfields_names _ _ _ Hlines).
    + destruct (raises_after_two _ _ _ _ H).
  - intros members. apply struct_field_readers.
Qed.

Lemma templates_agree_on_the_members_of_a_field_witness :
  let object := YMap Example.nibbles in
  let field := Example.field "bstr8" "flags"
                 [("fields", YSeq [Example.bits "lo" 4; Example.bits "hi" 4])] in
  (exists members,
     py_res (struct_field object field) = Ret members
     /\ concat (map destinations [Read_bstr8 [Extract "lo" 0 15; Extract "hi" 4 15]])
        = map m_name members)
  /\ (exists le je,
        py_res (lua_field field) = Ret le /\ py_res (json_field field) = Ret je
        /\ map lua_member le = ["lo"; "hi"] /\ map json_member je = ["lo"; "hi"]).
Proof.
  intros object field.
  destruct (templates_agree_on_the_members_of_a_field (J := Example.jinja2_8) object field)
    as [HA HB].
  split.
  - apply HA. reflexivity.
  - apply (HB [Member (uint8_bits (Some (YInt 4))) "lo";
               Member (uint8_bits (Some (YInt 4))) "hi"]). reflexivity.
Defined.

(** ** The templates on a whole schema *)

Lemma render_each_Forall2 {A B C} (R : B -> C -> Prop) (l : list A)
    (body1 : A -> py (list B)) (body2 : A -> py (list C)) out1 :
  (forall x here1, py_res (body1 x) = Ret here1 ->
     exists here2, py_res (body2 x) = Ret here2 /\ Forall2 R here1 here2) ->
  py_res (render_each l body1) = Ret out1 ->
  exists out2, py_res (render_each l body2) = Ret out2 /\ Forall2 R out1 out2.
Proof.
  intros Hbody. revert out1. induction l as [|x l IH]; intros out1 H; cbn [render_each] in *.
  - inversion H. exists []. split; [reflexivity | constructor].
  - apply py_bind_res_ret in H as (here1 & Hhere & H).
    apply py_bind_res_ret in H as (rest1 & Hrest & H). inversion H; subst out1.
    destruct (Hbody x here1 Hhere) as (here2 & Hhere2 & HR).
    destruct (IH rest1 Hrest) as (rest2 & Hrest2 & HRrest).
    exists (here2 ++ rest2). split.
    + rewrite (bind_ret_res _ _ _ Hhere2), (bind_ret_res _ _ _ Hrest2). reflexivity.
    + apply Forall2_app; assumption.
Qed.

Lemma same_names_Forall2 {B C} (f : B -> string) (g : C -> string) l k :
  map g k = map f l -> Forall2 (fun x y => f x = g y) l k.
Proof.
  revert k. induction l as [|x l IH]; intros [|y k] H; try discriminate; constructor.
  - cbn in H. congruence.
  - apply IH. cbn in H. congruence.
Qed.

Lemma Forall2_same_names {B C} (f : B -> string) (g : C -> string) l k :
  Forall2 (fun x y => f x = g y) l k -> map g k = map f l.
Proof. induction 1; cbn; congruence. Qed.

Lemma struct_object_readers (object : yaml) (structs : list struct_decl) :
  py_res (struct_object object) = Ret structs ->
  exists st lc jc,
    structs = [st]
    /\ py_res (lua_object object) = Ret [lc] /\ py_res (json_object object) = Ret [jc]
    /\ covers object st lc jc.
Proof.
  unfold struct_object, lua_object, json_object. intros H.
  apply py_bind_res_ret in H as (fields & Hfields & H).
  apply py_bind_res_ret in H as (members & Hmembers & H).
  apply py_bind_res_ret in H as (extra & Hextra & H). inversion H; subst structs.
  destruct (render_each_Forall2 (fun m e => m_name m = lua_member e) fields
              (struct_field object) lua_field members) as (le & Hle & HRl);
    [|exact Hmembers|].
  { intros f here Hhere.
    destruct (struct_field_readers object f here Hhere) as (le & _ & Hle & _ & Hn & _).
    exists le. split; [exact Hle | apply same_names_Forall2; exact Hn]. }
  destruct (render_each_Forall2 (fun m e => m_name m = json_member e) fields
              (struct_field object) json_field members) as (je & Hje & HRj);
    [|exact Hmembers|].
  { intros f here Hhere.
    destruct (struct_field_readers object f here Hhere) as (_ & je & _ & Hje & _ & Hn).
    exists je. split; [exact Hje | apply same_names_Forall2; exact Hn]. }
  rewrite !(bind_ret_res _ _ _ Hfields), (bind_ret_res _ _ _ Hle), (bind_ret_res _ _ _ Hje).
  eexists _, _, _. split; [reflexivity|]. split; [reflexivity|]. split; [reflexivity|].
  apply Forall2_same_names in HRl, HRj.
  unfold covers. cbn [s_name s_members lc_group lc_variation lc_entries
                      jc_group jc_variation jc_entries].
  do 5 (split; [reflexivity|]).
  exists extra. split; [exact Hextra|]. rewrite map_app, HRl, HRj. split; reflexivity.
Qed.

Lemma structs_template_covered (objects : list yaml) (s : list struct_decl) :
  py_res (structs_template objects) = Ret s ->
  exists l j,
    py_res (lua_template objects) = Ret l /\ py_res (json_template objects) = Ret j
    /\ length s = length objects /\ length l = length objects
    /\ length j = length objects
    /\ forall (i : nat) o st lc jc,
         objects !! i = Some o -> s !! i = Some st ->
         l !! i = Some lc -> j !! i = Some jc ->
         covers o st lc jc.
Proof.
  unfold structs_template, lua_template, json_template.
  revert s. induction objects as [|o objects IH]; intros s H; cbn [render_each] in *.
  - inversion H. exists [], []. do 5 (split; [reflexivity|]).
    intros i o st lc jc Ho. discriminate Ho.
  - apply py_bind_res_ret in H as (here & Hhere & H).
    apply py_bind_res_ret in H as (rest & Hrest & H). inversion H; subst s.
    destruct (struct_object_readers o here Hhere) as (st0 & lc0 & jc0 & -> & Hlc & Hjc & Hcov).
    destruct (IH rest Hrest) as (l & j & Hl & Hj & Hls & Hll & Hlj & Hall).
    exists (lc0 :: l), (jc0 :: j).
    rewrite (bind_ret_res _ _ _ Hlc), (bind_ret_res _ _ _ Hl).
    rewrite (bind_ret_res _ _ _ Hjc), (bind_ret_res _ _ _ Hj).
    split; [reflexivity|]. split; [reflexivity|]. cbn [app length].
    split; [congruence|]. split; [congruence|]. split; [congruence|].
    intros [|i] o' st lc jc Ho Hst Hlc' Hjc'; cbn in Ho, Hst, Hlc', Hjc'.
    + inversion Ho; inversion Hst; inversion Hlc'; inversion Hjc'; subst. exact Hcov.
    + apply (Hall i); assumption.
Qed.

Lemma structs_template_renders_readers (objects : list yaml) (s : list struct_decl) :
  py_res (structs_template objects) = Ret s ->
  exists l j,
    py_res (lua_template objects) = Ret l /\ py_res (json_template objects) = Ret j.
Proof.
  intros H. destruct (structs_template_covered objects s H) as (l & j & Hl & Hj & _).
  eauto.
Qed.

(** X13.  Once the header template has rendered a schema, the Lua and the
    JSON templates render it too.  Each renders one case per object, as the
    header renders one struct per object, in the order of the schema: the
    struct is named after the object's group and variation and the cases are
    those of that group and variation; each case reads, in order, the members
    its struct declares for the object's fields, and the remaining members of
    the struct are those the header renders for the object's extra_fields. *)
Theorem header_covers_lua_and_json (objects : list yaml) (s : list struct_decl) :
  py_res (structs_template objects) = Ret s ->
  exists l j,
    py_res (lua_template objects) = Ret l /\ py_res (json_template objects) = Ret j
    /\ length s = length objects /\ length l = length objects
    /\ length j = length objects
    /\ forall (i : nat) o st lc jc,
         objects !! i = Some o -> s !! i = Some st ->
         l !! i = Some lc -> j !! i = Some jc ->
         s_name st = struct_name o
         /\ lc_group lc = jattr o "group" /\ lc_variation lc = jattr o "variation"
         /\ jc_group jc = jattr o "group" /\ jc_variation jc = jattr o "variation"
         /\ exists extra,
              py_res (extra_members o) = Ret extra
              /\ map m_name (s_members st)
                 = map lua_member (lc_entries lc) ++ map m_name extra
              /\ map m_name (s_members st)
                 = map json_member (jc_entries jc) ++ map m_name extra.
Proof. exact (structs_template_covered objects s). Qed.

Lemma header_covers_lua_and_json_witness :
  exists l j,
    py_res (lua_template [YMap Example.prefixed_bytes]) = Ret l
    /\ py_res (json_template [YMap Example.prefixed_bytes]) = Ret j
    /\ length l = 1%nat /\ length j = 1%nat
    /\ forall lc jc,
         l !! 0%nat = Some lc -> j !! 0%nat = Some jc ->
         lc_group lc = Some (YInt 70) /\ jc_variation jc = Some (YInt 5)
         /\ exists extra,
              py_res (extra_members (YMap Example.prefixed_bytes)) = Ret extra
              /\ ["data"; "n"] = map lua_member (lc_entries lc) ++ map m_name extra
              /\ ["data"; "n"] = map json_member (jc_entries jc) ++ map m_name extra.
Proof.
  destruct (header_covers_lua_and_json [YMap Example.prefixed_bytes]
              [Struct "DNP3ObjectG70V5" [Member uint8_ptr "data"; Member uint16_t "n"]])
    as (l & j & Hl & Hj & _ & Hll & Hlj & Hall); [vm_compute; reflexivity|].
  exists l, j. split; [exact Hl|]. split; [exact Hj|].
  split; [exact Hll|]. split; [exact Hlj|].
  intros lc jc Hlc Hjc.
  destruct (Hall 0%nat (YMap Example.prefixed_bytes) _ lc jc eq_refl eq_refl Hlc Hjc)
    as (_ & Hg & _ & _ & Hv & Hextra).
  split; [exact Hg|]. split; [exact Hv|]. exact Hextra.
Defined.



(** ** The packed decoder *)

Section Packed.

Variable layout : list member.
Variables width mask : Z.
Variable name : string.
Variables prefix_code prefix : Z.

(** what the [k]-th point of an octet holds, the inner loop having started
    at bit [j] *)
Let point_of (octet j index : Z) (k : nat) (pt : point) : Prop :=
  pt_index pt = wrap32 (index + Z.of_nat k)
  /\ pt_prefix_code pt = prefix_code /\ pt_prefix pt = prefix
  /\ assign_member layout name
       (Z.land (Z.shiftr octet (j + width * Z.of_nat k)) mask) ∅ = Some (pt_data pt).

Lemma packed_octet_points (octet : Z) (fuel : nat) : forall j count index m count' index' m',
  0 <= count -> wrap32 index = index ->
  packed_octet layout width mask name octet prefix_code prefix fuel j count index m
  = Done (Carry_on count' index' m') ->
  exists new,
    points m' = points m ++ new /\ buf m' = buf m
    /\ length new = Nat.min (packed_slots width fuel j) (Z.to_nat count)
    /\ count' = count - Z.of_nat (length new)
    /\ index' = wrap32 (index + Z.of_nat (length new))
    /\ forall k pt, new !! k = Some pt -> point_of octet j index k pt.
Proof.
  induction fuel as [|fuel IH]; intros j count index m count' index' m' Hcount Hindex H;
    cbn [packed_octet packed_slots] in *.
  - inversion H; subst. exists []. rewrite app_nil_r. cbn. rewrite Z.add_0_r.
    do 5 (split; [first [reflexivity | lia | symmetry; assumption]|]).
    intros k pt Hk. discriminate.
  - destruct (j <? 8) eqn:Hj; cbn [andb] in H.
    2:{ inversion H; subst. exists []. rewrite app_nil_r. cbn. rewrite Z.add_0_r.
        do 5 (split; [first [reflexivity | lia | symmetry; assumption]|]).
        intros k pt Hk. discriminate. }
    destruct (count =? 0) eqn:Hc; cbn [negb] in H.
    { apply Z.eqb_eq in Hc. inversion H; subst. exists []. rewrite app_nil_r. cbn.
      rewrite Z.add_0_r.
      do 5 (split; [first [reflexivity | lia | symmetry; assumption]|]).
      intros k pt Hk. discriminate. }
    apply Z.eqb_neq in Hc.
    destruct (SCCalloc (mem m)) as [[object h]|]; [|discriminate].
    destruct (assign_member layout name _ ∅) as [data|] eqn:Hdata; [|discriminate].
    cbn [DNP3AddPoint] in H. apply IH in H as (new & Hpts & Hbuf & Hlen & Hc' & Hi' & Hnew);
      [|lia|apply wrap32_idem].
    cbn [points buf] in Hpts, Hbuf.
    exists (Point object data index prefix_code prefix :: new).
    split; [rewrite Hpts, <- app_assoc; reflexivity|]. split; [exact Hbuf|].
    cbn [length]. split; [lia|]. split; [lia|].
    split; [rewrite Hi'; apply wrap32_succ_add|].
    intros [|k] pt Hk; cbn in Hk.
    + inversion Hk; subst pt. unfold point_of. cbn [pt_index pt_prefix_code pt_prefix pt_data].
      rewrite Z.mul_0_r, !Z.add_0_r. split; [symmetry; exact Hindex|].
      split; [reflexivity|]. split; [reflexivity | exact Hdata].
    + destruct (Hnew k pt Hk) as (Hi & Hpc & Hp & Hd). unfold point_of.
      split; [rewrite Hi; apply wrap32_succ_add|]. split; [exact Hpc|]. split; [exact Hp|].
      rewrite <- Hd. do 3 f_equal. lia.
Qed.

(** what the [k]-th point of a call holds, [per] points coming from each
    octet of [b] *)
Let packed_point (b : list byte) (per : nat) (index : Z) (k : nat) (pt : point) : Prop :=
  pt_index pt = wrap32 (index + Z.of_nat k)
  /\ pt_prefix_code pt = prefix_code /\ pt_prefix pt = prefix
  /\ exists o, b !! (k / per)%nat = Some o
       /\ assign_member layout name
            (Z.land (Z.shiftr (octet_value o) (width * Z.of_nat (k mod per))) mask) ∅
          = Some (pt_data pt).

Lemma packed_loop_points (bytes : nat) : forall count index m m',
  let per := packed_slots width 8 0 in
  (0 < per)%nat -> 0 <= count -> wrap32 index = index ->
  packed_loop layout width mask name prefix_code prefix bytes count index m = Done (1, m') ->
  (bytes <= length (buf m))%nat /\ buf m' = drop bytes (buf m)
  /\ exists new,
       points m' = points m ++ new
       /\ length new = Nat.min (bytes * per) (Z.to_nat count)
       /\ forall k pt, new !! k = Some pt -> packed_point (buf m) per index k pt.
Proof.
  induction bytes as [|bytes IH]; intros count index m m' per Hper Hcount Hindex H;
    cbn [packed_loop] in H.
  - inversion H; subst. split; [cbn; lia|]. split; [reflexivity|].
    exists []. rewrite app_nil_r. split; [reflexivity|]. split; [reflexivity|].
    intros k pt Hk. discriminate.
  - destruct (buf m) as [|o b] eqn:Hbuf; cbn [DNP3ReadUint8] in H; [discriminate|].
    destruct (packed_octet _ _ _ _ _ _ _ _ _ _ _ _) as [[c1 i1 m1|m1]| |w] eqn:Hoctet;
      try discriminate.
    apply packed_octet_points in Hoctet
      as (new1 & Hpts1 & Hbuf1 & Hlen1 & Hc1 & Hi1 & Hnew1); [|exact Hcount|exact Hindex].
    fold per in Hlen1. cbn [points buf] in Hpts1, Hbuf1.
    apply IH in H as (Hbytes & Hdrop & new2 & Hpts2 & Hlen2 & Hnew2);
      [|exact Hper|lia|rewrite Hi1; apply wrap32_idem].
    fold per in Hlen2. rewrite Hbuf1 in Hbytes, Hdrop, Hnew2.
    split; [cbn [length]; lia|]. split; [exact Hdrop|].
    exists (new1 ++ new2). split; [rewrite Hpts2, Hpts1, <- app_assoc; reflexivity|].
    split.
    { rewrite length_app, Hlen2, Hc1, Hlen1. cbn [Nat.mul]. lia. }
    intros k pt Hk. destruct (decide (k < length new1)%nat) as [Hlt|Hge].
    + rewrite lookup_app_l in Hk by exact Hlt.
      destruct (Hnew1 k pt Hk) as (Hi & Hpc & Hp & Hd).
      assert (k < per)%nat as Hk_per by lia.
      split; [exact Hi|]. split; [exact Hpc|]. split; [exact Hp|].
      exists o. rewrite Nat.div_small, Nat.mod_small by exact Hk_per.
      split; [reflexivity|]. rewrite <- Hd. do 3 f_equal.
    + rewrite lookup_app_r in Hk by lia.
      assert (length new2 <> 0)%nat as Hne.
      { intros Hz. apply length_zero_iff_nil in Hz. subst new2. discriminate. }
      assert (length new1 = per) as Hfull by lia.
      destruct (Hnew2 _ pt Hk) as (Hi & Hpc & Hp & o' & Ho' & Hd).
      rewrite Hfull in *.
      assert (k = (k - per) + 1 * per)%nat as Hk_eq by lia.
      split; [rewrite Hi, Hi1, wrap32_add_wrap32_l; f_equal; lia|].
      split; [exact Hpc|]. split; [exact Hp|].
      exists o'. rewrite Hk_eq, Nat.div_add, Nat.Div0.mod_add by lia.
      split; [|exact Hd].
      rewrite Nat.add_1_r. exact Ho'.
Qed.

End Packed.



(** ** Who owns the blocks a decoder allocates *)

Lemma owned_inv (pt : point) (p : nat) :
  p ∈ owned pt ->
  p = pt_addr pt \/ exists name bs, pt_data pt !! name = Some (VBytes p bs).
Proof.
  unfold owned. intros [H | H]%elem_of_union; [left; set_solver | right].
  revert H. generalize (pt_data pt). intros data.
  apply (map_fold_weak_ind
           (fun (r : gset nat) (m : gmap string cval) =>
              p ∈ r -> exists name bs, m !! name = Some (VBytes p bs))).
  - intros H. set_solver.
  - intros i x m r Hi IH H.
    assert (Hold : p ∈ r -> exists name bs, <[i := x]> m !! name = Some (VBytes p bs)).
    { intros Hr. destruct (IH Hr) as (name & bs & Hn). exists name, bs.
      rewrite lookup_insert_ne; [exact Hn|]. intros ->. congruence. }
    destruct x as [| | | |a bs]; try (apply Hold; exact H).
    apply elem_of_union in H as [H | H]; [|apply Hold; exact H].
    apply elem_of_singleton in H. subst a. exists i, bs. apply lookup_insert_eq.
Qed.

Lemma insert_keeps_arrays (obj : object_store) (dst : string) (v : cval) name a bs :
  is_array v = false ->
  <[dst := v]> obj !! name = Some (VBytes a bs) -> obj !! name = Some (VBytes a bs).
Proof.
  intros Hv H. destruct (decide (dst = name)) as [->|Hne].
  - rewrite lookup_insert_eq in H. inversion H; subst v. discriminate.
  - rewrite lookup_insert_ne in H by exact Hne. exact H.
Qed.

Lemma frame_inv_same_heap h0 (f : frame) b' obj' :
  frame_inv h0 f ->
  (forall name a bs, obj' !! name = Some (VBytes a bs) ->
     f_object f !! name = Some (VBytes a bs)) ->
  frame_inv h0 (Frame b' (f_mem f) obj').
Proof.
  intros (Hwf & Hnext & Hlive & Harr) Hobj. unfold frame_inv. cbn [f_mem f_object].
  split; [exact Hwf|]. split; [exact Hnext|]. split; [exact Hlive|].
  intros name a bs H. apply (Harr name a bs). apply Hobj. exact H.
Qed.

Lemma read_scalar_no_array U sc b v b' :
  read_scalar U sc b = Some (v, b') -> is_array v = false.
Proof.
  destruct sc; cbn [read_scalar]; intros H;
    apply fmap_Some in H as ([n b''] & _ & H); inversion H; reflexivity.
Qed.

Lemma assign_member_arrays layout name v obj obj' :
  assign_member layout name v obj = Some obj' ->
  forall n a bs, obj' !! n = Some (VBytes a bs) -> obj !! n = Some (VBytes a bs).
Proof.
  unfold assign_member. intros H n a bs Hn.
  destruct (member_type layout name) as [t|]; [|discriminate]. cbn in H.
  destruct (assign_int t v) as [z|]; [|discriminate]. cbn in H. inversion H; subst obj'.
  apply (insert_keeps_arrays obj name (VInt z) n a bs eq_refl Hn).
Qed.

Lemma exec_extracts_arrays layout octet xs : forall obj obj',
  exec_extracts layout octet xs obj = Some obj' ->
  forall n a bs, obj' !! n = Some (VBytes a bs) -> obj !! n = Some (VBytes a bs).
Proof.
  induction xs as [|x xs IH]; intros obj obj' H n a bs Hn; cbn [exec_extracts] in H.
  - inversion H; subst. exact Hn.
  - destruct (assign_member layout (x_name x) _ obj) as [obj1|] eqn:E; [|discriminate].
    cbn in H. apply (assign_member_arrays _ _ _ _ _ E). apply (IH _ _ H). exact Hn.
Qed.

Lemma exec_stmt_heap U layout prefix offset s f f' h0 :
  exec_stmt U layout prefix offset s f = Done (Next f') ->
  frame_inv h0 f -> frame_inv h0 f'.
Proof.
  intros H Hinv. destruct s; cbn [exec_stmt] in H.
  - destruct (read_scalar U s (f_buf f)) as [[v b']|] eqn:E; [|discriminate].
    inversion H; subst f'. apply frame_inv_same_heap; [exact Hinv|].
    intros name a bs. apply insert_keeps_arrays. exact (read_scalar_no_array _ _ _ _ _ E).
  - destruct (_ <? 4) eqn:E4; [discriminate|].
    rewrite memcpy_from_buf_guarded in H by exact E4. inversion H; subst f'.
    apply frame_inv_same_heap; [exact Hinv|].
    intros name a bs. apply insert_keeps_arrays. reflexivity.
  - destruct offset as [offset|]; [|discriminate].
    destruct (assign_member _ _ _ _) as [obj'|] eqn:E; [|discriminate].
    inversion H; subst f'. apply frame_inv_same_heap; [exact Hinv|].
    exact (assign_member_arrays _ _ _ _ _ E).
  - destruct (negb _); [discriminate|].
    destruct (0 <? _); [|inversion H; subst f'; exact Hinv].
    destruct (_ <? _) eqn:En; [discriminate|].
    destruct (SCCalloc (f_mem f)) as [[p h']|] eqn:E; [|discriminate].
    rewrite memcpy_from_buf_guarded in H by exact En.
    inversion H; subst f'. clear H.
    unfold SCCalloc in E. destruct (avail (f_mem f)); [discriminate|]. inversion E; subst p h'.
    destruct Hinv as (Hwf & Hnext & Hlive & Harr). unfold frame_inv, heap_wf.
    cbn [f_mem f_object live next].
    split; [|split; [|split]].
    + intros p [Hp | Hp]%elem_of_union; [apply elem_of_singleton in Hp; lia|].
      specialize (Hwf p Hp). lia.
    + lia.
    + set_solver.
    + intros name a bs Hn. destruct (decide (dst = name)) as [->|Hne].
      * rewrite lookup_insert_eq in Hn. inversion Hn; subst. split; [lia | set_solver].
      * rewrite lookup_insert_ne in Hn by exact Hne.
        destruct (Harr name a bs Hn) as [Hr Hl]. split; [lia | set_solver].
  - destruct (negb _); [discriminate|].
    destruct (char_capacity layout dst); [|discriminate].
    unfold memcpy_from_buf in H.
    repeat match type of H with
    | (if ?c then _ else _) = _ => destruct c; try discriminate
    | and_next (if ?c then _ else _) _ = _ => destruct c; cbn [and_next] in H; try discriminate
    end; inversion H; subst f'; (apply frame_inv_same_heap; [exact Hinv|]);
      intros name a bs; apply insert_keeps_arrays; reflexivity.
  - destruct (DNP3ReadUint8 (f_buf f)) as [[octet b']|]; [|discriminate].
    destruct (exec_extracts _ _ _ _) as [obj'|] eqn:E; [|discriminate].
    inversion H; subst f'. apply frame_inv_same_heap; [exact Hinv|].
    exact (exec_extracts_arrays _ _ _ _ _ E).
Qed.

Lemma exec_stmts_heap U layout prefix offset body : forall f f' h0,
  (exec_stmts U layout prefix offset body f = Done (Next f')
   \/ exec_stmts U layout prefix offset body f = Done (Goto_error f')) ->
  frame_inv h0 f -> frame_inv h0 f'.
Proof.
  induction body as [|s body IH]; intros f f' h0 H Hinv; cbn [exec_stmts] in H.
  - destruct H as [H | H]; [inversion H; subst; exact Hinv | discriminate].
  - pose proof (exec_stmt_cursor U layout prefix offset s f) as Hcur.
    pose proof (fun f1 => exec_stmt_heap U layout prefix offset s f f1 h0) as Hstep.
    destruct (exec_stmt U layout prefix offset s f) as [[f1|f1]| |w].
    + apply (IH f1 f' h0 H). apply Hstep; [reflexivity | exact Hinv].
    + destruct H as [H | H]; [discriminate|]. inversion H; subst f'. subst f1. exact Hinv.
    + destruct H; discriminate.
    + destruct H; discriminate.
Qed.

Lemma SCCalloc_fresh (h h' : heap) (p : nat) :
  SCCalloc h = Some (p, h') ->
  p = next h /\ live h' = {[p]} ∪ live h /\ next h' = S p.
Proof.
  unfold SCCalloc. destruct (avail h); [discriminate|]. intros H. inversion H. auto.
Qed.

(** What a failed record leaves: the heap [h1] it reached, less the block of
    its object. *)
Lemma release_object_keeps (h0 h1 : heap) (object : nat) :
  heap_wf h0 -> heap_wf h1 -> object = next h0 ->
  (next h0 <= next h1)%nat -> live h0 ⊆ live h1 ->
  heap_wf (SCFree object h1)
  /\ (next h0 <= next (SCFree object h1))%nat
  /\ live h0 ⊆ live (SCFree object h1).
Proof.
  intros Hwf0 Hwf1 -> Hnext Hlive. unfold heap_wf, SCFree in *. cbn [live next].
  split; [|split; [exact Hnext|]].
  - intros p Hp. apply Hwf1. set_solver.
  - intros p Hp. specialize (Hwf0 p Hp). apply elem_of_difference. split; [set_solver|].
    intros Heq%elem_of_singleton. lia.
Qed.

Lemma record_loop_owners RP U layout d pc n : forall index m rc m',
  heap_wf (mem m) ->
  record_loop RP U layout d pc n index m = Done (rc, m') ->
  heap_wf (mem m') /\ (next (mem m) <= next (mem m'))%nat /\ live (mem m) ⊆ live (mem m')
  /\ exists new,
       points m' = points m ++ new
       /\ Forall (allocated_between (mem m) (mem m')) new
       /\ disjoint_owners new.
Proof.
  induction n as [|n IH]; intros index m rc m' Hwf H; cbn [record_loop] in H.
  { inversion H; subst. split; [exact Hwf|]. split; [lia|]. split; [set_solver|].
    exists []. rewrite app_nil_r. split; [reflexivity|]. split; constructor. }
  assert (Hstop : forall b h1,
    heap_wf h1 /\ (next (mem m) <= next h1)%nat /\ live (mem m) ⊆ live h1 ->
    Done (0, Machine b h1 (points m)) = Done (rc, m') ->
    heap_wf (mem m') /\ (next (mem m) <= next (mem m'))%nat /\ live (mem m) ⊆ live (mem m')
    /\ exists new, points m' = points m ++ new
         /\ Forall (allocated_between (mem m) (mem m')) new /\ disjoint_owners new).
  { intros b h1 (Hw & Hn & Hl) E. inversion E; subst. cbn [mem points].
    split; [exact Hw|]. split; [exact Hn|]. split; [exact Hl|].
    exists []. rewrite app_nil_r. split; [reflexivity|]. split; constructor. }
  destruct (SCCalloc (mem m)) as [[object h]|] eqn:Halloc.
  2:{ destruct m as [b h pts]. apply (Hstop b h); [|exact H].
      cbn [mem]. split; [exact Hwf|]. split; [lia | set_solver]. }
  apply SCCalloc_fresh in Halloc as (Hobject & Hlive_h & Hnext_h).
  assert (Hwf_h : heap_wf h).
  { intros p Hp. rewrite Hlive_h in Hp. rewrite Hnext_h.
    apply elem_of_union in Hp as [Hp%elem_of_singleton | Hp]; [lia|].
    specialize (Hwf p Hp). lia. }
  destruct (RP pc (buf m)) as [[prefix b]|].
  2:{ apply (Hstop _ _ (release_object_keeps (mem m) h object Hwf Hwf_h Hobject
                          ltac:(lia) ltac:(set_solver)) H). }
  assert (Hstart : frame_inv h (Frame b h ∅)).
  { split; [exact Hwf_h|]. split; [cbn; lia|]. split; [set_solver|].
    intros name a bs Hn. cbn in Hn. rewrite lookup_empty in Hn. discriminate. }
  match type of H with context [exec_stmts ?U ?l ?p ?o ?body ?f] =>
    pose proof (exec_stmts_heap U l p o body f) as Hbody;
    destruct (exec_stmts U l p o body f) as [[f'|f']| |w]
  end; try discriminate.
  - destruct (Hbody f' h (or_introl eq_refl) Hstart) as (Hwf' & Hnext' & Hlive' & Harr).
    cbn [DNP3AddPoint] in H. apply IH in H as (Hwf2 & Hnext2 & Hlive2 & new & Hpts & Hnew & Hdis);
      [|exact Hwf'].
    cbn [mem points] in *.
    split; [exact Hwf2|]. split; [lia|]. split; [set_solver|].
    set (pt := Point object (f_object f') index pc (wrap32 prefix)).
    assert (Hpt : forall p, p ∈ owned pt ->
              (next (mem m) <= p < next (f_mem f'))%nat /\ p ∈ live (f_mem f')).
    { intros p Hp. apply owned_inv in Hp as [-> | (name & bs & Hn)].
      - cbn [pt pt_addr]. split; [lia|]. apply Hlive'. rewrite Hlive_h. set_solver.
      - cbn [pt pt_data] in Hn. destruct (Harr name p bs Hn) as [Hr Hl].
        split; [lia | exact Hl]. }
    exists (pt :: new). split; [rewrite Hpts, <- app_assoc; reflexivity|]. split.
    + constructor.
      * intros p Hp. destruct (Hpt p Hp) as [Hr Hl]. split; [lia | set_solver].
      * apply (Forall_impl _ _ _ Hnew). intros q Hq p Hp.
        destruct (Hq p Hp) as [Hr Hl]. split; [lia | exact Hl].
    + cbn [disjoint_owners]. split; [|exact Hdis].
      apply (Forall_impl _ _ _ Hnew). intros q Hq.
      apply elem_of_disjoint. intros p Hp1 Hp2.
      destruct (Hpt p Hp1) as [Hr1 _]. destruct (Hq p Hp2) as [Hr2 _]. lia.
  - destruct (Hbody f' h (or_intror eq_refl) Hstart) as (Hwf' & Hnext' & Hlive' & _).
    apply (Hstop _ _ (release_object_keeps (mem m) (f_mem f') object Hwf Hwf' Hobject
                        ltac:(lia) ltac:(set_solver)) H).
Qed.

Lemma extends_refl (m : machine) : heap_wf (mem m) -> extends m m.
Proof.
  intros Hwf. split; [exact Hwf|]. split; [lia|]. split; [set_solver|].
  exists []. rewrite app_nil_r. split; [reflexivity|]. split; constructor.
Qed.

Lemma disjoint_owners_app (l k : list point) :
  disjoint_owners l -> disjoint_owners k ->
  Forall (fun p => Forall (fun q => owned p ## owned q) k) l ->
  disjoint_owners (l ++ k).
Proof.
  induction l as [|p l IH]; intros Hl Hk Hlk; [exact Hk|].
  cbn [app disjoint_owners] in *. destruct Hl as [Hp Hl].
  apply Forall_cons in Hlk as [Hpk Hlk].
  split; [apply Forall_app; split; assumption | apply IH; assumption].
Qed.

Lemma extends_trans (m m1 m' : machine) : extends m m1 -> extends m1 m' -> extends m m'.
Proof.
  intros (Hwf1 & Hn1 & Hl1 & new1 & Hp1 & Ha1 & Hd1) (Hwf2 & Hn2 & Hl2 & new2 & Hp2 & Ha2 & Hd2).
  split; [exact Hwf2|]. split; [lia|]. split; [set_solver|].
  exists (new1 ++ new2). split; [rewrite Hp2, Hp1, <- app_assoc; reflexivity|]. split.
  - apply Forall_app. split.
    + apply (Forall_impl _ _ _ Ha1). intros q Hq p Hp.
      destruct (Hq p Hp) as [Hr Hl]. split; [lia | set_solver].
    + apply (Forall_impl _ _ _ Ha2). intros q Hq p Hp.
      destruct (Hq p Hp) as [Hr Hl]. split; [lia | exact Hl].
  - apply disjoint_owners_app; [exact Hd1 | exact Hd2 |].
    apply (Forall_impl _ _ _ Ha1). intros p Hp.
    apply (Forall_impl _ _ _ Ha2). intros q Hq.
    apply elem_of_disjoint. intros x Hx1 Hx2.
    destruct (Hp x Hx1) as [Hr1 _]. destruct (Hq x Hx2) as [Hr2 _]. lia.
Qed.

Lemma record_loop_extends RP U layout d pc n index m rc m' :
  heap_wf (mem m) ->
  record_loop RP U layout d pc n index m = Done (rc, m') -> extends m m'.
Proof. intros Hwf H. exact (record_loop_owners RP U layout d pc n index m rc m' Hwf H). Qed.

Lemma packed_octet_extends layout width mask name octet pc prefix fuel :
  forall j count index m,
  heap_wf (mem m) ->
  match packed_octet layout width mask name octet pc prefix fuel j count index m with
  | Done (Carry_on _ _ m') | Done (Packed_error m') => extends m m'
  | _ => True
  end.
Proof.
  induction fuel as [|fuel IH]; intros j count index m Hwf; cbn [packed_octet].
  { apply extends_refl. exact Hwf. }
  destruct ((j <? 8) && negb (count =? 0)); [|apply extends_refl; exact Hwf].
  destruct (SCCalloc (mem m)) as [[object h]|] eqn:Halloc; [|apply extends_refl; exact Hwf].
  apply SCCalloc_fresh in Halloc as (Hobject & Hlive_h & Hnext_h).
  destruct (assign_member layout name _ ∅) as [data|] eqn:Hdata; [|exact I].
  cbn [DNP3AddPoint].
  set (pt := Point object data index pc prefix).
  assert (Hstep : extends m (Machine (buf m) h (points m ++ [pt]))).
  { unfold extends, heap_wf. cbn [mem points]. rewrite Hlive_h, Hnext_h.
    split; [|split; [lia|split; [set_solver|]]].
    - intros p [Hp%elem_of_singleton | Hp]%elem_of_union; [lia|].
      specialize (Hwf p Hp). lia.
    - exists [pt]. split; [reflexivity|]. split; [|cbn; split; constructor].
      constructor; [|constructor]. intros p Hp. rewrite Hlive_h, Hnext_h.
      apply owned_inv in Hp as [-> | (n & bs & Hn)].
      + cbn [pt pt_addr]. split; [lia | set_solver].
      + cbn [pt pt_data] in Hn.
        pose proof (assign_member_arrays _ _ _ _ _ Hdata n p bs Hn) as He.
        rewrite lookup_empty in He. discriminate. }
  specialize (IH (j + width) (count - 1) (wrap32 (index + 1))
                (Machine (buf m) h (points m ++ [pt]))
                (proj1 Hstep)).
  destruct (packed_octet _ _ _ _ _ _ _ _ _ _ _ _) as [[c' i' m'|m']| |w]; try exact I;
    exact (extends_trans _ _ _ Hstep IH).
Qed.

Lemma packed_loop_extends layout width mask name pc prefix bytes :
  forall count index m rc m',
  heap_wf (mem m) ->
  packed_loop layout width mask name pc prefix bytes count index m = Done (rc, m') ->
  extends m m'.
Proof.
  induction bytes as [|bytes IH]; intros count index m rc m' Hwf H; cbn [packed_loop] in H.
  { inversion H; subst. apply extends_refl. exact Hwf. }
  destruct (DNP3ReadUint8 (buf m)) as [[octet b]|];
    [|inversion H; subst; apply extends_refl; exact Hwf].
  pose proof (packed_octet_extends layout width mask name octet pc prefix 8 0 count index
                (Machine b (mem m) (points m)) Hwf) as Hoctet.
  destruct (packed_octet _ _ _ _ _ _ _ _ _ _ _ _) as [[c' i' m1|m1]| |w]; try discriminate.
  - apply IH in H; [|exact (proj1 Hoctet)]. exact (extends_trans _ _ _ Hoctet H).
  - inversion H; subst. exact Hoctet.
Qed.

Lemma run_decoder_extends RP IS U structs fn pc start count m rc m' :
  heap_wf (mem m) ->
  run_decoder RP IS U structs fn pc start count m = Done (rc, m') -> extends m m'.
Proof.
  unfold run_decoder. intros Hwf H.
  destruct (find _ structs) as [s|]; [|discriminate].
  destruct (fn_body fn) as [d|d].
  - unfold run_packed in H. destruct (c_literal (pd_step d)); [|discriminate].
    destruct (pd_mask d); [|discriminate]. destruct (_ <=? 0); [discriminate|].
    destruct (RP pc (buf m)) as [[prefix b]|];
      [|inversion H; subst; apply extends_refl; exact Hwf].
    apply packed_loop_extends in H; [|exact Hwf]. exact H.
  - unfold run_records in H.
    destruct (check_constraints IS pc (rd_constraints d)) as [[]| |w]; try discriminate.
    + apply record_loop_extends in H; [exact H | exact Hwf].
    + inversion H; subst. apply extends_refl. exact Hwf.
Qed.

(** X16.  The decoders keep the heap in order.  Called on a heap on which
    every live block was handed out by the allocator, DNP3DecodeObject, when
    it returns, has freed no block that was live before and has left the heap
    in the same order; every point it has appended owns blocks that were
    allocated during the call and are still live, and no two of these points
    own a block in common. *)
Theorem decoded_points_own_their_blocks
    (RP : Z -> list byte -> option (Z * list byte)) (IS : Z -> bool)
    (U : list byte -> Z) (CODE : Z -> Z -> Z)
    (structs : list struct_decl) (c : decoders_c)
    (group variation prefix_code start count : Z) (m m' : machine) (r : decode_result) :
  heap_wf (mem m) ->
  DNP3DecodeObject RP IS U CODE structs c group variation prefix_code start count m
  = Done (r, m') ->
  extends m m'.
Proof.
  unfold DNP3DecodeObject. intros Hwf H.
  destruct (switch_labels _ _); [|discriminate].
  destruct (select _ _ _) as [dc|];
    [|inversion H; subst; apply extends_refl; exact Hwf].
  destruct (find _ (decoders c)) as [fn|]; [|discriminate].
  destruct (run_decoder RP IS U structs fn prefix_code start count m)
    as [[rc m1]| |w] eqn:E; try discriminate.
  inversion H; subst. exact (run_decoder_extends _ _ _ _ _ _ _ _ _ _ _ Hwf E).
Qed.

Lemma decoded_points_own_their_blocks_witness :
  let structs := [Struct "DNP3ObjectG1V1"
                    [Member uint8_t "n"; Member uint8_ptr "data"; Member uint16_t "crc"]] in
  let c := Decoders_c
             [Decoder_fn "DNP3DecodeObjectG1V1" "DNP3ObjectG1V1"
                (Records (Record_decoder false []
                            [Read S_uint8 "n"; Read_bytearray "data" "n"; Read S_uint16 "crc"]))]
             [Free_case (Some (YInt 1)) (Some (YInt 1)) ["data"]]
             [Decode_case (Some (YInt 1)) (Some (YInt 1)) "DNP3DecodeObjectG1V1"] in
  let m := Example.fresh [x02; x0a; x0b; x34; x12; x01; x0c] in
  match DNP3DecodeObject Example.read_prefix Example.prefix_is_size Example.little_endian
          Example.object_code structs c 1 1 0 0 2 m with
  | Done (_, m') => extends m m'
  | _ => False
  end.
Proof.
  intros structs c m.
  destruct (DNP3DecodeObject _ _ _ _ structs c 1 1 0 0 2 m) as [[r m']| |] eqn:E;
    [|vm_compute in E; discriminate E ..].
  apply (decoded_points_own_their_blocks Example.read_prefix Example.prefix_is_size
           Example.little_endian Example.object_code structs c 1 1 0 0 2 m m' r); [|exact E].
  intros p Hp. destruct (not_elem_of_empty (C := gset nat) p Hp).
Defined.

(** ** The constraints of a record decoder *)

Lemma decoder_constraints_rendered (o : yaml) (cs : list constraint) :
  py_res (decoder_constraints o) = Ret cs ->
  (jtruthy (jattr o "constraints") = false /\ cs = [])
  \/ exists d, jattr o "constraints" = Some (YMap d) /\ Forall2 rendered_constraint d cs.
Proof.
  unfold decoder_constraints. destruct (jtruthy (jattr o "constraints")) eqn:Ht.
  2:{ intros H. inversion H. left. auto. }
  destruct (jattr o "constraints") as [[| | | | |d]|]; try discriminate.
  intros H. right. exists d. split; [reflexivity|]. clear Ht.
  revert cs H. induction d as [|kv d IH]; intros cs H; cbn [render_each] in H.
  - inversion H. constructor.
  - apply py_bind_res_ret in H as (here & Hhere & H).
    apply py_bind_res_ret in H as (rest & Hrest & H). inversion H; subst cs.
    destruct (String.eqb (fst kv) "require_size_prefix") eqn:E1.
    { apply String.eqb_eq in E1. inversion Hhere; subst here.
      constructor; [left; auto | apply IH; exact Hrest]. }
    destruct (String.eqb (fst kv) "require_prefix_code") eqn:E2; [|discriminate].
    apply String.eqb_eq in E2. inversion Hhere; subst here.
    constructor; [right; auto | apply IH; exact Hrest].
Qed.

Lemma check_constraints_met (IS : Z -> bool) (pc : Z) (cs : list constraint) :
  Forall (fun c => constraint_met IS pc c <> None) cs ->
  check_constraints IS pc cs
  = Done (forallb (fun c => bool_decide (constraint_met IS pc c = Some true)) cs).
Proof.
  induction 1 as [|c cs Hc _ IH]; [reflexivity|].
  cbn [check_constraints forallb]. destruct c as [|val]; cbn [constraint_met] in *.
  - destruct (IS pc); [rewrite IH; reflexivity | reflexivity].
  - destruct (c_literal val) as [v|]; [|destruct (Hc eq_refl)].
    cbn [fmap option_fmap option_map].
    destruct (pc =? v); [rewrite IH; reflexivity | reflexivity].
Qed.

(** X17.  The constraints of an object render one check per key of the
    [constraints] mapping, in the order of the mapping: a key
    require_size_prefix renders the size-prefix check whatever value it has
    in the schema, a key require_prefix_code the comparison with its value.
    The checks run before anything else: when one of them fails the decoder
    returns 0 and has read nothing, allocated nothing and appended nothing;
    when all hold it enters the loop over the records. *)
Theorem constraints_are_checked_before_any_read (o : yaml) (cs : list constraint) :
  py_res (decoder_constraints o) = Ret cs ->
  ((jtruthy (jattr o "constraints") = false /\ cs = [])
   \/ exists d, jattr o "constraints" = Some (YMap d) /\ Forall2 rendered_constraint d cs)
  /\ forall RP IS U layout track body prefix_code start count m,
       Forall (fun c => constraint_met IS prefix_code c <> None) cs ->
       run_records RP IS U layout (Record_decoder track cs body) prefix_code start count m
       = if forallb (fun c => bool_decide (constraint_met IS prefix_code c = Some true)) cs
         then record_loop RP U layout (Record_decoder track cs body) prefix_code
                (Z.to_nat count) (wrap32 start) m
         else Done (0, m).
Proof.
  intros H. split; [apply decoder_constraints_rendered; exact H|].
  intros RP IS U layout track body prefix_code start count m Hlit.
  unfold run_records. cbn [rd_constraints].
  rewrite (check_constraints_met IS prefix_code cs Hlit).
  destruct (forallb _ cs); reflexivity.
Qed.

Lemma constraints_are_checked_before_any_read_witness :
  let o := YMap (Example.object 1 1 [Example.field "uint8" "n" []]
                   [("constraints", YMap [("require_size_prefix", YBool false);
                                          ("require_prefix_code", YInt 5)])]) in
  let cs := [Require_size_prefix; Require_prefix_code (Some (YInt 5))] in
  (exists d, jattr o "constraints" = Some (YMap d) /\ Forall2 rendered_constraint d cs)
  /\ run_records Example.read_prefix Example.prefix_is_size Example.little_endian
       [Member uint8_t "n"] (Record_decoder false cs [Read S_uint8 "n"]) 3 0 1
       (Example.fresh [x01])
     = Done (0, Example.fresh [x01]).
Proof.
  intros o cs.
  destruct (constraints_are_checked_before_any_read o cs eq_refl) as [Hshape Hrun].
  split.
  - destruct Hshape as [[Hfalse _] | Hd]; [discriminate Hfalse | exact Hd].
  - rewrite Hrun; [reflexivity|].
    repeat constructor; discriminate.
Defined.

(** ** What loading prints *)

Lemma quiet_bind {A B} (m : py A) (k : A -> py B) :
  returns_quietly m -> (forall a, returns_quietly (k a)) -> returns_quietly (py_bind m k).
Proof.
  unfold returns_quietly, py_bind. intros Hm Hk b.
  destruct (py_res m) as [a| |] eqn:E; cbn [py_res py_out]; intros H; try discriminate.
  rewrite (Hm a eq_refl), (Hk a b H). reflexivity.
Qed.

Lemma quiet_for {A S} (l : list A) (body : A -> S -> py (flow * S)) :
  (forall x s, returns_quietly (body x s)) -> forall s, returns_quietly (py_for l s body).
Proof.
  intros Hbody. induction l as [|x l IH]; intros s; cbn [py_for].
  - intros a _. reflexivity.
  - apply quiet_bind; [apply Hbody|]. intros [[] s']; cbn [fst snd]; [apply IH|].
    intros a _. reflexivity.
Qed.

Lemma quiet_silent {A} (m : py A) : silent m -> returns_quietly m.
Proof. intros H a _. exact H. Qed.

Lemma quiet_key_loop (valid : list string) (obj : dict) (keys : list string) :
  returns_quietly (py_for keys tt (fun key _ =>
    if negb (str_in key valid) then invalid_key key obj else py_ret (Continue, tt))).
Proof.
  apply quiet_for. intros key []. destruct (negb (str_in key valid)).
  - intros a H. destruct (invalid_key_never_returns _ _ _ H).
  - intros a _. reflexivity.
Qed.

Lemma silent_int v : silent (py_int v).
Proof.
  unfold py_int, silent. destruct v; try reflexivity.
  repeat match goal with
  | |- context [match ?x with _ => _ end] => destruct x
  end; reflexivity.
Qed.

Lemma quiet_preprocess_field field obj : returns_quietly (preprocess_field field obj).
Proof.
  unfold preprocess_field.
  apply quiet_bind; [destruct field; intros a H; try discriminate H; reflexivity|].
  intros fd. apply quiet_bind; [apply quiet_key_loop|]. intros _.
  destruct (_ && _); [intros a _; reflexivity|].
  apply quiet_bind; [apply quiet_silent, silent_item|]. intros ty.
  destruct (eq_str (Some ty) "bstr8"); [|intros a _; reflexivity].
  apply quiet_bind; [apply quiet_silent, silent_item|]. intros subs.
  apply quiet_bind; [apply quiet_silent, silent_iter|]. intros subs'.
  apply quiet_bind.
  - apply quiet_for. intros sub width.
    apply quiet_bind; [apply quiet_silent, silent_subscript|]. intros w.
    apply quiet_bind; [apply quiet_silent, silent_int|]. intros n a _. reflexivity.
  - intros width. destruct (width =? 8); intros a H; [reflexivity | discriminate H].
Qed.

Lemma preprocess_object_out (obj : dict) r :
  py_res (preprocess_object obj) = Ret r ->
  py_out (preprocess_object obj)
  = match notice (YMap obj) with Some line => [line] | None => [] end.
Proof.
  unfold preprocess_object, notice. destruct (dict_has "unimplemented" obj).
  - unfold py_item.
    destruct (dict_get "group" obj) as [g|]; [|discriminate].
    destruct (dict_get "variation" obj) as [v|]; [|discriminate].
    destruct (dict_get "unimplemented" obj) as [why|]; [|discriminate].
    intros _. reflexivity.
  - revert r.
    apply quiet_bind; [apply quiet_key_loop|]. intros _.
    apply quiet_bind; [apply quiet_silent, silent_item|]. intros fv.
    apply quiet_bind; [apply quiet_silent, silent_iter|]. intros fields.
    apply quiet_bind; [apply quiet_for; intros f s; apply quiet_preprocess_field|].
    intros obj' a _. reflexivity.
Qed.

Lemma preprocess_all_out (objs objects : list yaml) :
  py_res (preprocess_all objs) = Ret objects ->
  py_out (preprocess_all objs) = omap notice objs.
Proof.
  revert objects. induction objs as [|o objs IH]; intros objects H; [reflexivity|].
  cbn [preprocess_all] in *.
  apply py_bind_res_ret in H as (r & Hr & H).
  destruct (preprocess_entry_ret _ _ Hr) as (entries & -> & Heq).
  rewrite Heq in *. clear Heq.
  apply py_bind_res_ret in H as (rest & Hrest & H).
  unfold py_bind at 1. rewrite Hr. cbn [py_out].
  unfold py_bind at 1. rewrite Hrest. cbn [py_out].
  rewrite (preprocess_object_out _ _ Hr), (IH _ Hrest), app_nil_r.
  cbn [omap list_omap]. destruct (notice (YMap entries)); reflexivity.
Qed.

(** X18.  What a load that succeeds has printed: the number of objects in
    the schema, those marked unimplemented included, and then one line for
    each object marked unimplemented, in schema order; nothing for the
    objects it validated.  The objects it returns are as many as the schema
    has that are not marked unimplemented. *)
Theorem successful_load_prints_count_and_notices (definitions : yaml)
    (objects : list yaml) :
  py_res (load_objects definitions) = Ret objects ->
  exists entry objs,
    py_res (py_subscript definitions "objects") = Ret entry
    /\ py_res (py_iter entry) = Ret objs
    /\ py_out (load_objects definitions)
       = (Stdout, Loaded_objects (length objs)) :: omap notice objs
    /\ length objects = length (List.filter implemented objs).
Proof.
  unfold load_objects. intros H.
  apply py_bind_res_ret in H as (entry & Hentry & H).
  apply py_bind_res_ret in H as (objs & Hobjs & H).
  apply py_bind_res_ret in H as ([] & _ & H).
  exists entry, objs. split; [exact Hentry|]. split; [exact Hobjs|]. split.
  - pose proof (silent_subscript definitions "objects") as Hs1.
    pose proof (silent_iter entry) as Hs2. unfold silent in Hs1, Hs2.
    unfold py_bind at 1. rewrite Hentry, Hs1. cbn [py_out app].
    unfold py_bind at 1. rewrite Hobjs, Hs2. cbn [py_out app].
    unfold py_bind at 1. cbn [py_print py_res py_out app].
    rewrite (preprocess_all_out _ _ H). reflexivity.
  - pose proof (preprocess_all_keys _ _ H) as Hkeys.
    apply (f_equal (@length _)) in Hkeys. rewrite !length_map in Hkeys. exact Hkeys.
Qed.

Lemma successful_load_prints_count_and_notices_witness :
  let definitions := Example.schema [Example.not_yet; Example.nibbles] in
  exists entry objs,
    py_res (py_subscript definitions "objects") = Ret entry
    /\ py_res (py_iter entry) = Ret objs
    /\ py_out (load_objects definitions)
       = (Stdout, Loaded_objects (length objs)) :: omap notice objs
    /\ length [YMap Example.nibbles] = length (List.filter implemented objs).
Proof.
  intros definitions.
  apply (successful_load_prints_count_and_notices definitions [YMap Example.nibbles]).
  vm_compute. reflexivity.
Defined.

(** ** The rendered files refer to each other *)

Lemma struct_object_shape o sts :
  py_res (struct_object o) = Ret sts ->
  exists members, sts = [Struct (struct_name o) members].
Proof.
  unfold struct_object. intros H.
  apply py_bind_res_ret in H as (fields & _ & H).
  apply py_bind_res_ret in H as (members & _ & H).
  apply py_bind_res_ret in H as (extra & _ & H).
  inversion H. eexists. reflexivity.
Qed.

Lemma find_first {A} (P : A -> bool) (l : list A) (x : A) :
  In x l -> P x = true -> exists y, find P l = Some y /\ In y l /\ P y = true.
Proof.
  intros Hin HP. destruct (find P l) as [y|] eqn:E.
  - apply find_some in E as [Hy HPy]. eauto.
  - rewrite (List.find_none _ _ E x Hin) in HP. discriminate.
Qed.

(** X19.  The rendered files fit together: when the header and the decoder
    templates render a schema, every case of the dispatch switch calls a
    decoder that the same file defines, that decoder works on a struct that
    the header declares, and every case of the release switch is for an
    object that the dispatch switch has a case for. *)
Theorem rendered_decoders_refer_to_rendered_code {J : jinja2} (objects : list yaml)
    (s : list struct_decl) (c : decoders_c) :
  py_res (structs_template objects) = Ret s ->
  py_res (decoders_template objects) = Ret c ->
  (forall dc, In dc (decode_cases c) ->
     exists fn st,
       find (fun fn => String.eqb (fn_name fn) (dc_callee dc)) (decoders c) = Some fn
       /\ find (fun st => String.eqb (s_name st) (fn_struct fn)) s = Some st)
  /\ (forall fc, In fc (free_cases c) ->
        exists dc, In dc (decode_cases c)
          /\ dc_group dc = fc_group fc /\ dc_variation dc = fc_variation fc).
Proof.
  intros Hs Hc.
  assert (Hfrees : py_res (render_each objects free_object) = Ret (free_cases c)).
  { unfold decoders_template in Hc.
    apply py_bind_res_ret in Hc as (fns & _ & Hc).
    apply py_bind_res_ret in Hc as (frees & Hfrees & Hc).
    apply py_bind_res_ret in Hc as (cases & _ & Hc). inversion Hc. exact Hfrees. }
  apply decoders_template_cases in Hc as [Hcases Hfns].
  apply render_each_in in Hs as [Hs_in Hs_all].
  apply render_each_in in Hfns as [Hfn_in Hfn_all].
  apply render_each_in in Hfrees as [Hfree_in _].
  assert (Hstruct : forall fn, In fn (decoders c) ->
            exists st, find (fun st => String.eqb (s_name st) (fn_struct fn)) s = Some st).
  { intros fn Hfn. destruct (Hfn_in fn Hfn) as (o & here & Ho & Hhere & Hin).
    apply decoder_object_shape in Hhere as [body ->]. destruct Hin as [<- | []].
    destruct (Hs_all o Ho) as (sts & Hsts & Hall).
    apply struct_object_shape in Hsts as [members ->].
    destruct (find_first (fun st => String.eqb (s_name st) (struct_name o)) s
                (Struct (struct_name o) members)) as (st & Hst & _);
      [apply Hall; left; reflexivity | apply String.eqb_refl | eauto]. }
  split.
  - intros dc Hdc. rewrite Hcases in Hdc. apply in_map_iff in Hdc as (o & <- & Ho).
    destruct (Hfn_all o Ho) as (fns & Hfns & Hall).
    apply decoder_object_shape in Hfns as [body ->].
    destruct (find_first (fun fn => String.eqb (fn_name fn) (decoder_name o)) (decoders c)
                (Decoder_fn (decoder_name o) (struct_name o) body)) as (fn & Hfn & Hin & _);
      [apply Hall; left; reflexivity | apply String.eqb_refl |].
    destruct (Hstruct fn Hin) as [st Hst]. exists fn, st. split; [exact Hfn | exact Hst].
  - intros fc Hfc. destruct (Hfree_in fc Hfc) as (o & here & Ho & Hhere & Hin).
    exists (case_of o). split; [rewrite Hcases; apply in_map; exact Ho|].
    unfold free_object in Hhere.
    apply py_bind_res_ret in Hhere as (fields & _ & Hhere).
    apply py_bind_res_ret in Hhere as (freeable & _ & Hhere).
    destruct freeable.
    + apply py_bind_res_ret in Hhere as (members & _ & Hhere). inversion Hhere; subst here.
      destruct Hin as [<- | []]. split; reflexivity.
    + inversion Hhere; subst here. destruct Hin.
Qed.

Lemma rendered_decoders_refer_to_rendered_code_witness :
  match py_res (structs_template [YMap Example.bytes_then_crc; YMap Example.nibbles]),
        py_res (decoders_template (J := Example.jinja2_8)
                  [YMap Example.bytes_then_crc; YMap Example.nibbles]) with
  | Ret s, Ret c =>
      (forall dc, In dc (decode_cases c) ->
         exists fn st,
           find (fun fn => String.eqb (fn_name fn) (dc_callee dc)) (decoders c) = Some fn
           /\ find (fun st => String.eqb (s_name st) (fn_struct fn)) s = Some st)
      /\ (forall fc, In fc (free_cases c) ->
            exists dc, In dc (decode_cases c)
              /\ dc_group dc = fc_group fc /\ dc_variation dc = fc_variation fc)
  | _, _ => False
  end.
Proof.
  destruct (py_res (structs_template _)) as [s| |] eqn:Hs;
    [|vm_compute in Hs; discriminate Hs ..].
  destruct (py_res (decoders_template _)) as [c| |] eqn:Hc;
    [|vm_compute in Hc; discriminate Hc ..].
  exact (rendered_decoders_refer_to_rendered_code (J := Example.jinja2_8) _ s c Hs Hc).
Defined.

(** ** The keys of the two exporters *)

(** X20.  The Lua and the JSON templates accept the same fields and make
    one entry per member, in the same order.  The keys are the same, except
    that the JSON key of a field of type bytearray or vstr4 is the Lua key with
    [data->] in front of it. *)
Theorem lua_and_json_keys (field : yaml) :
  (forall le, py_res (lua_field field) = Ret le ->
     exists je,
       py_res (json_field field) = Ret je
       /\ map json_member je = map lua_member le
       /\ map json_key je
          = map (fun e => (if json_key_has_prefix field then "data->" else "") +:+ lua_key e) le)
  /\ (forall je, py_res (json_field field) = Ret je ->
        exists le, py_res (lua_field field) = Ret le).
Proof.
  unfold lua_field, json_field, json_key_has_prefix.
  remember (jattr field "type") as ty eqn:Hty.
  destruct (is_integer_type ty) eqn:Hint.
  { assert (eq_str ty "bytearray" || eq_str ty "vstr4" = false) as ->.
    { destruct ty as [[| | |t| |]|]; try reflexivity. cbn [eq_str].
      destruct (String.eqb_spec t "bytearray") as [->|]; [discriminate Hint|].
      destruct (String.eqb_spec t "vstr4") as [->|]; [discriminate Hint | reflexivity]. }
    split.
    - intros le H. inversion H; subst le. eexists. repeat split; reflexivity.
    - intros je _. eexists. reflexivity. }
  destruct (in_strs ty flt_types) eqn:Hflt.
  { assert (eq_str ty "bytearray" || eq_str ty "vstr4" = false) as ->.
    { destruct ty as [[| | |t| |]|]; try reflexivity. cbn [eq_str].
      destruct (String.eqb_spec t "bytearray") as [->|]; [discriminate Hflt|].
      destruct (String.eqb_spec t "vstr4") as [->|]; [discriminate Hflt | reflexivity]. }
    split.
    - intros le H. inversion H; subst le. eexists. repeat split; reflexivity.
    - intros je _. eexists. reflexivity. }
  split.
  - intros le H.
    by_type H ty ltac:(fun E =>
      rewrite E in *; cbn [eq_str String.eqb Ascii.eqb Bool.eqb orb];
      try (inversion H; subst le; eexists; repeat split; reflexivity)).
    + apply py_bind_res_ret in H as (subs & Hsubs & H).
      rewrite render_each_pure in H. inversion H; subst le.
      rewrite (bind_ret_res _ _ _ Hsubs), render_each_pure.
      eexists. split; [reflexivity|]. rewrite !map_map. split; reflexivity.
    + discriminate H.
  - intros je H.
    by_type H ty ltac:(fun E =>
      rewrite E in *; cbn [eq_str String.eqb Ascii.eqb Bool.eqb orb];
      try (eexists; reflexivity)).
    + apply py_bind_res_ret in H as (subs & Hsubs & H).
      rewrite (bind_ret_res _ _ _ Hsubs), render_each_pure. eexists. reflexivity.
    + discriminate H.
Qed.

Lemma lua_and_json_keys_witness :
  let field := Example.field "bytearray" "payload" [("len_field", YStr "n")] in
  exists je,
    py_res (json_field field) = Ret je
    /\ map json_member je = map lua_member [Lua_entry "payload" (lua_pushlstring "payload" "n")]
    /\ map json_key je = ["data->payload"].
Proof.
  intros field. destruct (lua_and_json_keys field) as [H _].
  apply (H [Lua_entry "payload" (lua_pushlstring "payload" "n")]). reflexivity.
Defined.

